(** * Intent-to-NetworkPolicy compiler: a shallow embedding of
      [backend/policy_generator.py] and the properties of its output.

    The Python class [PolicyGenerator] is embedded function by function.
    Dictionaries whose keys are fixed by the code become records; a key
    that may be missing is an [option] field, and a value that may be
    Python's [None] is a [nullable].  Dictionaries used as ordered maps
    ([rules_by_dest], [egress_by_source]) are association lists in
    insertion order.  Exceptions are values of [exn]; the wall clock read
    by [datetime.now()] and the attribute [self.generated_policies] are
    threaded through a small state-and-exception monad. *)

From Stdlib Require Import Ascii String List ZArith Bool Arith Lia DecimalString.
From Stdlib Require Import Sorted Permutation.
Import ListNotations.
Local Open Scope string_scope.
Local Open Scope list_scope.

Set Implicit Arguments.

(* ================================================================= *)
(** ** Python values and primitives *)

Module Py.

(** A value that is either [None] or a proper value of type [A]. *)
Inductive nullable (A : Type) : Type :=
| PyNone : nullable A
| Is (a : A) : nullable A.
Arguments PyNone {A}.

(** The two exceptions the generator can raise. *)
Inductive exn : Type :=
| KeyError (key : string)
| TypeError (msg : string).

Definition result (A : Type) : Type := (exn + A)%type.

(** [d.get(k, default)], the field holding the entry of key [k]. *)
Definition get {V : Type} (field : option V) (default : V) : V :=
  match field with
  | Some v => v
  | None => default
  end.

(** [d.get(k)]: [None] when the key is missing. *)
Definition get_none {V : Type} (field : option (nullable V)) : nullable V :=
  get field PyNone.

(** [d[k]]: raises [KeyError] when the key is missing. *)
Definition item {V : Type} (key : string) (field : option V) : result V :=
  match field with
  | Some v => inr v
  | None => inl (KeyError key)
  end.

(** [k in d]. *)
Definition contains {V : Type} (field : option V) : bool :=
  match field with
  | Some _ => true
  | None => false
  end.

(** Truth value of a list-or-None: [None] and [[]] are falsy. *)
Definition truthy {A : Type} (v : nullable (list A)) : bool :=
  match v with
  | Is (_ :: _) => true
  | _ => false
  end.

(** [a == b] on values that are strings or [None]. *)
Definition str_eqb (a b : nullable string) : bool :=
  match a, b with
  | PyNone, PyNone => true
  | Is x, Is y => String.eqb x y
  | _, _ => false
  end.

(** [str(i)] for a non-negative integer. *)
Definition str_of_nat (i : nat) : string :=
  NilZero.string_of_uint (Nat.to_uint i).

(** [sep.join(parts)]. *)
Definition join (sep : string) (parts : list string) : string :=
  String.concat sep parts.

Definition not_iterable : exn :=
  TypeError "'NoneType' object is not iterable".

End Py.
Import Py.

(* ================================================================= *)
(** ** The input: intents and rules *)

(** One entry of [intent["rules"]].  Keys: "from", "to", "ports",
    "protocols", "namespace".  [backend/main.py] declares
    [ports : Optional[List[int]]], [protocols : Optional[List[str]]] and
    [namespace : Optional[str]], so these three may also hold [None]. *)
Record ServiceRule : Type := {
  r_from : option string;
  r_to : option string;
  r_ports : option (nullable (list Z));
  r_protocols : option (nullable (list string));
  r_namespace : option (nullable string)
}.

(** The intent dictionary.  Keys: "name", "namespace", "rules". *)
Record Intent : Type := {
  i_name : option string;
  i_namespace : option (nullable string);
  i_rules : option (list ServiceRule)
}.

(* ================================================================= *)
(** ** [validate_intent] *)

Record ValidationResult : Type := {
  valid : bool;
  errors : list string;
  warnings : list string
}.

(** [not intent.get("rules")]: the key is missing or the list is empty. *)
Definition rules_falsy (intent : Intent) : bool :=
  match i_rules intent with
  | Some (_ :: _) => false
  | _ => true
  end.

(** [rule.get("from") == rule.get("to")]; two missing keys compare equal. *)
Definition same_endpoints (rule : ServiceRule) : bool :=
  match r_from rule, r_to rule with
  | None, None => true
  | Some a, Some b => String.eqb a b
  | _, _ => false
  end.

(** The body of the loop [for i, rule in enumerate(...)], as the pair of
    messages it appends to [errors] and to [warnings]. *)
Definition validate_rule (i : nat) (rule : ServiceRule)
  : list string * list string :=
  ((if contains (r_from rule) then []
    else [("Rule " ++ str_of_nat i ++ ": Missing 'from' field")%string])
   ++
   (if contains (r_to rule) then []
    else [("Rule " ++ str_of_nat i ++ ": Missing 'to' field")%string]),
   if same_endpoints rule
   then [("Rule " ++ str_of_nat i
          ++ ": Source and destination are the same")%string]
   else []).

Fixpoint validate_rules (i : nat) (rules : list ServiceRule)
         (errs warns : list string) : list string * list string :=
  match rules with
  | [] => (errs, warns)
  | rule :: rest =>
      let '(e, w) := validate_rule i rule in
      validate_rules (S i) rest (errs ++ e) (warns ++ w)
  end.

Definition validate_intent (intent : Intent) : ValidationResult :=
  let errs := if contains (i_rules intent) then []
              else ["Missing 'rules' field in intent"] in
  let warns := if rules_falsy intent
               then ["No rules defined in intent"] else [] in
  let '(errs, warns) := validate_rules 0 (get (i_rules intent) []) errs warns in
  {| valid := Nat.eqb (List.length errs) 0;
     errors := errs;
     warnings := warns |}.

(* ================================================================= *)
(** ** The output: NetworkPolicy manifests *)

(** [{"port": p, "protocol": proto}]. *)
Record PortSpec : Type := {
  port : Z;
  protocol : string
}.

(** A peer selector:
    [{"podSelector": {"matchLabels": {"app": s}}}], with the optional
    entry ["namespaceSelector": {"matchLabels": {"name": ns}}].  The field
    is [None] when the key is missing. *)
Record PeerSelector : Type := {
  peer_app : string;
  namespaceSelector : option (nullable string)
}.

(** One element of [spec["ingress"]] or [spec["egress"]].  [peers] is the
    list under the key "from" (ingress) or "to" (egress); [ports] is
    [None] when the entry has no "ports" key. *)
Record RuleEntry : Type := {
  peers : list PeerSelector;
  ports : option (list PortSpec)
}.

Record Metadata : Type := {
  name : string;
  namespace : nullable string;
  labels : list (string * string);
  annotations : list (string * string)
}.

(** [podSelector] is [None] for the empty selector [{}] and [Some s] for
    [{"matchLabels": {"app": s}}]; [ingress] and [egress] are [None] when
    the key is missing. *)
Record Spec : Type := {
  podSelector : option string;
  policyTypes : list string;
  ingress : option (list RuleEntry);
  egress : option (list RuleEntry)
}.

Record Manifest : Type := {
  apiVersion : string;
  kind : string;
  metadata : Metadata;
  spec : Spec
}.

(* ================================================================= *)
(** ** State and exceptions *)

(** What a call can observe and change besides its arguments: the
    successive readings of [datetime.now().isoformat()] and the attribute
    [self.generated_policies]. *)
Record World : Type := {
  clock : nat -> string;
  generated_policies : list Manifest
}.

Definition M (A : Type) : Type := World -> result A * World.

Definition ret {A : Type} (a : A) : M A := fun w => (inr a, w).

Definition bind {A B : Type} (m : M A) (k : A -> M B) : M B :=
  fun w =>
    match m w with
    | (inl e, w') => (inl e, w')
    | (inr a, w') => k a w'
    end.

(** A computation that only raises or returns. *)
Definition lift {A : Type} (r : result A) : M A := fun w => (r, w).

Declare Scope py_scope.
Delimit Scope py_scope with py.
Notation "x <- m ;; k" := (bind m (fun x => k))
  (at level 100, m at next level, right associativity) : py_scope.
Local Open Scope py_scope.

(** The same sequencing for computations without state. *)
Definition rbind {A B : Type} (r : result A) (k : A -> result B) : result B :=
  match r with
  | inl e => inl e
  | inr a => k a
  end.

Notation "x <~ r ;; k" := (rbind r (fun x => k))
  (at level 100, r at next level, right associativity) : py_scope.

(** [datetime.now().isoformat()]. *)
Definition now_isoformat : M string :=
  fun w => (inr (clock w 0),
            {| clock := fun n => clock w (S n);
               generated_policies := generated_policies w |}).

(** [self.generated_policies = policies]. *)
Definition set_generated_policies (policies : list Manifest) : M unit :=
  fun w => (inr tt, {| clock := clock w; generated_policies := policies |}).

(** A [for] loop whose body produces one element of the result. *)
Fixpoint for_each {A B : Type} (body : A -> M B) (l : list A) : M (list B) :=
  match l with
  | [] => ret []
  | x :: rest =>
      y <- body x ;;
      ys <- for_each body rest ;;
      ret (y :: ys)
  end.

Fixpoint rfor_each {A B : Type} (body : A -> result B) (l : list A)
  : result (list B) :=
  match l with
  | [] => inr []
  | x :: rest =>
      y <~ body x ;;
      ys <~ rfor_each body rest ;;
      inr (y :: ys)
  end.

(* ================================================================= *)
(** ** Ordered dictionaries of lists *)

(** A dictionary from strings to lists, in insertion order. *)
Definition odict (A : Type) : Type := list (string * list A).

(** [if k not in d: d[k] = []] followed by [d[k].append(v)]. *)
Fixpoint append_at {A : Type} (k : string) (v : A) (d : odict A) : odict A :=
  match d with
  | [] => [(k, [v])]
  | (k', vs) :: d' =>
      if String.eqb k k' then (k', vs ++ [v]) :: d'
      else (k', vs) :: append_at k v d'
  end.

(** The loop that fills such a dictionary: [entry] computes, for each
    element, the key it is filed under and the value appended there. *)
Fixpoint group_into {A B : Type} (entry : A -> result (string * B))
         (l : list A) (d : odict B) : result (odict B) :=
  match l with
  | [] => inr d
  | x :: rest =>
      kv <~ entry x ;;
      group_into entry rest (append_at (fst kv) (snd kv) d)
  end.

(* ================================================================= *)
(** ** The generator *)

(** [for x in v]: iterating over [None] raises [TypeError]. *)
Definition iter {A : Type} (v : nullable (list A)) : result (list A) :=
  match v with
  | PyNone => inl not_iterable
  | Is l => inr l
  end.

(** The nested loops that fill [rule["ports"]]: for each port, for each
    protocol, append [{"port": port, "protocol": protocol}]. *)
Fixpoint expand_ports (ports : list Z) (protocols : nullable (list string))
         (acc : list PortSpec) : result (list PortSpec) :=
  match ports with
  | [] => inr acc
  | port :: rest =>
      protos <~ iter protocols ;;
      expand_ports rest protocols
        (acc ++ map (fun protocol =>
                       {| port := port; protocol := protocol |}) protos)
  end.

Definition managed_by : string * string :=
  ("app.kubernetes.io/managed-by", "k8s-policy-generator").

Definition _generate_default_deny (namespace : nullable string) : M Manifest :=
  stamp <- now_isoformat ;;
  ret {| apiVersion := "networking.k8s.io/v1";
         kind := "NetworkPolicy";
         metadata :=
           {| name := "default-deny-all";
              namespace := namespace;
              labels := [managed_by; ("policy-type", "default-deny")];
              annotations :=
                [("description",
                  "Default deny all ingress and egress traffic");
                 ("generated-at", stamp)] |};
         spec :=
           {| podSelector := None;
              policyTypes := ["Ingress"; "Egress"];
              ingress := None;
              egress := None |} |}.

(** The body of the loop [for rule in rules] of
    [_generate_ingress_policy]: the entry appended to [ingress_rules]. *)
Definition ingress_rule_of (namespace : nullable string) (rule : ServiceRule)
  : result RuleEntry :=
  from <~ item "from" (r_from rule) ;;
  let source_ns := get (r_namespace rule) namespace in
  let from_selector :=
    {| peer_app := from;
       namespaceSelector :=
         if negb (str_eqb source_ns namespace) then Some source_ns
         else None |} in
  let ports := get_none (r_ports rule) in
  let protocols := get (r_protocols rule) (Is ["TCP"]) in
  if truthy ports then
    ps <~ iter ports ;;
    specs <~ expand_ports ps protocols [] ;;
    inr {| peers := [from_selector]; ports := Some specs |}
  else
    inr {| peers := [from_selector]; ports := None |}.

Definition _generate_ingress_policy (dest_service : string)
           (rules : list ServiceRule) (namespace : nullable string)
           (intent_name : string) : M Manifest :=
  ingress_rules <- lift (rfor_each (ingress_rule_of namespace) rules) ;;
  stamp <- now_isoformat ;;
  sources <- lift (rfor_each (fun r => item "from" (r_from r)) rules) ;;
  ret {| apiVersion := "networking.k8s.io/v1";
         kind := "NetworkPolicy";
         metadata :=
           {| name := ("allow-ingress-to-" ++ dest_service)%string;
              namespace := namespace;
              labels := [managed_by; ("policy-type", "ingress");
                         ("target-service", dest_service);
                         ("intent", intent_name)];
              annotations :=
                [("description",
                  ("Allow ingress traffic to " ++ dest_service)%string);
                 ("generated-at", stamp);
                 ("allowed-sources", join "," sources)] |};
         spec :=
           {| podSelector := Some dest_service;
              policyTypes := ["Ingress"];
              ingress := Some ingress_rules;
              egress := None |} |}.

(** The dictionaries that [_extract_egress_rules] builds, with the keys
    "to", "ports", "protocols" and "namespace". *)
Record EgressDest : Type := {
  d_to : option string;
  d_ports : option (nullable (list Z));
  d_protocols : option (nullable (list string));
  d_namespace : option (nullable string)
}.

(** The dictionary appended for [rule], once [rule["to"]] has been read. *)
Definition egress_dest (to : string) (rule : ServiceRule) : EgressDest :=
  {| d_to := Some to;
     d_ports := Some (get_none (r_ports rule));
     d_protocols := Some (get (r_protocols rule) (Is ["TCP"]));
     d_namespace := Some (get (r_namespace rule) (Is "default")) |}.

(** The body of the loop of [_extract_egress_rules]: the source the rule
    is filed under and the dictionary appended there. *)
Definition egress_entry (rule : ServiceRule) : result (string * EgressDest) :=
  source <~ item "from" (r_from rule) ;;
  to <~ item "to" (r_to rule) ;;
  inr (source, egress_dest to rule).

Definition _extract_egress_rules (rules : list ServiceRule)
  : result (odict EgressDest) :=
  group_into egress_entry rules [].

(** The body of the loop [for dest in destinations] of
    [_generate_egress_policy]. *)
Definition egress_rule_of (namespace : nullable string) (dest : EgressDest)
  : result RuleEntry :=
  to <~ item "to" (d_to dest) ;;
  let dest_ns := get (d_namespace dest) namespace in
  let to_selector :=
    {| peer_app := to;
       namespaceSelector :=
         if negb (str_eqb dest_ns namespace) then Some dest_ns
         else None |} in
  if truthy (get_none (d_ports dest)) then
    nps <~ item "ports" (d_ports dest) ;;
    ps <~ iter nps ;;
    specs <~ expand_ports ps (get (d_protocols dest) (Is ["TCP"])) [] ;;
    inr {| peers := [to_selector]; ports := Some specs |}
  else
    inr {| peers := [to_selector]; ports := None |}.

(** The entry that allows DNS lookups, appended to every egress policy. *)
Definition dns_rule : RuleEntry :=
  {| peers := [];
     ports := Some [ {| port := 53; protocol := "UDP" |};
                     {| port := 53; protocol := "TCP" |} ] |}.

Definition _generate_egress_policy (source_service : string)
           (destinations : list EgressDest) (namespace : nullable string)
           (intent_name : string) : M Manifest :=
  egress_rules <- lift (rfor_each (egress_rule_of namespace) destinations) ;;
  let egress_rules := egress_rules ++ [dns_rule] in
  stamp <- now_isoformat ;;
  targets <- lift (rfor_each (fun d => item "to" (d_to d)) destinations) ;;
  ret {| apiVersion := "networking.k8s.io/v1";
         kind := "NetworkPolicy";
         metadata :=
           {| name := ("allow-egress-from-" ++ source_service)%string;
              namespace := namespace;
              labels := [managed_by; ("policy-type", "egress");
                         ("source-service", source_service);
                         ("intent", intent_name)];
              annotations :=
                [("description",
                  ("Allow egress traffic from " ++ source_service)%string);
                 ("generated-at", stamp);
                 ("allowed-destinations", join "," targets)] |};
         spec :=
           {| podSelector := Some source_service;
              policyTypes := ["Egress"];
              ingress := None;
              egress := Some egress_rules |} |}.

(** The key and value that the first loop of [generate] files a rule
    under: [rules_by_dest[rule["to"]].append(rule)]. *)
Definition dest_entry (rule : ServiceRule) : result (string * ServiceRule) :=
  dest <~ item "to" (r_to rule) ;;
  inr (dest, rule).

Definition generate (intent : Intent) : M (list Manifest) :=
  let namespace := get (i_namespace intent) (Is "default") in
  deny <- _generate_default_deny namespace ;;
  rules_by_dest <- lift (group_into dest_entry (get (i_rules intent) []) []) ;;
  ingress_policies <-
    for_each (fun '(dest_service, rules) =>
                _generate_ingress_policy dest_service rules namespace
                  (get (i_name intent) "generated"))
             rules_by_dest ;;
  egress_rules <- lift (_extract_egress_rules (get (i_rules intent) [])) ;;
  egress_policies <-
    for_each (fun '(source_service, destinations) =>
                _generate_egress_policy source_service destinations namespace
                  (get (i_name intent) "generated"))
             egress_rules ;;
  let policies := [deny] ++ ingress_policies ++ egress_policies in
  _ <- set_generated_policies policies ;;
  ret policies.

(* ================================================================= *)
(** ** The textual serializer *)

Section Serializer.

(** [yaml.dump(policy, default_flow_style=False, sort_keys=False)], a
    function of the PyYAML library. *)
Variable dump : Manifest -> string.

Definition separator : string := "---" ++ String "010"%char EmptyString.

Definition to_yaml (policies : list Manifest) : string :=
  join separator (map dump policies).

End Serializer.

(* ================================================================= *)
(** ** Vocabulary for the statements *)

(** A fresh [PolicyGenerator()] under a clock that always reads [t]. *)
Definition fresh (t : string) : World :=
  {| clock := fun _ => t; generated_policies := [] |}.

(** The rules of an intent and its policy namespace, as [generate] reads
    them. *)
Definition rules_of (intent : Intent) : list ServiceRule :=
  get (i_rules intent) [].

Definition policy_namespace (intent : Intent) : nullable string :=
  get (i_namespace intent) (Is "default").

(** The distinct elements of a list, in the order of first occurrence. *)
Fixpoint first_seen (l : list string) : list string :=
  match l with
  | [] => []
  | x :: rest => x :: filter (fun y => negb (String.eqb y x)) (first_seen rest)
  end.

(** The values filed under key [k] in a list of key-value pairs, and the
    dictionary that groups the pairs by key. *)
Definition values_of {B : Type} (k : string) (kvs : list (string * B)) : list B :=
  map snd (filter (fun kv => String.eqb (fst kv) k) kvs).

Definition grouped {B : Type} (kvs : list (string * B)) : odict B :=
  map (fun k => (k, values_of k kvs)) (first_seen (map fst kvs)).

(** Destination and source names of a list of rules, rule by rule. *)
Definition dests_of (rules : list ServiceRule) : list string :=
  flat_map (fun r => match r_to r with Some d => [d] | None => [] end) rules.

Definition sources_of (rules : list ServiceRule) : list string :=
  flat_map (fun r => match r_from r with Some s => [s] | None => [] end) rules.

Definition to_is (d : string) (r : ServiceRule) : bool :=
  match r_to r with Some t => String.eqb t d | None => false end.

Definition from_is (s : string) (r : ServiceRule) : bool :=
  match r_from r with Some f => String.eqb f s | None => false end.

(** The rules that name [d] as destination, resp. [s] as source, in the
    order of the intent. *)
Definition rules_to (d : string) (rules : list ServiceRule) : list ServiceRule :=
  filter (to_is d) rules.

Definition rules_from (s : string) (rules : list ServiceRule) : list ServiceRule :=
  filter (from_is s) rules.

(** The rule has both keys "from" and "to". *)
Definition has_endpoints (r : ServiceRule) : bool :=
  contains (r_from r) && contains (r_to r).

(** The rule's protocols can be iterated over whenever its ports call
    for it: not a non-empty port list together with [None] protocols. *)
Definition protocols_iterable (r : ServiceRule) : bool :=
  negb (truthy (get_none (r_ports r)))
  || match get (r_protocols r) (Is ["TCP"]) with
     | PyNone => false
     | Is _ => true
     end.

(** The destination dictionaries of a list of rules. *)
Definition egress_dests (rules : list ServiceRule) : list EgressDest :=
  flat_map (fun r => match r_to r with
                     | Some t => [egress_dest t r]
                     | None => []
                     end) rules.

(** The three kinds of manifest, told apart by the shape of [spec]. *)
Definition is_default_deny (m : Manifest) : bool :=
  match podSelector (spec m), policyTypes (spec m) with
  | None, [a; b] => String.eqb a "Ingress" && String.eqb b "Egress"
  | _, _ => false
  end.

Definition is_ingress (m : Manifest) : bool :=
  match ingress (spec m) with Some _ => true | None => false end.

Definition is_egress (m : Manifest) : bool :=
  match egress (spec m) with Some _ => true | None => false end.

(** The manifest's pod selector matches the pods of service [d]. *)
Definition targets (d : string) (m : Manifest) : bool :=
  match podSelector (spec m) with
  | Some t => String.eqb t d
  | None => false
  end.

(** The entries of a manifest under "ingress", resp. "egress". *)
Definition ingress_entries (m : Manifest) : list RuleEntry :=
  get (ingress (spec m)) [].

Definition egress_entries (m : Manifest) : list RuleEntry :=
  get (egress (spec m)) [].

(** The service names selected by the peers of a list of entries. *)
Definition peer_names (es : list RuleEntry) : list string :=
  map peer_app (flat_map peers es).

Definition has_no_peer (e : RuleEntry) : bool :=
  match peers e with [] => true | _ :: _ => false end.

(** The namespace a rule resolves to: its own, or the intent's when the
    rule has none. *)
Definition resolved_namespace (intent : Intent) (r : ServiceRule)
  : nullable string :=
  get (r_namespace r) (policy_namespace intent).

(** The selector of peer [who], whose namespace is [peer_ns], in a
    policy of namespace [ns]: the namespace selector is there only when
    the two namespaces differ. *)
Definition selector_of (who : string) (peer_ns ns : nullable string)
  : PeerSelector :=
  {| peer_app := who;
     namespaceSelector :=
       if negb (str_eqb peer_ns ns) then Some peer_ns else None |}.

(** Port list of a rule in the words of the specification: the product
    of ports by protocols, ports outermost, protocols defaulting to
    [["TCP"]]; no port list when the rule has no ports. *)
Definition cartesian (ps : list Z) (protos : list string) : list PortSpec :=
  flat_map (fun p => map (fun proto => {| port := p; protocol := proto |}) protos)
           ps.

Definition declared_protocols (r : ServiceRule) : list string :=
  match r_protocols r with
  | Some (Is protos) => protos
  | _ => ["TCP"]
  end.

Definition spec_port_list (r : ServiceRule) : option (list PortSpec) :=
  match r_ports r with
  | Some (Is (p :: ps)) => Some (cartesian (p :: ps) (declared_protocols r))
  | _ => None
  end.

(** [m] is the ingress manifest of destination [d]: its entries come from
    the rules that name [d], one per rule, in their order. *)
Definition ingress_policy_for (intent : Intent) (d : string) (m : Manifest)
  : Prop :=
  exists es,
    rfor_each (ingress_rule_of (policy_namespace intent))
              (rules_to d (rules_of intent)) = inr es /\
    spec m = {| podSelector := Some d; policyTypes := ["Ingress"];
                ingress := Some es; egress := None |} /\
    namespace (metadata m) = policy_namespace intent.

(** [m] is the egress manifest of source [s]: one entry per rule of [s],
    in their order, followed by the DNS entry. *)
Definition egress_policy_for (intent : Intent) (s : string) (m : Manifest)
  : Prop :=
  exists es,
    rfor_each (egress_rule_of (policy_namespace intent))
              (egress_dests (rules_from s (rules_of intent))) = inr es /\
    spec m = {| podSelector := Some s; policyTypes := ["Egress"];
                ingress := None; egress := Some (es ++ [dns_rule]) |} /\
    namespace (metadata m) = policy_namespace intent.

(** The canonical order of the output: the default-deny manifest, the
    ingress manifests by destination in first-seen order, the egress
    manifests by source in first-seen order. *)
Definition canonical_order (intent : Intent) (out : list Manifest) : Prop :=
  exists deny ing eg,
    out = deny :: ing ++ eg /\
    is_default_deny deny = true /\
    map (fun m => podSelector (spec m)) ing
      = map Some (first_seen (dests_of (rules_of intent))) /\
    forallb is_ingress ing = true /\
    map (fun m => podSelector (spec m)) eg
      = map Some (first_seen (sources_of (rules_of intent))) /\
    forallb is_egress eg = true.

(** The namespaces an intent refers to: its own and those its rules
    resolve to. *)
Definition referenced_namespaces (intent : Intent) : list (nullable string) :=
  policy_namespace intent
    :: map (resolved_namespace intent) (rules_of intent).

(** The default-deny manifests of [out] that live in namespace [ns]. *)
Definition default_denies_in (ns : nullable string) (out : list Manifest)
  : list Manifest :=
  filter (fun m => is_default_deny m && str_eqb (namespace (metadata m)) ns)
         out.

(** One default-deny manifest for every namespace referred to. *)
Definition one_deny_per_namespace (intent : Intent) (out : list Manifest)
  : Prop :=
  forall ns, In ns (referenced_namespaces intent) ->
             List.length (default_denies_in ns out) = 1.

(** The ingress manifests of [out] that target [d]. *)
Definition ingress_manifests_to (d : string) (out : list Manifest)
  : list Manifest :=
  filter (fun m => is_ingress m && targets d m) out.

(** One ingress manifest for every destination, with one entry for every
    distinct source that names it, in first-seen order. *)
Definition one_entry_per_source (intent : Intent) (out : list Manifest)
  : Prop :=
  forall d, In d (dests_of (rules_of intent)) ->
    exists m, ingress_manifests_to d out = [m] /\
              peer_names (ingress_entries m)
              = first_seen (sources_of (rules_to d (rules_of intent))).

(** The DNS entry, recognised by its content. *)
Definition is_dns_rule (e : RuleEntry) : bool :=
  has_no_peer e
  && match ports e with
     | Some [a; b] =>
         Z.eqb (port a) 53 && String.eqb (protocol a) "UDP"
         && Z.eqb (port b) 53 && String.eqb (protocol b) "TCP"
     | _ => false
     end.

(** Sample intents.  [scenario_A] and [scenario_B] are the scenarios of
    the specification; [two_port_rules] names the same pair of services
    twice; [prod_intent] lives in a namespace other than "default" and
    its rule names no namespace; [null_protocols] carries
    ["protocols": None], as [backend/main.py] passes it on when the
    request says [null]; [dns_intent] has a rule of its own on port 53. *)
Definition simple_rule (from to : string) (ps : option (nullable (list Z)))
  : ServiceRule :=
  {| r_from := Some from; r_to := Some to; r_ports := ps;
     r_protocols := None; r_namespace := None |}.

Definition scenario_A : Intent :=
  {| i_name := Some "x";
     i_namespace := Some (Is "default");
     i_rules := Some [ {| r_from := Some "frontend"; r_to := Some "backend";
                          r_ports := Some (Is [8080%Z]);
                          r_protocols := Some (Is ["TCP"]);
                          r_namespace := None |} ] |}.

Definition scenario_B : Intent :=
  {| i_name := Some "x";
     i_namespace := Some (Is "default");
     i_rules := Some [ {| r_from := Some "frontend"; r_to := Some "backend";
                          r_ports := Some (Is [8080%Z]);
                          r_protocols := Some (Is ["TCP"]);
                          r_namespace := Some (Is "web") |} ] |}.

Definition two_port_rules : Intent :=
  {| i_name := Some "x";
     i_namespace := Some (Is "default");
     i_rules := Some [ simple_rule "frontend" "backend" (Some (Is [80%Z]));
                       simple_rule "frontend" "backend" (Some (Is [443%Z])) ] |}.

Definition prod_intent : Intent :=
  {| i_name := Some "x";
     i_namespace := Some (Is "prod");
     i_rules := Some [ simple_rule "frontend" "backend" None ] |}.

Definition null_protocols : Intent :=
  {| i_name := Some "x";
     i_namespace := Some (Is "default");
     i_rules := Some [ {| r_from := Some "frontend"; r_to := Some "backend";
                          r_ports := Some (Is [80%Z]);
                          r_protocols := Some PyNone;
                          r_namespace := Some (Is "default") |} ] |}.

Definition dns_intent : Intent :=
  {| i_name := None;
     i_namespace := None;
     i_rules := Some [ {| r_from := Some "frontend"; r_to := Some "resolver";
                          r_ports := Some (Is [53%Z]);
                          r_protocols := Some (Is ["UDP"; "TCP"]);
                          r_namespace := None |};
                       simple_rule "frontend" "backend" None ] |}.

(** The manifests returned for [intent] by a fresh generator, or [[]]
    when the call raises; and the manifest at position [n] of a list. *)
Definition run (intent : Intent) : list Manifest :=
  match fst (generate intent (fresh "2024-01-01T00:00:00")) with
  | inr out => out
  | inl _ => []
  end.

Definition blank : Manifest :=
  {| apiVersion := ""; kind := "";
     metadata := {| name := ""; namespace := PyNone;
                    labels := []; annotations := [] |};
     spec := {| podSelector := None; policyTypes := [];
                ingress := None; egress := None |} |}.

Definition at_position (n : nat) (out : list Manifest) : Manifest :=
  nth n out blank.

(** A manifest without its "generated-at" annotation, and the outcome of
    a call up to these annotations. *)
Definition without_stamp (m : Manifest) : Manifest :=
  {| apiVersion := apiVersion m;
     kind := kind m;
     metadata :=
       {| name := name (metadata m);
          namespace := namespace (metadata m);
          labels := labels (metadata m);
          annotations :=
            filter (fun kv => negb (String.eqb (fst kv) "generated-at"))
                   (annotations (metadata m)) |};
     spec := spec m |}.

Definition same_but_stamp (m1 m2 : Manifest) : Prop :=
  without_stamp m1 = without_stamp m2.

Definition modulo_stamps (r : result (list Manifest)) : result (list Manifest) :=
  match r with
  | inl e => inl e
  | inr out => inr (map without_stamp out)
  end.

(** The computation returns from every world, with a value in [P]. *)
Definition returns {A : Type} (P : A -> Prop) (m : M A) : Prop :=
  forall w, exists a w', m w = (inr a, w') /\ P a.

(** Two runs agree when they raise the same exception or return values
    related by [R], whatever the worlds they start from. *)
Definition outcomes {A : Type} (R : A -> A -> Prop) (r1 r2 : result A) : Prop :=
  match r1, r2 with
  | inl e1, inl e2 => e1 = e2
  | inr a1, inr a2 => R a1 a2
  | _, _ => False
  end.

Definition agree {A : Type} (R : A -> A -> Prop) (m1 m2 : M A) : Prop :=
  forall w1 w2, outcomes R (fst (m1 w1)) (fst (m2 w2)).

(* ================================================================= *)
(** ** Further vocabulary: metadata, egress manifests, failures *)

(** [d.get(k)] on a dictionary of strings kept as a list of pairs. *)
Fixpoint lookup (k : string) (kvs : list (string * string)) : option string :=
  match kvs with
  | [] => None
  | (k', v) :: rest => if String.eqb k' k then Some v else lookup k rest
  end.

Definition annotation (k : string) (m : Manifest) : option string :=
  lookup k (annotations (metadata m)).

Definition label (k : string) (m : Manifest) : option string :=
  lookup k (labels (metadata m)).

(** The egress manifests of [out] that target [s]. *)
Definition egress_manifests_from (s : string) (out : list Manifest)
  : list Manifest :=
  filter (fun m => is_egress m && targets s m) out.

(** The service a rule names under "from", resp. "to"; the empty string
    stands for a missing key. *)
Definition source_of (r : ServiceRule) : string := get (r_from r) "".

Definition dest_of (r : ServiceRule) : string := get (r_to r) "".

(** The computation raises [e] from every world; it raises nothing but
    [e]. *)
Definition fails {A : Type} (e : exn) (m : M A) : Prop :=
  forall w, fst (m w) = inl e.

Definition fails_only {A : Type} (e : exn) (m : M A) : Prop :=
  forall w, match fst (m w) with inl e' => e' = e | inr _ => True end.

(** The computation leaves [self.generated_policies] as it is. *)
Definition keeps {A : Type} (m : M A) : Prop :=
  forall w, generated_policies (snd (m w)) = generated_policies w.

(** The computation stores the list it returns in
    [self.generated_policies], and leaves the attribute as it is when it
    raises. *)
Definition stores (m : M (list Manifest)) : Prop :=
  forall w,
    match fst (m w) with
    | inr out => generated_policies (snd (m w)) = out
    | inl _ => generated_policies (snd (m w)) = generated_policies w
    end.

(* ================================================================= *)
(** ** Further vocabulary: messages of the validator *)

Definition missing_from_msg (i : nat) : string :=
  ("Rule " ++ str_of_nat i ++ ": Missing 'from' field")%string.

Definition missing_to_msg (i : nat) : string :=
  ("Rule " ++ str_of_nat i ++ ": Missing 'to' field")%string.

Definition same_endpoints_msg (i : nat) : string :=
  ("Rule " ++ str_of_nat i ++ ": Source and destination are the same")%string.

(** The rules of a list with their positions, counted from [i]. *)
Definition indexed_from (i : nat) (rules : list ServiceRule)
  : list (nat * ServiceRule) :=
  combine (seq i (List.length rules)) rules.

(** The number of elements of a list that pass a test. *)
Definition count_if {A : Type} (p : A -> bool) (l : list A) : nat :=
  List.length (filter p l).

(* ================================================================= *)
(** ** [backend/main.py]: the request models and the policy endpoints *)

(** [str(e)] for the two exceptions: the representation of the key for
    a [KeyError], the message for a [TypeError]. *)
Definition exn_str (e : exn) : string :=
  match e with
  | KeyError k => ("'" ++ k ++ "'")%string
  | TypeError msg => msg
  end.

(** [d[k] = v]: the value of an existing key is replaced in place, a new
    key goes to the end. *)
Fixpoint dict_set {V : Type} (k : string) (v : V) (d : list (string * V))
  : list (string * V) :=
  match d with
  | [] => [(k, v)]
  | (k', v') :: rest =>
      if String.eqb k' k then (k', v) :: rest
      else (k', v') :: dict_set k v rest
  end.

(** [d.get(k)], [None] when the key is missing; [k in d] is
    [contains (dict_get k d)]. *)
Fixpoint dict_get {V : Type} (k : string) (d : list (string * V)) : option V :=
  match d with
  | [] => None
  | (k', v) :: rest => if String.eqb k' k then Some v else dict_get k rest
  end.

Module Main.

(** The pydantic model [ServiceRule] (here [ServiceRuleModel], the name
    being taken by the rule dictionaries): an instance holds a value for
    every field. *)
Record ServiceRuleModel : Type := {
  from_service : string;
  to_service : string;
  ports : nullable (list Z);
  protocols : nullable (list string);
  namespace : nullable string
}.

(** The instance built from the fields a request gives: a field that is
    not given takes the default of the class, [None] for [ports],
    [["TCP"]] for [protocols], ["default"] for [namespace]. *)
Definition ServiceRuleModel_of (from_service to_service : string)
           (ports : option (nullable (list Z)))
           (protocols : option (nullable (list string)))
           (namespace : option (nullable string)) : ServiceRuleModel :=
  {| from_service := from_service;
     to_service := to_service;
     ports := get ports PyNone;
     protocols := get protocols (Is ["TCP"]);
     namespace := get namespace (Is "default") |}.

(** The pydantic model [Intent] (here [IntentModel]). *)
Record IntentModel : Type := {
  name : string;
  intent_namespace : nullable string;
  rules : list ServiceRuleModel;
  description : nullable string
}.

(** The dictionary that [generate_policies] builds for the generator. *)
Definition rule_dict (rule : ServiceRuleModel) : ServiceRule :=
  {| r_from := Some (from_service rule);
     r_to := Some (to_service rule);
     r_ports := Some (ports rule);
     r_protocols := Some (protocols rule);
     r_namespace := Some (namespace rule) |}.

Definition intent_dict (intent : IntentModel) : Intent :=
  {| i_name := Some (name intent);
     i_namespace := Some (intent_namespace intent);
     i_rules := Some (map rule_dict (rules intent)) |}.

(** An entry of [policies_store]. *)
Record StoredPolicy : Type := {
  sp_id : string;
  sp_name : string;
  sp_intent : Intent;
  sp_policies : list Manifest;
  sp_created_at : string;
  sp_deployed : bool;
  sp_namespace : nullable string
}.

(** The state of the module: the generator with the clock it reads, the
    successive values of [str(uuid.uuid4())[:8]], and [policies_store]. *)
Record Server : Type := {
  generator : World;
  uuids : nat -> string;
  policies_store : list (string * StoredPolicy)
}.

Record HTTPException : Type := {
  status_code : Z;
  detail : string
}.

(** The body of the answer of [generate_policies]. *)
Record Generated : Type := {
  success : bool;
  policy_id : string;
  policies_count : nat;
  policies : list Manifest;
  yaml : string
}.

Section Handlers.

(** [yaml.dump(policy, default_flow_style=False, sort_keys=False)]. *)
Variable dump : Manifest -> string.

(** [POST /api/v1/policies/generate]. *)
Definition generate_policies (intent : IntentModel) (s : Server)
  : (HTTPException + Generated) * Server :=
  let intent_dict := intent_dict intent in
  match generate intent_dict (generator s) with
  | (inl e, w) =>
      (inl {| status_code := 500; detail := exn_str e |},
       {| generator := w; uuids := uuids s;
          policies_store := policies_store s |})
  | (inr policies, w) =>
      let policy_id := uuids s 0 in
      match now_isoformat w with
      | (inl e, w') =>
          (inl {| status_code := 500; detail := exn_str e |},
           {| generator := w'; uuids := fun n => uuids s (S n);
              policies_store := policies_store s |})
      | (inr created_at, w') =>
          (inr {| success := true;
                  policy_id := policy_id;
                  policies_count := List.length policies;
                  policies := policies;
                  yaml := to_yaml dump policies |},
           {| generator := w';
              uuids := fun n => uuids s (S n);
              policies_store :=
                dict_set policy_id
                  {| sp_id := policy_id;
                     sp_name := name intent;
                     sp_intent := intent_dict;
                     sp_policies := policies;
                     sp_created_at := created_at;
                     sp_deployed := false;
                     sp_namespace := intent_namespace intent |}
                  (policies_store s) |})
      end
  end.

End Handlers.

(** [GET /api/v1/policies/{policy_id}]. *)
Definition get_policy (policy_id : string) (s : Server)
  : HTTPException + StoredPolicy :=
  match dict_get policy_id (policies_store s) with
  | None => inl {| status_code := 404; detail := "Policy not found" |}
  | Some p => inr p
  end.

(** [GET /api/v1/policies]: the stored entries and their number. *)
Definition list_policies (s : Server) : list StoredPolicy * nat :=
  (map snd (policies_store s), List.length (policies_store s)).

End Main.

(** The module-level function [generate_policies] of
    [policy_generator.py]: a call of [generate] on a generator made for
    the occasion. *)
Definition generate_policies (intent : Intent) (clock : nat -> string)
  : result (list Manifest) :=
  fst (generate intent {| clock := clock; generated_policies := [] |}).

(** A server that has stored nothing yet, whose generator is fresh and
    whose identifiers are all [id]; a request for the rule of scenario
    A, and one whose rule says [protocols: null]. *)
Definition sample_server (id : string) : Main.Server :=
  {| Main.generator := fresh "2024-01-01T00:00:00";
     Main.uuids := fun _ => id;
     Main.policies_store := [] |}.

Definition sample_request : Main.IntentModel :=
  {| Main.name := "x";
     Main.intent_namespace := Is "prod";
     Main.rules := [ Main.ServiceRuleModel_of "frontend" "backend"
                       (Some (Is [8080%Z])) None None ];
     Main.description := Is "" |}.

Definition null_request : Main.IntentModel :=
  {| Main.name := "x";
     Main.intent_namespace := Is "default";
     Main.rules := [ Main.ServiceRuleModel_of "frontend" "backend"
                       (Some (Is [80%Z])) (Some PyNone) None ];
     Main.description := Is "" |}.

(** A stand-in for [yaml.dump] in examples: the name of the manifest. *)
Definition sample_dump (m : Manifest) : string := name (metadata m).

(* ================================================================= *)
(** ** [generate_cilium_policy] *)

(** [str(p)] for an integer. *)
Definition str_of_Z (z : Z) : string := NilZero.string_of_int (Z.to_int z).

Section Cilium.

(** The values found under the key "l7_rules", which the generator
    copies as they are, and their truth value. *)
Variable L7 : Type.
Variable l7_truthy : L7 -> bool.

(** A rule dictionary that may have the key "l7_rules" besides the keys
    of [ServiceRule]. *)
Record L7Rule : Type := {
  base : ServiceRule;
  r_l7_rules : option L7
}.

(** The intent dictionary, with such rules.  The function reads the keys
    "namespace" and "rules" only. *)
Record L7Intent : Type := {
  l7_namespace : option (nullable string);
  l7_rules : option (list L7Rule)
}.

(** [{"port": str(p), "protocol": "TCP"}]. *)
Record CiliumPort : Type := {
  cp_port : string;
  cp_protocol : string
}.

(** [{"ports": [...], "rules": rule["l7_rules"]}]. *)
Record ToPorts : Type := {
  tp_ports : list CiliumPort;
  tp_rules : L7
}.

(** An element of [spec["ingress"]]: "fromEndpoints" holds the "app"
    label of each endpoint selector; [toPorts] is [None] when the key
    is missing. *)
Record CiliumIngress : Type := {
  fromEndpoints : list string;
  toPorts : option (list ToPorts)
}.

(** A CiliumNetworkPolicy: [endpointSelector] is the "app" label it
    matches. *)
Record CiliumPolicy : Type := {
  c_apiVersion : string;
  c_kind : string;
  c_name : string;
  c_namespace : nullable string;
  endpointSelector : string;
  c_ingress : list CiliumIngress
}.

(** [rule.get("l7_rules")] as a condition: a missing key is falsy. *)
Definition has_l7 (rule : L7Rule) : bool :=
  match r_l7_rules rule with
  | Some v => l7_truthy v
  | None => false
  end.

(** The body of the loop: the policy appended for [rule]. *)
Definition cilium_policy_of (namespace : nullable string) (rule : L7Rule)
  : result CiliumPolicy :=
  from <~ item "from" (r_from (base rule)) ;;
  to <~ item "to" (r_to (base rule)) ;;
  let ingress0 := {| fromEndpoints := [from]; toPorts := None |} in
  if has_l7 rule then
    ps <~ iter (get (r_ports (base rule)) (Is [80%Z])) ;;
    l7 <~ item "l7_rules" (r_l7_rules rule) ;;
    inr {| c_apiVersion := "cilium.io/v2";
           c_kind := "CiliumNetworkPolicy";
           c_name := ("cilium-" ++ from ++ "-to-" ++ to)%string;
           c_namespace := namespace;
           endpointSelector := to;
           c_ingress :=
             [ {| fromEndpoints := [from];
                  toPorts :=
                    Some [ {| tp_ports :=
                                map (fun p => {| cp_port := str_of_Z p;
                                                 cp_protocol := "TCP" |}) ps;
                              tp_rules := l7 |} ] |} ] |}
  else
    inr {| c_apiVersion := "cilium.io/v2";
           c_kind := "CiliumNetworkPolicy";
           c_name := ("cilium-" ++ from ++ "-to-" ++ to)%string;
           c_namespace := namespace;
           endpointSelector := to;
           c_ingress := [ingress0] |}.

Definition generate_cilium_policy (intent : L7Intent)
  : result (list CiliumPolicy) :=
  let namespace := get (l7_namespace intent) (Is "default") in
  rfor_each (cilium_policy_of namespace) (get (l7_rules intent) []).

(** The rule lets [generate_cilium_policy] go through: it has its two
    endpoints, and ports that can be iterated over when it has L7
    rules. *)
Definition cilium_ready (rule : L7Rule) : bool :=
  has_endpoints (base rule)
  && (negb (has_l7 rule)
      || match r_ports (base rule) with
         | Some PyNone => false
         | _ => true
         end).

(** The ports that a rule with L7 rules is given: its own, as strings
    with protocol TCP, or port 80 when it has no key "ports". *)
Definition cilium_ports (rule : L7Rule) : list CiliumPort :=
  match r_ports (base rule) with
  | Some (Is ps) =>
      map (fun p => {| cp_port := str_of_Z p; cp_protocol := "TCP" |}) ps
  | _ => [ {| cp_port := "80"; cp_protocol := "TCP" |} ]
  end.

End Cilium.

Arguments base {L7} _.
Arguments r_l7_rules {L7} _.
Arguments l7_namespace {L7} _.
Arguments l7_rules {L7} _.
Arguments tp_ports {L7} _.
Arguments tp_rules {L7} _.
Arguments fromEndpoints {L7} _.
Arguments toPorts {L7} _.
Arguments c_apiVersion {L7} _.
Arguments c_kind {L7} _.
Arguments c_name {L7} _.
Arguments c_namespace {L7} _.
Arguments endpointSelector {L7} _.
Arguments c_ingress {L7} _.
Arguments cilium_ports {L7} _.

(** An intent with one rule that has L7 rules (here a list of strings,
    true when not empty) and no ports, and one plain rule. *)
Definition l7_sample : L7Intent (list string) :=
  {| l7_namespace := Some (Is "prod");
     l7_rules :=
       Some [ {| base := simple_rule "frontend" "backend" None;
                 r_l7_rules := Some ["GET /api"] |};
              {| base := simple_rule "frontend" "backend" (Some (Is [8443%Z]));
                 r_l7_rules := None |} ] |}.

Definition nonempty (l : list string) : bool :=
  match l with [] => false | _ :: _ => true end.

(* ================================================================= *)
(** ** [backend/drift_detector.py] *)

Module Drift.

(** An instance of [DriftEvent]; [timestamp] is a [datetime], kept as
    the number of microseconds it stands for. *)
Record DriftEvent : Type := {
  id : string;
  event_type : string;
  source_pod : string;
  destination_pod : string;
  action : string;
  severity : string;
  details : string;
  namespace : string;
  timestamp : Z;
  acknowledged : bool;
  resolved : bool
}.

(** The dictionary that [to_dict] returns. *)
Record EventDict : Type := {
  d_id : string;
  d_event_type : string;
  d_source_pod : string;
  d_destination_pod : string;
  d_action : string;
  d_severity : string;
  d_details : string;
  d_namespace : string;
  d_timestamp : string;
  d_acknowledged : bool;
  d_resolved : bool
}.

(** The attributes of a [DriftDetector] that its methods read or
    write. *)
Record DriftDetector : Type := {
  events : list DriftEvent;
  allowed_connections : odict string;
  monitoring_enabled : bool
}.

(** What the methods draw from outside: the successive values of
    [datetime.now()] and of [random.randint(1000, 9999)]. *)
Record Env : Type := {
  readings : nat -> Z;
  draws : nat -> Z
}.

Definition skip_readings (n : nat) (env : Env) : Env :=
  {| readings := fun k => readings env (n + k); draws := draws env |}.



(** [DriftDetector()]. *)
Definition new_detector : DriftDetector :=
  {| events := []; allowed_connections := []; monitoring_enabled := true |}.

Definition status (self : DriftDetector) : string :=
  if monitoring_enabled self then "monitoring" else "disabled".



(** [register_allowed_connections], on manifests of the shape that the
    generator builds: a missing pod selector reads as "unknown", a
    missing "ingress" as the empty list. *)
Definition register_policy (acc : odict string) (policy : Manifest)
  : odict string :=
  if negb (String.eqb (kind policy) "NetworkPolicy") then acc
  else
    let target_app := get (podSelector (spec policy)) "unknown" in
    fold_left
      (fun acc ingress =>
         fold_left
           (fun acc from_rule =>
              append_at target_app (peer_app from_rule) acc)
           (peers ingress) acc)
      (get (ingress (spec policy)) []) acc.

Definition register_allowed_connections (policies : list Manifest)
           (self : DriftDetector) : DriftDetector :=
  {| events := events self;
     allowed_connections := fold_left register_policy policies [];
     monitoring_enabled := monitoring_enabled self |}.

(** [list.sort(key=lambda x: x.timestamp, reverse=True)]: newest first,
    events of equal time in their former order. *)
Fixpoint insert_newest (e : DriftEvent) (l : list DriftEvent)
  : list DriftEvent :=
  match l with
  | [] => [e]
  | y :: rest =>
      if Z.ltb (timestamp e) (timestamp y) then y :: insert_newest e rest
      else e :: l
  end.

Definition sort_newest_first (l : list DriftEvent) : list DriftEvent :=
  fold_right insert_newest [] l.

(** [l[:limit]]: a negative limit counts from the end. *)
Definition slice_to {A : Type} (limit : Z) (l : list A) : list A :=
  if Z.leb 0 limit then firstn (Z.to_nat limit) l
  else firstn (List.length l - Z.to_nat (- limit)) l.

(** The truth value of an optional string: [None] and [""] are falsy. *)
Definition given (s : option string) : bool :=
  match s with
  | Some (String _ _) => true
  | _ => false
  end.

(** The filter [e.field == wanted], applied when [wanted] is truthy. *)
Definition filter_by (field : DriftEvent -> string) (wanted : option string)
           (l : list DriftEvent) : list DriftEvent :=
  if given wanted
  then filter (fun e => String.eqb (field e) (get wanted "")) l
  else l.

Section Detector.

(** [datetime.strftime('%Y%m%d%H%M%S')] and [datetime.isoformat()]. *)
Variable strftime : Z -> string.
Variable isoformat : Z -> string.

(** [int(timeframe.replace("h", ""))], and [now - timedelta(hours=h)]
    for a reading [now] of the clock; [None] when they raise. *)
Variable hours_of : string -> option Z.
Variable hours_before : Z -> Z -> option Z.


Definition to_dict (e : DriftEvent) : EventDict :=
  {| d_id := id e; d_event_type := event_type e;
     d_source_pod := source_pod e; d_destination_pod := destination_pod e;
     d_action := action e; d_severity := severity e;
     d_details := details e; d_namespace := namespace e;
     d_timestamp := isoformat (timestamp e);
     d_acknowledged := acknowledged e; d_resolved := resolved e |}.


(** The events that [get_events] keeps, before it turns them into
    dictionaries; [None] when the time frame makes it raise. *)
Definition selected_events (limit : Z) (severity timeframe event_type
                                          : option string)
           (self : DriftDetector) (env : Env)
  : option (list DriftEvent) * Env :=
  let finish filtered :=
    let filtered := filter_by Drift.severity severity filtered in
    let filtered := filter_by Drift.event_type event_type filtered in
    slice_to limit (sort_newest_first filtered) in
  if given timeframe then
    match hours_of (get timeframe "") with
    | None => (None, env)
    | Some hours =>
        match hours_before (readings env 0) hours with
        | None => (None, skip_readings 1 env)
        | Some c =>
            (Some (finish (filter (fun e => Z.ltb c (timestamp e))
                                  (events self))),
             skip_readings 1 env)
        end
    end
  else (Some (finish (events self)), env).

Definition get_events (limit : Z) (severity timeframe event_type
                                     : option string)
           (self : DriftDetector) (env : Env)
  : option (list EventDict) * Env :=
  match selected_events limit severity timeframe event_type self env with
  | (Some l, env') => (Some (map to_dict l), env')
  | (None, env') => (None, env')
  end.

End Detector.

(** The loop of [acknowledge_event] and of [resolve_event]: [mark] is
    applied to the first event whose identifier is [event_id]. *)
Fixpoint mark_first (mark : DriftEvent -> DriftEvent) (event_id : string)
         (l : list DriftEvent) : bool * list DriftEvent :=
  match l with
  | [] => (false, [])
  | e :: rest =>
      if String.eqb (id e) event_id then (true, mark e :: rest)
      else let '(found, rest') := mark_first mark event_id rest in
           (found, e :: rest')
  end.

Definition set_acknowledged (e : DriftEvent) : DriftEvent :=
  {| id := id e; event_type := event_type e; source_pod := source_pod e;
     destination_pod := destination_pod e; action := action e;
     severity := severity e; details := details e; namespace := namespace e;
     timestamp := timestamp e; acknowledged := true; resolved := resolved e |}.

Definition set_resolved (e : DriftEvent) : DriftEvent :=
  {| id := id e; event_type := event_type e; source_pod := source_pod e;
     destination_pod := destination_pod e; action := action e;
     severity := severity e; details := details e; namespace := namespace e;
     timestamp := timestamp e; acknowledged := acknowledged e;
     resolved := true |}.

Definition acknowledge_event (event_id : string) (self : DriftDetector)
  : bool * DriftDetector :=
  let '(found, l) := mark_first set_acknowledged event_id (events self) in
  (found, {| events := l; allowed_connections := allowed_connections self;
             monitoring_enabled := monitoring_enabled self |}).

Definition resolve_event (event_id : string) (resolution : string)
           (self : DriftDetector) : bool * DriftDetector :=
  let '(found, l) := mark_first set_resolved event_id (events self) in
  (found, {| events := l; allowed_connections := allowed_connections self;
             monitoring_enabled := monitoring_enabled self |}).

(** [FalcoIntegration._map_falco_priority]: the table, with "medium"
    for a priority it does not hold. *)
Definition falco_table : list (string * string) :=
  [ ("EMERGENCY", "critical"); ("ALERT", "critical");
    ("CRITICAL", "critical"); ("ERROR", "high"); ("WARNING", "medium");
    ("NOTICE", "low"); ("INFORMATIONAL", "info"); ("DEBUG", "info") ].

Definition _map_falco_priority (priority : string) : string :=
  get (dict_get priority falco_table) "medium".

(** The keys of [DriftDetector.severity_levels]. *)
Definition severity_levels : list (string * Z) :=
  [ ("critical", 5%Z); ("high", 4%Z); ("medium", 3%Z); ("low", 2%Z);
    ("info", 1%Z) ].

End Drift.

(** A detector that holds three events, the second and third of equal
    time, and a clock for examples. *)
Definition sample_event (id severity : string) (t : Z) : Drift.DriftEvent :=
  {| Drift.id := id; Drift.event_type := "unauthorized_connection";
     Drift.source_pod := "frontend-1"; Drift.destination_pod := "database-1";
     Drift.action := "blocked"; Drift.severity := severity;
     Drift.details := ""; Drift.namespace := "default";
     Drift.timestamp := t; Drift.acknowledged := false;
     Drift.resolved := false |}.

Definition sample_detector : Drift.DriftDetector :=
  {| Drift.events := [ sample_event "drift-1" "high" 10;
                       sample_event "drift-2" "low" 30;
                       sample_event "drift-2" "high" 30 ];
     Drift.allowed_connections := [];
     Drift.monitoring_enabled := true |}.

Definition sample_env : Drift.Env :=
  {| Drift.readings := fun _ => 100%Z; Drift.draws := fun _ => 1000%Z |}.

(** Stand-ins for the conversions of the library in examples. *)
Definition sample_hours_of (s : string) : option Z :=
  match s with
  | "1" => Some 1%Z
  | _ => None
  end.

Definition sample_hours_before (now hours : Z) : option Z :=
  Some (now - hours * 3600000000)%Z.

(** [a] is not older than [b]. *)
Definition newer_or_equal (a b : Drift.DriftEvent) : Prop :=
  (Drift.timestamp b <= Drift.timestamp a)%Z.

(* ================================================================= *)
(** ** [DriftDetector.analyze] *)

Module DriftAnalysis.

Record Recommendation : Type := {
  priority : string;
  action : string;
  details : string
}.

Record Indicator : Type := {
  indicator : string;
  i_severity : string;
  description : string
}.

(** The dictionary that [analyze] returns; the four tallies are
    dictionaries from strings to counts, in insertion order. *)
Record Analysis : Type := {
  a_timestamp : string;
  total_events : nat;
  events_by_severity : list (string * nat);
  events_by_type : list (string * nat);
  top_sources : list (string * nat);
  top_destinations : list (string * nat);
  recommendations : list Recommendation;
  risk_indicators : list Indicator
}.

(** [d[k] += 1] on a [defaultdict(int)]. *)
Fixpoint bump (k : string) (d : list (string * nat)) : list (string * nat) :=
  match d with
  | [] => [(k, 1)]
  | (k', n) :: rest =>
      if String.eqb k' k then (k', S n) :: rest else (k', n) :: bump k rest
  end.

(** The tally of a field over the events, as the loop builds it. *)
Definition tally (field : Drift.DriftEvent -> string)
           (l : list Drift.DriftEvent) : list (string * nat) :=
  fold_left (fun d e => bump (field e) d) l [].

(** [sorted(d.items(), key=lambda x: x[1], reverse=True)]: greatest
    count first, items of equal count in their former order. *)
Fixpoint insert_by_count (x : string * nat) (l : list (string * nat))
  : list (string * nat) :=
  match l with
  | [] => [x]
  | y :: rest =>
      if Nat.ltb (snd x) (snd y) then y :: insert_by_count x rest
      else x :: l
  end.

Definition sort_by_count (l : list (string * nat)) : list (string * nat) :=
  fold_right insert_by_count [] l.

(** [dict(sorted(...)[:10])]. *)
Definition top10 (d : list (string * nat)) : list (string * nat) :=
  firstn 10 (sort_by_count d).

(** [d.get(k, 0)]. *)
Definition count_of (k : string) (d : list (string * nat)) : nat :=
  get (dict_get k d) 0.

(** The events that [analyze] calls recent for a reading [now] of the
    clock: those later than [now - timedelta(hours=24)], a [datetime]
    being a number of microseconds. *)
Definition recent_events (now : Z) (l : list Drift.DriftEvent)
  : list Drift.DriftEvent :=
  filter (fun e => Z.ltb (now - 86400000000) (Drift.timestamp e)) l.

Section Analyze.

(** [datetime.isoformat()]. *)
Variable isoformat : Z -> string.

Definition analyze (self : Drift.DriftDetector) (env : Drift.Env)
  : Analysis * Drift.Env :=
  let stamp := isoformat (Drift.readings env 0) in
  let total := List.length (Drift.events self) in
  let recent := recent_events (Drift.readings env 1) (Drift.events self) in
  let by_severity := tally Drift.severity recent in
  let by_type := tally Drift.event_type recent in
  let sources := top10 (tally Drift.source_pod recent) in
  let destinations := top10 (tally Drift.destination_pod recent) in
  let recs1 :=
    if Nat.ltb 0 (count_of "critical" by_severity) then
      [ {| priority := "high";
           action := "Investigate critical drift events immediately";
           details := (str_of_nat (count_of "critical" by_severity)
                         ++ " critical events detected")%string |} ]
    else [] in
  let recs2 :=
    if Nat.ltb 10 (count_of "unauthorized_connection" by_type) then
      [ {| priority := "medium";
           action := "Review and update NetworkPolicies";
           details := "High volume of unauthorized connection attempts detected" |} ]
    else [] in
  let indicators :=
    if Nat.ltb 100 (List.length recent) then
      [ {| indicator := "high_event_volume";
           i_severity := "medium";
           description := "Unusually high number of drift events" |} ]
    else [] in
  ({| a_timestamp := stamp;
      total_events := total;
      events_by_severity := by_severity;
      events_by_type := by_type;
      top_sources := sources;
      top_destinations := destinations;
      recommendations := recs1 ++ recs2;
      risk_indicators := indicators |},
   Drift.skip_readings 2 env).

End Analyze.

End DriftAnalysis.

(** The number of events of a list whose field has a given value. *)
Definition events_with (field : Drift.DriftEvent -> string) (k : string)
           (l : list Drift.DriftEvent) : nat :=
  count_if (fun e => String.eqb (field e) k) l.

(* ================================================================= *)
(** ** Vocabulary for the events of the detector *)

(** The value [v] of a field is the one asked for; nothing is asked for
    by [None] and by the empty string. *)
Definition asked (wanted : option string) (v : string) : bool :=
  match wanted with
  | Some (String c s) => String.eqb v (String c s)
  | _ => true
  end.

(** The time that a time frame stands for when the clock reads [now]:
    that many hours before [now]; [None] when there is no time frame or
    when it cannot be read as a number of hours. *)
Definition cutoff_of (hours_of : string -> option Z)
           (hours_before : Z -> Z -> option Z)
           (timeframe : option string) (now : Z) : option Z :=
  match timeframe with
  | Some (String c s) =>
      match hours_of (String c s) with
      | Some hours => hours_before now hours
      | None => None
      end
  | _ => None
  end.

(** The event is later than the cutoff, when there is one. *)
Definition later_than (cutoff : option Z) (e : Drift.DriftEvent) : bool :=
  match cutoff with
  | Some c => Z.gtb (Drift.timestamp e) c
  | None => true
  end.

(** The events that are asked for by a severity, an event type and a
    cutoff, in the order of the list. *)
Definition events_asked_for (severity event_type : option string)
           (cutoff : option Z) (l : list Drift.DriftEvent)
  : list Drift.DriftEvent :=
  filter (fun e => asked severity (Drift.severity e)
                   && asked event_type (Drift.event_type e)
                   && later_than cutoff e) l.

(** Two events that differ at most in their flags [acknowledged] and
    [resolved]. *)
Definition same_but_flags (a b : Drift.DriftEvent) : Prop :=
  Drift.id a = Drift.id b /\
  Drift.event_type a = Drift.event_type b /\
  Drift.source_pod a = Drift.source_pod b /\
  Drift.destination_pod a = Drift.destination_pod b /\
  Drift.action a = Drift.action b /\
  Drift.severity a = Drift.severity b /\
  Drift.details a = Drift.details b /\
  Drift.namespace a = Drift.namespace b /\
  Drift.timestamp a = Drift.timestamp b.

(** The events of the last 24 hours when the clock reads [now]: those
    whose age is below 24 hours, times being numbers of microseconds. *)
Definition microseconds_per_hour : Z := 60 * 60 * 1000000.

Definition last_24_hours (now : Z) (l : list Drift.DriftEvent)
  : list Drift.DriftEvent :=
  filter (fun e => Z.ltb (now - Drift.timestamp e)
                         (24 * microseconds_per_hour)) l.

(* ================================================================= *)
(** ** Equality of values that are strings or [None] *)

Lemma str_eqb_eq (a b : nullable string) : str_eqb a b = true <-> a = b.
Proof.
  destruct a as [|x], b as [|y]; simpl; split; intro H;
    try reflexivity; try discriminate.
  - apply String.eqb_eq in H. now subst.
  - inversion H. apply String.eqb_refl.
Qed.

Lemma str_eqb_neq (a b : nullable string) : str_eqb a b = false <-> a <> b.
Proof.
  split; intro H.
  - intro E. apply str_eqb_eq in E. congruence.
  - destruct (str_eqb a b) eqn:E; [|reflexivity].
    apply str_eqb_eq in E. contradiction.
Qed.

(* ================================================================= *)
(** ** Properties of the validator *)

(** C8.  An intent without the "rules" key is invalid, and the list of
    errors holds exactly one entry, the one that names the missing
    field. *)
Theorem validate_missing_rules (intent : Intent) :
  i_rules intent = None ->
  valid (validate_intent intent) = false /\
  errors (validate_intent intent) = ["Missing 'rules' field in intent"].
Proof.
  intro H. unfold validate_intent, rules_falsy. rewrite H. simpl. auto.
Qed.

Lemma validate_missing_rules_witness :
  let intent := {| i_name := Some "x"; i_namespace := None; i_rules := None |} in
  valid (validate_intent intent) = false /\
  errors (validate_intent intent) = ["Missing 'rules' field in intent"].
Proof.
  apply validate_missing_rules. reflexivity.
Defined.

(** C10.  An intent without the "rules" key also receives the empty-rules
    warning: the warning is guarded by the falsity of
    [intent.get("rules")], which holds for a missing key as for an empty
    list. *)
Theorem validate_missing_rules_warns (intent : Intent) :
  i_rules intent = None ->
  warnings (validate_intent intent) = ["No rules defined in intent"] /\
  In "Missing 'rules' field in intent" (errors (validate_intent intent)).
Proof.
  intro H. unfold validate_intent, rules_falsy. rewrite H. simpl. auto.
Qed.

Lemma validate_missing_rules_warns_witness :
  let intent := {| i_name := None; i_namespace := Some (Is "prod");
                   i_rules := None |} in
  warnings (validate_intent intent) = ["No rules defined in intent"] /\
  In "Missing 'rules' field in intent" (errors (validate_intent intent)).
Proof.
  apply validate_missing_rules_warns. reflexivity.
Defined.

(* ================================================================= *)
(** ** First-seen order and grouping *)

Section FirstSeen.

Lemma first_seen_In (x : string) (l : list string) :
  In x (first_seen l) <-> In x l.
Proof.
  induction l as [|y l IH]; simpl; [tauto|].
  rewrite filter_In, IH. split.
  - intros [H | [H _]]; auto.
  - intros [H | H]; auto.
    destruct (String.eqb_spec x y) as [E | E]; [left; congruence|].
    right. split; [assumption | reflexivity].
Qed.

Lemma first_seen_NoDup (l : list string) : NoDup (first_seen l).
Proof.
  induction l as [|y l IH]; simpl; constructor.
  - rewrite filter_In. intros [_ H].
    rewrite String.eqb_refl in H. discriminate.
  - now apply NoDup_filter.
Qed.

Lemma first_seen_snoc (l : list string) (k : string) :
  first_seen (l ++ [k]) =
  if existsb (String.eqb k) l then first_seen l else first_seen l ++ [k].
Proof.
  induction l as [|x l IH]; simpl; [reflexivity|].
  rewrite IH. destruct (String.eqb_spec k x) as [E | E]; simpl.
  - subst. destruct (existsb (String.eqb x) l); [reflexivity|].
    rewrite filter_app. simpl. rewrite String.eqb_refl. simpl.
    now rewrite app_nil_r.
  - destruct (existsb (String.eqb k) l); [reflexivity|].
    rewrite filter_app. simpl.
    apply String.eqb_neq in E. rewrite E. reflexivity.
Qed.

Lemma first_seen_of_NoDup (l : list string) :
  NoDup l -> first_seen l = l.
Proof.
  induction 1 as [|x l Hx Hl IH]; simpl; [reflexivity|].
  rewrite IH. f_equal.
  apply forallb_filter_id. apply forallb_forall. intros y Hy.
  apply negb_true_iff, String.eqb_neq. intros ->. contradiction.
Qed.

Lemma existsb_eqb_In (k : string) (l : list string) :
  existsb (String.eqb k) l = true <-> In k l.
Proof.
  rewrite existsb_exists. split.
  - intros (x & Hx & E). apply String.eqb_eq in E. now subst.
  - intros H. exists k. split; [assumption | apply String.eqb_refl].
Qed.

End FirstSeen.

Section Grouping.

Context {B : Type}.
Implicit Types (kvs : list (string * B)) (k : string) (v : B).

Lemma values_of_snoc k' kvs k v :
  values_of k' (kvs ++ [(k, v)]) =
  values_of k' kvs ++ (if String.eqb k k' then [v] else []).
Proof.
  unfold values_of. rewrite filter_app, map_app. simpl.
  now destruct (String.eqb k k').
Qed.

Lemma values_of_absent k kvs :
  ~ In k (map fst kvs) -> values_of k kvs = [].
Proof.
  unfold values_of. induction kvs as [|[k' v] kvs IH]; simpl; intro H;
    [reflexivity|].
  destruct (String.eqb_spec k' k) as [E | E]; [exfalso; auto|].
  apply IH. tauto.
Qed.

(** [append_at] on a key that the dictionary does not hold yet. *)
Lemma append_at_new k v (g : string -> list B) (ks : list string) :
  ~ In k ks ->
  append_at k v (map (fun k' => (k', g k')) ks) =
  map (fun k' => (k', g k')) ks ++ [(k, [v])].
Proof.
  induction ks as [|k0 ks IH]; simpl; intro H; [reflexivity|].
  destruct (String.eqb_spec k k0) as [E | E]; [exfalso; auto|].
  rewrite IH by tauto. reflexivity.
Qed.

(** [append_at] on a key that the dictionary holds. *)
Lemma append_at_old k v (g : string -> list B) (ks : list string) :
  NoDup ks -> In k ks ->
  append_at k v (map (fun k' => (k', g k')) ks) =
  map (fun k' => (k', g k' ++ (if String.eqb k k' then [v] else []))) ks.
Proof.
  induction 1 as [|k0 ks Hk0 Hks IH]; simpl; intro H; [contradiction|].
  destruct (String.eqb_spec k k0) as [E | E].
  - subst k0. f_equal. apply map_ext_in. intros k' Hk'.
    destruct (String.eqb_spec k k') as [E' | _];
      [subst; contradiction | now rewrite app_nil_r].
  - rewrite app_nil_r. f_equal. apply IH. destruct H; congruence.
Qed.

(** One more pair filed by [append_at] is one more pair grouped. *)
Lemma append_at_grouped k v kvs :
  append_at k v (grouped kvs) = grouped (kvs ++ [(k, v)]).
Proof.
  unfold grouped. rewrite map_app. simpl. rewrite first_seen_snoc.
  destruct (existsb (String.eqb k) (map fst kvs)) eqn:E.
  - apply existsb_eqb_In in E.
    rewrite append_at_old
      by (apply first_seen_NoDup || now apply first_seen_In).
    apply map_ext. intro k'. now rewrite values_of_snoc.
  - assert (H : ~ In k (map fst kvs)).
    { intro H. apply existsb_eqb_In in H. congruence. }
    rewrite append_at_new by (now rewrite first_seen_In).
    rewrite map_app. simpl. f_equal.
    + apply map_ext_in. intros k' Hk'. rewrite values_of_snoc.
      destruct (String.eqb_spec k k') as [E' | _];
        [|now rewrite app_nil_r].
      subst k'. apply -> first_seen_In in Hk'. contradiction.
    + rewrite values_of_snoc, String.eqb_refl, values_of_absent by assumption.
      reflexivity.
Qed.

(** The grouping loop computes [grouped] of the pairs it is given. *)
Lemma group_into_grouped {A : Type} (entry : A -> result (string * B))
      (l : list A) kvs0 :
  group_into entry l (grouped kvs0) =
  match rfor_each entry l with
  | inl e => inl e
  | inr kvs => inr (grouped (kvs0 ++ kvs))
  end.
Proof.
  revert kvs0. induction l as [|x l IH]; simpl; intro kvs0.
  - now rewrite app_nil_r.
  - destruct (entry x) as [e | [k v]]; simpl; [reflexivity|].
    rewrite append_at_grouped, IH.
    destruct (rfor_each entry l) as [e | kvs]; simpl; [reflexivity|].
    now rewrite <- app_assoc.
Qed.

End Grouping.

(* ================================================================= *)
(** ** Running computations *)

Lemma bind_inr {A B : Type} (m : M A) (k : A -> M B) (w w' : World) (b : B) :
  bind m k w = (inr b, w') ->
  exists a w1, m w = (inr a, w1) /\ k a w1 = (inr b, w').
Proof.
  unfold bind. destruct (m w) as [[e | a] w1]; intro H.
  - discriminate.
  - now exists a, w1.
Qed.

Lemma lift_inr {A : Type} (r : result A) (w w' : World) (a : A) :
  lift r w = (inr a, w') -> r = inr a /\ w' = w.
Proof. unfold lift. intro H. now inversion H. Qed.

Lemma ret_inr {C : Type} (x a : C) (w w' : World) :
  ret x w = (inr a, w') -> a = x /\ w' = w.
Proof. unfold ret. intro H. now inversion H. Qed.

Lemma rbind_inr {A B : Type} (r : result A) (k : A -> result B) (b : B) :
  rbind r k = inr b -> exists a, r = inr a /\ k a = inr b.
Proof.
  destruct r as [e | a]; simpl; intro H; [discriminate | now exists a].
Qed.

Lemma for_each_inr {A B : Type} (body : A -> M B) (l : list A) :
  forall w ys w',
    for_each body l w = (inr ys, w') ->
    Forall2 (fun x y => exists w1 w2, body x w1 = (inr y, w2)) l ys.
Proof.
  induction l as [|x l IH]; simpl; intros w ys w' H.
  - apply ret_inr in H. destruct H as [-> _]. constructor.
  - apply bind_inr in H. destruct H as (y & w1 & Hy & H).
    apply bind_inr in H. destruct H as (ys' & w2 & Hys & H).
    apply ret_inr in H. destruct H as [-> _].
    constructor; [now exists w, w1 | now apply IH with w1 w2].
Qed.

Lemma rfor_each_inr {A B : Type} (f : A -> result B) (l : list A) (ys : list B) :
  rfor_each f l = inr ys <-> Forall2 (fun x y => f x = inr y) l ys.
Proof.
  revert ys. induction l as [|x l IH]; simpl; intro ys.
  - split; intro H; inversion H; constructor.
  - split; intro H.
    + destruct (f x) as [e | y] eqn:Hy; simpl in H; [discriminate|].
      destruct (rfor_each f l) as [e | ys'] eqn:Hys; simpl in H;
        [discriminate|].
      inversion H. subst. constructor; [assumption | now apply IH].
    + inversion H as [|? y ? ys' Hy Hys]. subst.
      rewrite Hy. simpl. apply IH in Hys. now rewrite Hys.
Qed.

Lemma Forall2_map_left {A B C : Type} (R : B -> C -> Prop) (f : A -> B)
      (l : list A) (l' : list C) :
  Forall2 R (map f l) l' <-> Forall2 (fun x => R (f x)) l l'.
Proof.
  revert l'. induction l as [|x l IH]; simpl; intro l'.
  - split; intro H; inversion H; constructor.
  - split; intro H; inversion H; subst; constructor;
      try assumption; now apply IH.
Qed.

Lemma group_into_empty {A B : Type} (entry : A -> result (string * B))
      (l : list A) :
  group_into entry l [] =
  match rfor_each entry l with
  | inl e => inl e
  | inr kvs => inr (grouped kvs)
  end.
Proof. exact (group_into_grouped entry l []). Qed.

(** Inversion of a successful run, one sequencing step at a time. *)
Ltac step_run :=
  match goal with
  | H : bind _ _ _ = (inr _, _) |- _ =>
      apply bind_inr in H; destruct H as (? & ? & ? & H)
  | H : lift _ _ = (inr _, _) |- _ =>
      apply lift_inr in H; destruct H as [H ?]; subst
  | H : ret _ _ = (inr _, _) |- _ =>
      apply ret_inr in H; destruct H as [? ?]; subst
  end.

(* ================================================================= *)
(** ** What the loops of [generate] compute *)

Lemma dest_entries_spec (rules : list ServiceRule) :
  forall kvs,
    rfor_each dest_entry rules = inr kvs ->
    map fst kvs = dests_of rules /\
    forall d, values_of d kvs = rules_to d rules.
Proof.
  unfold values_of, rules_to, to_is.
  induction rules as [|r rules IH]; simpl; intros kvs H.
  - inversion H. simpl. auto.
  - unfold dest_entry at 1 in H. destruct (r_to r) as [t|]; simpl in H;
      [|discriminate].
    destruct (rfor_each dest_entry rules) as [e | kvs'] eqn:E; simpl in H;
      [discriminate|].
    inversion H. subst. simpl. destruct (IH kvs' eq_refl) as [IH1 IH2].
    split; [now rewrite IH1|].
    intro d. destruct (String.eqb t d); simpl; now rewrite IH2.
Qed.

Lemma egress_entries_spec (rules : list ServiceRule) :
  forall kvs,
    rfor_each egress_entry rules = inr kvs ->
    map fst kvs = sources_of rules /\
    forall s, values_of s kvs = egress_dests (rules_from s rules).
Proof.
  unfold values_of, rules_from, from_is.
  induction rules as [|r rules IH]; simpl; intros kvs H.
  - inversion H. simpl. auto.
  - unfold egress_entry at 1 in H.
    destruct (r_from r) as [f|]; simpl in H; [|discriminate].
    destruct (r_to r) as [t|] eqn:Ht; simpl in H; [|discriminate].
    destruct (rfor_each egress_entry rules) as [e | kvs'] eqn:E; simpl in H;
      [discriminate|].
    inversion H. subst. simpl. destruct (IH kvs' eq_refl) as [IH1 IH2].
    split; [now rewrite IH1|].
    intro s. destruct (String.eqb f s); simpl; rewrite ?Ht; simpl;
      now rewrite IH2.
Qed.

Lemma egress_entries_total (rules : list ServiceRule) :
  forall kvs,
    rfor_each egress_entry rules = inr kvs ->
    forallb has_endpoints rules = true.
Proof.
  induction rules as [|r rules IH]; simpl; intros kvs H; [reflexivity|].
  unfold egress_entry at 1 in H. unfold has_endpoints at 1.
  destruct (r_from r); simpl in *; [|discriminate].
  destruct (r_to r); simpl in *; [|discriminate].
  destruct (rfor_each egress_entry rules) as [e | kvs']; simpl in H;
    [discriminate|].
  now apply IH with kvs'.
Qed.

Lemma default_deny_inv (ns : nullable string) (w w' : World) (m : Manifest) :
  _generate_default_deny ns w = (inr m, w') ->
  spec m = {| podSelector := None; policyTypes := ["Ingress"; "Egress"];
              ingress := None; egress := None |} /\
  namespace (metadata m) = ns.
Proof.
  unfold _generate_default_deny. intro H. repeat step_run. auto.
Qed.

Lemma ingress_policy_inv (d : string) (rules : list ServiceRule)
      (ns : nullable string) (nm : string) (w w' : World) (m : Manifest) :
  _generate_ingress_policy d rules ns nm w = (inr m, w') ->
  exists es,
    rfor_each (ingress_rule_of ns) rules = inr es /\
    spec m = {| podSelector := Some d; policyTypes := ["Ingress"];
                ingress := Some es; egress := None |} /\
    namespace (metadata m) = ns.
Proof.
  unfold _generate_ingress_policy. intro H. repeat step_run.
  eexists. split; [eassumption|]. auto.
Qed.

Lemma egress_policy_inv (s : string) (dests : list EgressDest)
      (ns : nullable string) (nm : string) (w w' : World) (m : Manifest) :
  _generate_egress_policy s dests ns nm w = (inr m, w') ->
  exists es,
    rfor_each (egress_rule_of ns) dests = inr es /\
    spec m = {| podSelector := Some s; policyTypes := ["Egress"];
                ingress := None; egress := Some (es ++ [dns_rule]) |} /\
    namespace (metadata m) = ns.
Proof.
  unfold _generate_egress_policy. intro H. repeat step_run.
  eexists. split; [eassumption|]. auto.
Qed.

(** The shape of every list of manifests that [generate] returns. *)
Lemma generate_shape (intent : Intent) (w w' : World) (out : list Manifest) :
  generate intent w = (inr out, w') ->
  exists deny ing eg,
    out = deny :: ing ++ eg /\
    (spec deny = {| podSelector := None; policyTypes := ["Ingress"; "Egress"];
                    ingress := None; egress := None |} /\
     namespace (metadata deny) = policy_namespace intent) /\
    Forall2 (ingress_policy_for intent)
            (first_seen (dests_of (rules_of intent))) ing /\
    Forall2 (egress_policy_for intent)
            (first_seen (sources_of (rules_of intent))) eg /\
    forallb has_endpoints (rules_of intent) = true.
Proof.
  unfold generate. cbv zeta. intro H.
  fold (rules_of intent) (policy_namespace intent) in H.
  repeat step_run.
  match goal with H : _generate_default_deny _ _ = _ |- _ =>
    apply default_deny_inv in H end.
  unfold _extract_egress_rules in *.
  repeat match goal with H : group_into _ _ [] = inr _ |- _ =>
    rewrite group_into_empty in H end.
  destruct (rfor_each dest_entry (rules_of intent)) as [e | dkvs] eqn:Hd;
    [discriminate|].
  destruct (rfor_each egress_entry (rules_of intent)) as [e | skvs] eqn:Hs;
    [discriminate|].
  apply dest_entries_spec in Hd. destruct Hd as [Hdk Hdv].
  pose proof (egress_entries_total _ Hs) as Hends.
  apply egress_entries_spec in Hs. destruct Hs as [Hsk Hsv].
  repeat match goal with H : inr _ = inr _ |- _ =>
    inversion H; clear H; subst end.
  repeat match goal with H : for_each _ _ _ = _ |- _ =>
    apply for_each_inr in H; unfold grouped in H;
    apply Forall2_map_left in H end.
  rewrite Hdk, Hsk in *.
  match goal with H : Forall2 _ (first_seen (dests_of _)) ?l |- _ =>
    rename H into Hing; set (ing := l) in * end.
  match goal with H : Forall2 _ (first_seen (sources_of _)) ?l |- _ =>
    rename H into Heg; set (eg := l) in * end.
  match goal with H : spec ?m = _ /\ _ |- _ => exists m, ing, eg end.
  split; [reflexivity|]. split; [assumption|]. split; [|split; [|assumption]].
  - revert Hing. apply Forall2_impl.
    intros d m (w1 & w2 & Hm). apply ingress_policy_inv in Hm.
    unfold ingress_policy_for. now rewrite <- Hdv.
  - revert Heg. apply Forall2_impl.
    intros s m (w1 & w2 & Hm). apply egress_policy_inv in Hm.
    unfold egress_policy_for. now rewrite <- Hsv.
Qed.

(* ================================================================= *)
(** ** Rule entries *)

Lemma expand_ports_spec (ps : list Z) (protos : list string) :
  forall acc,
    expand_ports ps (Is protos) acc = inr (acc ++ cartesian ps protos).
Proof.
  induction ps as [|p ps IH]; simpl; intro acc.
  - now rewrite app_nil_r.
  - rewrite IH. now rewrite <- app_assoc.
Qed.

(** The two branches of [if ports:], shared by the ingress and the
    egress loops. *)
Lemma port_loop_spec (r : ServiceRule) :
  match get_none (r_ports r) with
  | Is (p :: ps) =>
      forall specs,
        expand_ports (p :: ps) (get (r_protocols r) (Is ["TCP"])) []
        = inr specs ->
        spec_port_list r = Some specs
  | _ => spec_port_list r = None
  end.
Proof.
  unfold spec_port_list, declared_protocols, get_none, get.
  destruct (r_ports r) as [[|[|p ps]]|]; try reflexivity.
  intros specs H.
  destruct (r_protocols r) as [[|protos]|].
  - discriminate.
  - rewrite expand_ports_spec in H. now inversion H.
  - rewrite expand_ports_spec in H. now inversion H.
Qed.

Lemma ingress_rule_inv (ns : nullable string) (r : ServiceRule) (e : RuleEntry) :
  ingress_rule_of ns r = inr e ->
  exists f,
    r_from r = Some f /\
    peers e = [selector_of f (get (r_namespace r) ns) ns] /\
    ports e = spec_port_list r.
Proof.
  unfold ingress_rule_of. intro H.
  destruct (r_from r) as [f|]; simpl in H; [|discriminate].
  exists f. split; [reflexivity|].
  pose proof (port_loop_spec r) as P.
  destruct (get_none (r_ports r)) as [|[|p ps]];
    cbn [truthy iter rbind] in H.
  - inversion H. simpl. auto.
  - inversion H. simpl. auto.
  - destruct (expand_ports (p :: ps) _ []) as [x | specs] eqn:E;
      cbn [rbind] in H; [discriminate|].
    inversion H. simpl. split; [reflexivity|]. symmetry. now apply P.
Qed.

Lemma egress_rule_inv (ns : nullable string) (t : string) (r : ServiceRule)
      (e : RuleEntry) :
  egress_rule_of ns (egress_dest t r) = inr e ->
  peers e = [selector_of t (get (r_namespace r) (Is "default")) ns] /\
  ports e = spec_port_list r.
Proof.
  unfold egress_rule_of, egress_dest.
  cbn [d_to d_ports d_protocols d_namespace item get rbind]. intro H.
  fold (get_none (r_ports r)) in H.
  pose proof (port_loop_spec r) as P.
  destruct (get_none (r_ports r)) as [|[|p ps]];
    cbn [truthy iter rbind] in H.
  - inversion H. simpl. auto.
  - inversion H. simpl. auto.
  - destruct (expand_ports (p :: ps) _ []) as [x | specs] eqn:E;
      cbn [rbind] in H; [discriminate|].
    inversion H. simpl. split; [reflexivity|]. symmetry. now apply P.
Qed.

Lemma ingress_rules_inv (ns : nullable string) (rs : list ServiceRule) :
  forall es,
    rfor_each (ingress_rule_of ns) rs = inr es ->
    map ports es = map spec_port_list rs /\
    peer_names es = sources_of rs.
Proof.
  unfold peer_names.
  induction rs as [|r rs IH]; simpl; intros es H.
  - inversion H. auto.
  - destruct (ingress_rule_of ns r) as [x | e] eqn:E; simpl in H;
      [discriminate|].
    destruct (rfor_each (ingress_rule_of ns) rs) as [x | es'] eqn:Es;
      simpl in H; [discriminate|].
    inversion H. subst. apply ingress_rule_inv in E.
    destruct E as (f & Hf & Hp & Hports).
    destruct (IH es' eq_refl) as [IH1 IH2].
    simpl. rewrite Hf, Hp, Hports, IH1. simpl. now rewrite IH2.
Qed.

Lemma egress_rules_inv (ns : nullable string) (rs : list ServiceRule) :
  forall es,
    forallb has_endpoints rs = true ->
    rfor_each (egress_rule_of ns) (egress_dests rs) = inr es ->
    map ports es = map spec_port_list rs /\
    peer_names es = dests_of rs /\
    filter has_no_peer es = [].
Proof.
  unfold peer_names, has_endpoints.
  induction rs as [|r rs IH]; simpl; intros es Hall H.
  - inversion H. auto.
  - apply andb_true_iff in Hall. destruct Hall as [Hr Hall].
    destruct (r_to r) as [t|]; [|now rewrite andb_false_r in Hr].
    simpl in H.
    destruct (egress_rule_of ns (egress_dest t r)) as [x | e] eqn:E;
      simpl in H; [discriminate|].
    destruct (rfor_each (egress_rule_of ns) (egress_dests rs))
      as [x | es'] eqn:Es; simpl in H; [discriminate|].
    inversion H. subst. apply egress_rule_inv in E.
    destruct E as [Hp Hports].
    destruct (IH es' Hall eq_refl) as (IH1 & IH2 & IH3).
    simpl. unfold has_no_peer at 1. rewrite Hp, Hports, IH1. simpl.
    now rewrite IH2, IH3.
Qed.

(* ================================================================= *)
(** ** Members of the output *)

Lemma Forall2_In_right {A B : Type} (R : A -> B -> Prop)
      (l : list A) (l' : list B) (y : B) :
  Forall2 R l l' -> In y l' -> exists x, In x l /\ R x y.
Proof.
  induction 1 as [|x y' l l' Hxy _ IH]; simpl; intro H; [contradiction|].
  destruct H as [-> | H].
  - exists x. auto.
  - destruct (IH H) as (x' & Hx' & HR). exists x'. auto.
Qed.

(** Every manifest of the output is the default-deny manifest, the
    ingress manifest of a destination or the egress manifest of a
    source. *)
Lemma generate_member (intent : Intent) (w w' : World) (out : list Manifest)
      (m : Manifest) :
  generate intent w = (inr out, w') ->
  In m out ->
  (spec m = {| podSelector := None; policyTypes := ["Ingress"; "Egress"];
               ingress := None; egress := None |} /\
   namespace (metadata m) = policy_namespace intent) \/
  (exists d, In d (dests_of (rules_of intent)) /\
             ingress_policy_for intent d m) \/
  (exists s, In s (sources_of (rules_of intent)) /\
             egress_policy_for intent s m).
Proof.
  intros Hgen Hin. apply generate_shape in Hgen.
  destruct Hgen as (deny & ing & eg & -> & Hdeny & Hing & Heg & _).
  destruct Hin as [<- | Hin].
  - now left.
  - right. apply in_app_or in Hin. destruct Hin as [Hin | Hin].
    + left. destruct (@Forall2_In_right _ _ _ _ _ _ Hing Hin) as (d & Hd & Hm).
      exists d. split; [now apply first_seen_In | assumption].
    + right. destruct (@Forall2_In_right _ _ _ _ _ _ Heg Hin) as (s & Hs & Hm).
      exists s. split; [now apply first_seen_In | assumption].
Qed.

Lemma forallb_filter {A : Type} (p q : A -> bool) (l : list A) :
  forallb p l = true -> forallb p (filter q l) = true.
Proof.
  rewrite !forallb_forall. intros H x Hx. apply filter_In in Hx.
  now apply H.
Qed.

Lemma run_fst {A : Type} (m : M A) (w : World) (a : A) :
  fst (m w) = inr a -> exists w', m w = (inr a, w').
Proof.
  destruct (m w) as [r w']. simpl. intros ->. now exists w'.
Qed.

Lemma filter_none {A : Type} (p : A -> bool) (l : list A) :
  (forall x, In x l -> p x = false) -> filter p l = [].
Proof.
  induction l as [|x l IH]; simpl; intro H; [reflexivity|].
  rewrite (H x) by auto. apply IH. auto.
Qed.

Lemma filter_none_inv {A : Type} (p : A -> bool) (l : list A) (x : A) :
  filter p l = [] -> In x l -> p x = false.
Proof.
  intros H Hx. destruct (p x) eqn:E; [|reflexivity].
  assert (Hin : In x (filter p l)) by now apply filter_In.
  rewrite H in Hin. contradiction.
Qed.

(** Along a list of manifests built key by key, the manifests selected
    by a test that recognises the key [d] are exactly one when [d] is
    among the keys. *)
Lemma filter_key_unique (R : string -> Manifest -> Prop)
      (p : Manifest -> bool) (d : string)
      (ks : list string) (ms : list Manifest) :
  Forall2 R ks ms ->
  (forall k m, R k m -> p m = String.eqb k d) ->
  NoDup ks -> In d ks ->
  exists m, filter p ms = [m] /\ R d m.
Proof.
  intros HF Hp. induction HF as [|k m ks ms Hkm HF IH]; simpl;
    intros Hnd Hin; [contradiction|].
  inversion Hnd as [|? ? Hk Hnd']. subst.
  rewrite (Hp k m Hkm). destruct (String.eqb_spec k d) as [-> | Hne].
  - exists m. split; [|assumption]. f_equal.
    apply filter_none. intros m' Hm'.
    destruct (@Forall2_In_right _ _ _ _ _ _ HF Hm') as (k' & Hk' & HR).
    rewrite (Hp k' m' HR). apply String.eqb_neq. intros ->. contradiction.
  - apply IH; [assumption|]. destruct Hin; [contradiction | assumption].
Qed.

Lemma Forall2_selectors (R : string -> Manifest -> Prop)
      (ks : list string) (ms : list Manifest) :
  Forall2 R ks ms ->
  (forall k m, R k m -> podSelector (spec m) = Some k) ->
  map (fun m => podSelector (spec m)) ms = map Some ks.
Proof.
  intros HF H. induction HF as [|k m ks ms Hkm _ IH]; simpl;
    [reflexivity|].
  now rewrite (H k m Hkm), IH.
Qed.

Lemma Forall2_forallb (R : string -> Manifest -> Prop) (p : Manifest -> bool)
      (ks : list string) (ms : list Manifest) :
  Forall2 R ks ms ->
  (forall k m, R k m -> p m = true) ->
  forallb p ms = true.
Proof.
  intros HF H. induction HF as [|k m ks ms Hkm _ IH]; simpl;
    [reflexivity|].
  now rewrite (H k m Hkm), IH.
Qed.

Lemma forallb_filter_none {A : Type} (p q : A -> bool) (l : list A) :
  forallb p l = true -> (forall x, p x = true -> q x = false) ->
  filter q l = [].
Proof.
  intros H Hpq. apply filter_none. intros x Hx. apply Hpq.
  rewrite forallb_forall in H. now apply H.
Qed.

(** What the two predicates on manifests say about the tests. *)
Lemma ingress_policy_tests (intent : Intent) (d : string) (m : Manifest) :
  ingress_policy_for intent d m ->
  podSelector (spec m) = Some d /\ is_ingress m = true /\
  is_egress m = false /\ is_default_deny m = false.
Proof.
  intros (es & _ & Hs & _).
  unfold is_ingress, is_egress, is_default_deny. rewrite Hs. simpl. auto.
Qed.

Lemma egress_policy_tests (intent : Intent) (s : string) (m : Manifest) :
  egress_policy_for intent s m ->
  podSelector (spec m) = Some s /\ is_egress m = true /\
  is_ingress m = false /\ is_default_deny m = false.
Proof.
  intros (es & _ & Hs & _).
  unfold is_ingress, is_egress, is_default_deny. rewrite Hs. simpl. auto.
Qed.

(* ================================================================= *)
(** ** Properties of the generated manifests *)

(** C3.  Every egress manifest that [generate] returns ends with the DNS
    entry, which has no peer and the ports 53/UDP and 53/TCP; it is the
    only entry without peer and the only entry that is a DNS entry,
    whatever rules the source has, port 53 included. *)
Theorem egress_ends_with_dns (intent : Intent) (w : World)
        (out : list Manifest) (m : Manifest) :
  fst (generate intent w) = inr out ->
  In m out ->
  is_egress m = true ->
  exists user,
    egress_entries m = user ++ [dns_rule] /\
    filter has_no_peer (egress_entries m) = [dns_rule] /\
    filter is_dns_rule (egress_entries m) = [dns_rule] /\
    peers dns_rule = [] /\
    ports dns_rule = Some [ {| port := 53; protocol := "UDP" |};
                            {| port := 53; protocol := "TCP" |} ].
Proof.
  intros Hgen Hin Heg. apply run_fst in Hgen. destruct Hgen as [w' Hgen].
  pose proof (@generate_shape intent w w' out Hgen)
    as (_ & _ & _ & _ & _ & _ & _ & Hends).
  destruct (@generate_member intent w w' out m Hgen Hin)
    as [Hd | [(d & _ & Hm) | (s & _ & Hm)]].
  - destruct Hd as [Hd _]. unfold is_egress in Heg.
    rewrite Hd in Heg. discriminate.
  - apply ingress_policy_tests in Hm. destruct Hm as (_ & _ & Hm & _).
    congruence.
  - destruct Hm as (es & Hes & Hs & _).
    apply egress_rules_inv in Hes;
      [|now apply forallb_filter].
    destruct Hes as (_ & _ & Hnone).
    exists es. unfold egress_entries. rewrite Hs. simpl.
    rewrite !filter_app, Hnone. simpl.
    rewrite (@filter_none _ is_dns_rule es).
    + auto.
    + intros e He. unfold is_dns_rule.
      now rewrite (filter_none_inv _ _ e Hnone He).
Qed.

Lemma egress_ends_with_dns_witness :
  exists user,
    egress_entries (at_position 3 (run dns_intent)) = user ++ [dns_rule] /\
    filter has_no_peer (egress_entries (at_position 3 (run dns_intent)))
    = [dns_rule] /\
    filter is_dns_rule (egress_entries (at_position 3 (run dns_intent)))
    = [dns_rule] /\
    peers dns_rule = [] /\
    ports dns_rule = Some [ {| port := 53; protocol := "UDP" |};
                            {| port := 53; protocol := "TCP" |} ].
Proof.
  apply (@egress_ends_with_dns dns_intent (fresh "2024-01-01T00:00:00")
                               (run dns_intent)).
  - reflexivity.
  - vm_compute. tauto.
  - reflexivity.
Defined.

(** The port-expansion example of the specification. *)
Example port_expansion_example :
  spec_port_list
    {| r_from := Some "a"; r_to := Some "b";
       r_ports := Some (Is [80%Z; 443%Z]);
       r_protocols := Some (Is ["TCP"]); r_namespace := None |}
  = Some [ {| port := 80; protocol := "TCP" |};
           {| port := 443; protocol := "TCP" |} ].
Proof. reflexivity. Qed.

(** Every rule that has both its endpoints belongs to the group of its
    destination and to the group of its source. *)
Lemma rule_in_groups (rules : list ServiceRule) (r : ServiceRule) :
  forallb has_endpoints rules = true ->
  In r rules ->
  In r (rules_to (dest_of r) rules) /\
  In (dest_of r) (dests_of rules) /\
  In r (rules_from (source_of r) rules) /\
  In (source_of r) (sources_of rules).
Proof.
  intros Hall Hin. rewrite forallb_forall in Hall.
  pose proof (Hall r Hin) as Hr. unfold has_endpoints in Hr.
  apply andb_true_iff in Hr. destruct Hr as [Hf Ht].
  unfold rules_to, rules_from, dests_of, sources_of, dest_of, source_of,
    to_is, from_is.
  destruct (r_from r) as [f|] eqn:Ef; [|discriminate].
  destruct (r_to r) as [t|] eqn:Et; [|discriminate].
  cbn [get]. repeat split.
  - apply filter_In. rewrite Et. split; [assumption | apply String.eqb_refl].
  - apply in_flat_map. exists r. rewrite Et. split; [assumption | now left].
  - apply filter_In. rewrite Ef. split; [assumption | apply String.eqb_refl].
  - apply in_flat_map. exists r. rewrite Ef. split; [assumption | now left].
Qed.

(** The entries of the two loops, rule by rule: the peer and the port
    list. *)
Lemma ingress_rules_entries (ns : nullable string) (rs : list ServiceRule)
      (es : list RuleEntry) :
  rfor_each (ingress_rule_of ns) rs = inr es ->
  Forall2 (fun r e => peer_names [e] = [source_of r] /\
                      ports e = spec_port_list r) rs es.
Proof.
  intro H. apply rfor_each_inr in H. revert H. apply Forall2_impl.
  intros r e H. apply ingress_rule_inv in H.
  destruct H as (f & Hf & Hp & Hports).
  unfold peer_names, source_of. simpl. rewrite Hp, Hf. simpl. auto.
Qed.

Lemma egress_rules_entries (ns : nullable string) (rs : list ServiceRule) :
  forall es,
    forallb has_endpoints rs = true ->
    rfor_each (egress_rule_of ns) (egress_dests rs) = inr es ->
    Forall2 (fun r e => peer_names [e] = [dest_of r] /\
                        ports e = spec_port_list r) rs es.
Proof.
  unfold has_endpoints, dest_of, peer_names.
  induction rs as [|r rs IH]; simpl; intros es Hall H.
  - inversion H. constructor.
  - apply andb_true_iff in Hall. destruct Hall as [Hr Hall].
    destruct (r_to r) as [t|] eqn:Ht; [|now rewrite andb_false_r in Hr].
    simpl in H.
    destruct (egress_rule_of ns (egress_dest t r)) as [x | e] eqn:E;
      simpl in H; [discriminate|].
    destruct (rfor_each (egress_rule_of ns) (egress_dests rs))
      as [x | es'] eqn:Es; simpl in H; [discriminate|].
    inversion H. subst. apply egress_rule_inv in E.
    destruct E as [Hp Hports].
    constructor; [|now apply IH].
    rewrite Hp, Ht. simpl. auto.
Qed.

(** The one ingress manifest of a destination and the one egress
    manifest of a source, with their entries rule by rule. *)
Lemma ingress_manifest_of_destination (intent : Intent) (w w' : World)
      (out : list Manifest) (d : string) :
  generate intent w = (inr out, w') ->
  In d (dests_of (rules_of intent)) ->
  exists m,
    ingress_manifests_to d out = [m] /\
    Forall2 (fun r e => peer_names [e] = [source_of r] /\
                        ports e = spec_port_list r)
            (rules_to d (rules_of intent)) (ingress_entries m).
Proof.
  intros Hgen Hd. apply generate_shape in Hgen.
  destruct Hgen as (deny & ing & eg & -> & [Hdeny _] & Hing & Heg & _).
  destruct (@filter_key_unique (ingress_policy_for intent)
              (fun m => is_ingress m && targets d m) d _ _ Hing)
    as (m & Hm & HR).
  - intros k m H. apply ingress_policy_tests in H.
    destruct H as (Hsel & Hi & _). unfold targets. now rewrite Hi, Hsel.
  - apply first_seen_NoDup.
  - now apply first_seen_In.
  - exists m. unfold ingress_manifests_to. simpl.
    replace (is_ingress deny) with false
      by (unfold is_ingress; now rewrite Hdeny).
    simpl. rewrite filter_app, Hm.
    rewrite (@filter_none _ _ eg).
    + destruct HR as (es & Hes & Hs & _).
      unfold ingress_entries. rewrite Hs. simpl.
      split; [reflexivity|].
      now apply ingress_rules_entries with (ns := policy_namespace intent).
    + intros m' Hm'.
      destruct (@Forall2_In_right _ _ _ _ _ _ Heg Hm') as (k & _ & H).
      apply egress_policy_tests in H. destruct H as (_ & _ & H & _).
      now rewrite H.
Qed.

Lemma egress_manifest_of_source (intent : Intent) (w w' : World)
      (out : list Manifest) (s : string) :
  generate intent w = (inr out, w') ->
  In s (sources_of (rules_of intent)) ->
  exists m user,
    egress_manifests_from s out = [m] /\
    egress_entries m = user ++ [dns_rule] /\
    Forall2 (fun r e => peer_names [e] = [dest_of r] /\
                        ports e = spec_port_list r)
            (rules_from s (rules_of intent)) user.
Proof.
  intros Hgen Hs. apply generate_shape in Hgen.
  destruct Hgen as (deny & ing & eg & -> & [Hdeny _] & Hing & Heg & Hends).
  destruct (@filter_key_unique (egress_policy_for intent)
              (fun m => is_egress m && targets s m) s _ _ Heg)
    as (m & Hm & HR).
  - intros k m H. apply egress_policy_tests in H.
    destruct H as (Hsel & He & _). unfold targets. now rewrite He, Hsel.
  - apply first_seen_NoDup.
  - now apply first_seen_In.
  - destruct HR as (es & Hes & Hs' & _).
    exists m, es. unfold egress_manifests_from. simpl.
    replace (is_egress deny) with false
      by (unfold is_egress; now rewrite Hdeny).
    simpl. rewrite filter_app, Hm.
    rewrite (@filter_none _ _ ing).
    + unfold egress_entries. rewrite Hs'. simpl.
      split; [reflexivity|]. split; [reflexivity|].
      apply egress_rules_entries with (ns := policy_namespace intent);
        [now apply forallb_filter | assumption].
    + intros m' Hm'.
      destruct (@Forall2_In_right _ _ _ _ _ _ Hing Hm') as (k & _ & H).
      apply ingress_policy_tests in H. destruct H as (_ & _ & H & _).
      now rewrite H.
Qed.

(** The port lists of any manifest of the output, entry by entry. *)
Lemma port_lists_of_members (intent : Intent) (w w' : World)
      (out : list Manifest) :
  generate intent w = (inr out, w') ->
  (forall d m, In m out -> is_ingress m = true -> targets d m = true ->
     map ports (ingress_entries m)
     = map spec_port_list (rules_to d (rules_of intent))) /\
  (forall s m, In m out -> is_egress m = true -> targets s m = true ->
     map ports (egress_entries m)
     = map spec_port_list (rules_from s (rules_of intent))
       ++ [ports dns_rule]).
Proof.
  intro Hgen.
  pose proof (@generate_shape intent w w' out Hgen)
    as (_ & _ & _ & _ & _ & _ & _ & Hends).
  split; intros k m Hin Hkind Hk;
    destruct (@generate_member intent w w' out m Hgen Hin)
      as [[Hd _] | [(d & _ & Hm) | (s & _ & Hm)]].
  - unfold is_ingress in Hkind. rewrite Hd in Hkind. discriminate.
  - destruct Hm as (es & Hes & Hs & _).
    unfold targets in Hk. rewrite Hs in Hk. simpl in Hk.
    apply String.eqb_eq in Hk. subst d.
    unfold ingress_entries. rewrite Hs. simpl.
    now apply ingress_rules_inv in Hes.
  - apply egress_policy_tests in Hm. destruct Hm as (_ & _ & Hm & _).
    congruence.
  - unfold is_egress in Hkind. rewrite Hd in Hkind. discriminate.
  - apply ingress_policy_tests in Hm. destruct Hm as (_ & _ & Hm & _).
    congruence.
  - destruct Hm as (es & Hes & Hs & _).
    unfold targets in Hk. rewrite Hs in Hk. simpl in Hk.
    apply String.eqb_eq in Hk. subst s.
    unfold egress_entries. rewrite Hs. simpl.
    apply egress_rules_inv in Hes; [|now apply forallb_filter].
    destruct Hes as (Hports & _). now rewrite map_app, Hports.
Qed.

(** C5.  When [generate] returns, every rule has an entry of its own in
    the ingress manifest of its destination and in the egress manifest
    of its source, and that entry carries the product of the rule's
    ports by its protocols (["TCP"] when the rule names none), ports
    outermost, and no "ports" key when the rule has no ports, [None] or
    the empty list.  In full: every rule belongs to the rules of its
    destination and to the rules of its source; each destination has
    exactly one ingress manifest, whose entries follow the rules of the
    destination one by one, each with the rule's source as peer and the
    rule's port list; each source has exactly one egress manifest,
    whose entries before the DNS entry follow the rules of the source
    in the same way; and no ingress or egress manifest of the output
    has other port lists. *)
Theorem port_lists_are_cartesian (intent : Intent) (w : World)
        (out : list Manifest) :
  fst (generate intent w) = inr out ->
  (forall r, In r (rules_of intent) ->
     In r (rules_to (dest_of r) (rules_of intent)) /\
     In (dest_of r) (dests_of (rules_of intent)) /\
     In r (rules_from (source_of r) (rules_of intent)) /\
     In (source_of r) (sources_of (rules_of intent))) /\
  (forall d, In d (dests_of (rules_of intent)) ->
     exists m,
       ingress_manifests_to d out = [m] /\
       Forall2 (fun r e => peer_names [e] = [source_of r] /\
                           ports e = spec_port_list r)
               (rules_to d (rules_of intent)) (ingress_entries m)) /\
  (forall s, In s (sources_of (rules_of intent)) ->
     exists m user,
       egress_manifests_from s out = [m] /\
       egress_entries m = user ++ [dns_rule] /\
       Forall2 (fun r e => peer_names [e] = [dest_of r] /\
                           ports e = spec_port_list r)
               (rules_from s (rules_of intent)) user) /\
  (forall d m, In m out -> is_ingress m = true -> targets d m = true ->
     map ports (ingress_entries m)
     = map spec_port_list (rules_to d (rules_of intent))) /\
  (forall s m, In m out -> is_egress m = true -> targets s m = true ->
     map ports (egress_entries m)
     = map spec_port_list (rules_from s (rules_of intent))
       ++ [ports dns_rule]).
Proof.
  intro Hgen. apply run_fst in Hgen. destruct Hgen as [w' Hgen].
  pose proof (@generate_shape intent w w' out Hgen)
    as (_ & _ & _ & _ & _ & _ & _ & Hends).
  split; [|split; [|split]].
  - intros r Hr. now apply rule_in_groups.
  - intros d Hd. exact (@ingress_manifest_of_destination _ _ _ _ d Hgen Hd).
  - intros s Hs. exact (@egress_manifest_of_source _ _ _ _ s Hgen Hs).
  - exact (@port_lists_of_members _ _ _ _ Hgen).
Qed.

Lemma port_lists_are_cartesian_witness :
  (forall r, In r (rules_of dns_intent) ->
     In r (rules_to (dest_of r) (rules_of dns_intent)) /\
     In (dest_of r) (dests_of (rules_of dns_intent)) /\
     In r (rules_from (source_of r) (rules_of dns_intent)) /\
     In (source_of r) (sources_of (rules_of dns_intent))) /\
  (forall d, In d (dests_of (rules_of dns_intent)) ->
     exists m,
       ingress_manifests_to d (run dns_intent) = [m] /\
       Forall2 (fun r e => peer_names [e] = [source_of r] /\
                           ports e = spec_port_list r)
               (rules_to d (rules_of dns_intent)) (ingress_entries m)) /\
  (forall s, In s (sources_of (rules_of dns_intent)) ->
     exists m user,
       egress_manifests_from s (run dns_intent) = [m] /\
       egress_entries m = user ++ [dns_rule] /\
       Forall2 (fun r e => peer_names [e] = [dest_of r] /\
                           ports e = spec_port_list r)
               (rules_from s (rules_of dns_intent)) user) /\
  (forall d m, In m (run dns_intent) -> is_ingress m = true ->
     targets d m = true ->
     map ports (ingress_entries m)
     = map spec_port_list (rules_to d (rules_of dns_intent))) /\
  (forall s m, In m (run dns_intent) -> is_egress m = true ->
     targets s m = true ->
     map ports (egress_entries m)
     = map spec_port_list (rules_from s (rules_of dns_intent))
       ++ [ports dns_rule]).
Proof.
  apply (@port_lists_are_cartesian dns_intent (fresh "2024-01-01T00:00:00")).
  reflexivity.
Defined.

(** C4, as the code has it.  The list that [generate] returns is in
    canonical order: the default-deny manifest first, then the ingress
    manifests by destination in first-seen order, then the egress
    manifests by source in first-seen order.  It holds exactly one
    default-deny manifest, that of the intent's own namespace
    ("default" when the intent names none), whatever namespaces the
    rules name. *)
Theorem generate_canonical_order (intent : Intent) (w : World)
        (out : list Manifest) :
  fst (generate intent w) = inr out ->
  canonical_order intent out /\
  exists deny,
    hd_error out = Some deny /\
    filter is_default_deny out = [deny] /\
    namespace (metadata deny) = policy_namespace intent.
Proof.
  intro Hgen. apply run_fst in Hgen. destruct Hgen as [w' Hgen].
  apply generate_shape in Hgen.
  destruct Hgen as (deny & ing & eg & -> & [Hdeny Hns] & Hing & Heg & _).
  assert (Hd : is_default_deny deny = true)
    by (unfold is_default_deny; now rewrite Hdeny).
  assert (Hi : forallb is_ingress ing = true).
  { apply (Forall2_forallb _ Hing). intros k m H.
    now apply ingress_policy_tests in H. }
  assert (He : forallb is_egress eg = true).
  { apply (Forall2_forallb _ Heg). intros k m H.
    now apply egress_policy_tests in H. }
  split.
  - exists deny, ing, eg. repeat split; try assumption.
    + apply (Forall2_selectors Hing). intros k m H.
      now apply ingress_policy_tests in H.
    + apply (Forall2_selectors Heg). intros k m H.
      now apply egress_policy_tests in H.
  - exists deny. repeat split; try assumption.
    simpl. rewrite Hd, filter_app. f_equal.
    rewrite (@filter_none _ is_default_deny ing),
            (@filter_none _ is_default_deny eg); [reflexivity| |].
    + intros m Hm.
      destruct (@Forall2_In_right _ _ _ _ _ _ Heg Hm) as (k & _ & H).
      now apply egress_policy_tests in H.
    + intros m Hm.
      destruct (@Forall2_In_right _ _ _ _ _ _ Hing Hm) as (k & _ & H).
      now apply ingress_policy_tests in H.
Qed.

Lemma generate_canonical_order_witness :
  canonical_order scenario_B (run scenario_B) /\
  exists deny,
    hd_error (run scenario_B) = Some deny /\
    filter is_default_deny (run scenario_B) = [deny] /\
    namespace (metadata deny) = policy_namespace scenario_B.
Proof.
  apply (@generate_canonical_order scenario_B (fresh "2024-01-01T00:00:00")).
  reflexivity.
Defined.

(** C4 as stated fails: the rule of [scenario_B] resolves to namespace
    "web", the intent lives in "default", and the output holds no
    default-deny manifest for "web". *)
Lemma deny_per_namespace_counterexample :
  exists out,
    fst (generate scenario_B (fresh "2024-01-01T00:00:00")) = inr out /\
    In (Is "web") (referenced_namespaces scenario_B) /\
    default_denies_in (Is "web") out = [] /\
    ~ (canonical_order scenario_B out /\ one_deny_per_namespace scenario_B out).
Proof.
  eexists. split; [reflexivity|].
  split; [simpl; auto|]. split; [reflexivity|].
  intros [_ H]. specialize (H (Is "web")).
  assert (Hin : In (Is "web") (referenced_namespaces scenario_B))
    by (simpl; auto).
  apply H in Hin. vm_compute in Hin. discriminate.
Qed.

(** C2, as the code has it.  Every destination named in the rules is
    targeted by exactly one ingress manifest of the output, and that
    manifest holds one entry per rule that names the destination, in
    the order of the rules, each selecting the rule's source.  When no
    two of these rules share their source, this is one entry per
    distinct source, in first-seen order. *)
Theorem ingress_one_entry_per_rule (intent : Intent) (w : World)
        (out : list Manifest) (d : string) :
  fst (generate intent w) = inr out ->
  In d (dests_of (rules_of intent)) ->
  exists m,
    ingress_manifests_to d out = [m] /\
    Forall2 (fun r e => ingress_rule_of (policy_namespace intent) r = inr e)
            (rules_to d (rules_of intent)) (ingress_entries m) /\
    peer_names (ingress_entries m)
    = sources_of (rules_to d (rules_of intent)) /\
    (NoDup (sources_of (rules_to d (rules_of intent))) ->
     peer_names (ingress_entries m)
     = first_seen (sources_of (rules_to d (rules_of intent)))).
Proof.
  intros Hgen Hd. apply run_fst in Hgen. destruct Hgen as [w' Hgen].
  apply generate_shape in Hgen.
  destruct Hgen as (deny & ing & eg & -> & [Hdeny _] & Hing & Heg & _).
  destruct (@filter_key_unique (ingress_policy_for intent)
              (fun m => is_ingress m && targets d m) d _ _ Hing)
    as (m & Hm & HR).
  - intros k m H. apply ingress_policy_tests in H.
    destruct H as (Hsel & Hi & _). unfold targets. now rewrite Hi, Hsel.
  - apply first_seen_NoDup.
  - now apply first_seen_In.
  - exists m. unfold ingress_manifests_to. simpl.
    replace (is_ingress deny) with false
      by (unfold is_ingress; now rewrite Hdeny).
    simpl. rewrite filter_app, Hm.
    rewrite (@filter_none _ _ eg).
    + destruct HR as (es & Hes & Hs & _).
      unfold ingress_entries. rewrite Hs. simpl.
      pose proof (ingress_rules_inv _ _ Hes) as [_ Hnames].
      repeat split.
      * now apply rfor_each_inr.
      * assumption.
      * intro Hnd. rewrite Hnames. symmetry. now apply first_seen_of_NoDup.
    + intros m' Hm'.
      destruct (@Forall2_In_right _ _ _ _ _ _ Heg Hm') as (k & _ & H).
      apply egress_policy_tests in H. destruct H as (_ & _ & H & _).
      now rewrite H.
Qed.

Lemma ingress_one_entry_per_rule_witness :
  exists m,
    ingress_manifests_to "backend" (run two_port_rules) = [m] /\
    Forall2 (fun r e =>
               ingress_rule_of (policy_namespace two_port_rules) r = inr e)
            (rules_to "backend" (rules_of two_port_rules))
            (ingress_entries m) /\
    peer_names (ingress_entries m)
    = sources_of (rules_to "backend" (rules_of two_port_rules)) /\
    (NoDup (sources_of (rules_to "backend" (rules_of two_port_rules))) ->
     peer_names (ingress_entries m)
     = first_seen (sources_of (rules_to "backend" (rules_of two_port_rules)))).
Proof.
  apply (@ingress_one_entry_per_rule two_port_rules
           (fresh "2024-01-01T00:00:00")).
  - reflexivity.
  - simpl. auto.
Defined.

(** C2 as stated fails: [two_port_rules] names the pair frontend,
    backend in two rules, and the ingress manifest of backend holds two
    entries for the one source frontend. *)
Lemma one_entry_per_source_counterexample :
  exists out,
    fst (generate two_port_rules (fresh "2024-01-01T00:00:00")) = inr out /\
    peer_names (flat_map ingress_entries (ingress_manifests_to "backend" out))
    = ["frontend"; "frontend"] /\
    first_seen (sources_of (rules_to "backend" (rules_of two_port_rules)))
    = ["frontend"] /\
    ~ one_entry_per_source two_port_rules out.
Proof.
  eexists. split; [reflexivity|].
  split; [reflexivity|]. split; [reflexivity|].
  intro H. destruct (H "backend") as (m & Hm & Hnames); [simpl; auto|].
  vm_compute in Hm. inversion Hm. subst m. vm_compute in Hnames.
  discriminate.
Qed.

(* ================================================================= *)
(** ** Namespace selectors *)

Lemma selector_of_namespace (who : string) (peer_ns ns : nullable string) :
  namespaceSelector (selector_of who peer_ns ns) <> None <-> peer_ns <> ns.
Proof.
  unfold selector_of. simpl. destruct (str_eqb peer_ns ns) eqn:E; simpl.
  - apply str_eqb_eq in E. split; intro H; congruence.
  - apply str_eqb_neq in E. split; intro H; [assumption | discriminate].
Qed.

(** In an ingress entry, the namespace selector is there exactly when
    the rule's namespace, the intent's when the rule has none, differs
    from the policy's. *)
Lemma ingress_namespace_selector (intent : Intent) (r : ServiceRule)
      (e : RuleEntry) :
  ingress_rule_of (policy_namespace intent) r = inr e ->
  exists sel,
    peers e = [sel] /\
    (namespaceSelector sel <> None <->
     resolved_namespace intent r <> policy_namespace intent).
Proof.
  intro H. apply ingress_rule_inv in H. destruct H as (f & _ & Hp & _).
  eexists. split; [eassumption|]. apply selector_of_namespace.
Qed.

(** In an egress entry, the rule's namespace is "default" when the rule
    has none, whatever the intent's namespace. *)
Lemma egress_namespace_selector (intent : Intent) (t : string)
      (r : ServiceRule) (e : RuleEntry) :
  egress_rule_of (policy_namespace intent) (egress_dest t r) = inr e ->
  exists sel,
    peers e = [sel] /\
    (namespaceSelector sel <> None <->
     get (r_namespace r) (Is "default") <> policy_namespace intent).
Proof.
  intro H. apply egress_rule_inv in H. destruct H as (Hp & _).
  eexists. split; [eassumption|]. apply selector_of_namespace.
Qed.

(** C1 at [prod_intent]: the rule names no namespace, so it resolves to
    the intent's namespace "prod", which is the policy's.  The ingress
    entry has no namespace selector; the egress entry of the same rule
    has the namespace selector "default". *)
Theorem egress_namespace_default_mismatch :
  exists deny ing eg,
    fst (generate prod_intent (fresh "2024-01-01T00:00:00"))
    = inr [deny; ing; eg] /\
    Forall (fun r => resolved_namespace prod_intent r
                     = policy_namespace prod_intent)
           (rules_of prod_intent) /\
    map peers (ingress_entries ing)
    = [[ {| peer_app := "frontend"; namespaceSelector := None |} ]] /\
    map peers (egress_entries eg)
    = [[ {| peer_app := "backend";
            namespaceSelector := Some (Is "default") |} ];
       []].
Proof.
  do 3 eexists. split; [reflexivity|].
  split; [repeat constructor|]. split; reflexivity.
Qed.

(* ================================================================= *)
(** ** Termination without exception *)

Lemma returns_ret {A : Type} (P : A -> Prop) (a : A) :
  P a -> returns P (ret a).
Proof. intros H w. now exists a, w. Qed.

Lemma returns_lift {A : Type} (P : A -> Prop) (r : result A) (a : A) :
  r = inr a -> P a -> returns P (lift r).
Proof. intros -> H w. now exists a, w. Qed.

Lemma returns_bind {A B : Type} (P : A -> Prop) (Q : B -> Prop)
      (m : M A) (k : A -> M B) :
  returns P m -> (forall a, P a -> returns Q (k a)) -> returns Q (bind m k).
Proof.
  intros Hm Hk w. destruct (Hm w) as (a & w1 & Hrun & Ha).
  unfold bind. rewrite Hrun. now apply Hk.
Qed.

Lemma returns_now : returns (fun _ => True) now_isoformat.
Proof. intro w. unfold now_isoformat. eauto. Qed.

Lemma returns_for_each {A B : Type} (body : A -> M B) (l : list A) :
  (forall x, In x l -> returns (fun _ => True) (body x)) ->
  returns (fun _ => True) (for_each body l).
Proof.
  induction l as [|x l IH]; simpl; intro H.
  - now apply returns_ret.
  - apply returns_bind with (P := fun _ => True); [apply H; auto|].
    intros y _. apply returns_bind with (P := fun _ => True);
      [apply IH; auto|].
    intros ys _. now apply returns_ret.
Qed.

Lemma rfor_each_total {A B : Type} (f : A -> result B) (l : list A) :
  (forall x, In x l -> exists y, f x = inr y) ->
  exists ys, rfor_each f l = inr ys.
Proof.
  induction l as [|x l IH]; simpl; intro H; [eauto|].
  destruct (H x) as [y Hy]; [auto|]. rewrite Hy. simpl.
  destruct IH as [ys Hys]; [auto|]. rewrite Hys. simpl. eauto.
Qed.

Lemma ingress_rule_total (ns : nullable string) (r : ServiceRule) :
  has_endpoints r = true -> protocols_iterable r = true ->
  exists e, ingress_rule_of ns r = inr e.
Proof.
  unfold has_endpoints, protocols_iterable, ingress_rule_of.
  intros He Hp. destruct (r_from r) as [f|]; [|discriminate]. simpl.
  destruct (get_none (r_ports r)) as [|[|p ps]]; cbn [truthy iter rbind];
    eauto.
  simpl in Hp. destruct (get (r_protocols r) (Is ["TCP"])) as [|protos];
    [discriminate|].
  rewrite expand_ports_spec. simpl. eauto.
Qed.

Lemma egress_rule_total (ns : nullable string) (t : string) (r : ServiceRule) :
  protocols_iterable r = true ->
  exists e, egress_rule_of ns (egress_dest t r) = inr e.
Proof.
  unfold protocols_iterable, egress_rule_of, egress_dest.
  cbn [d_to d_ports d_protocols d_namespace item get rbind]. intro Hp.
  fold (get_none (r_ports r)).
  destruct (get_none (r_ports r)) as [|[|p ps]];
    cbn [truthy iter rbind get_none get item]; eauto.
  simpl in Hp. destruct (r_protocols r) as [[|protos]|];
    try discriminate; cbn [get]; rewrite expand_ports_spec; simpl; eauto.
Qed.

Lemma in_egress_dests (x : EgressDest) (rs : list ServiceRule) :
  In x (egress_dests rs) ->
  exists t r, In r rs /\ x = egress_dest t r.
Proof.
  unfold egress_dests. intro H. apply in_flat_map in H.
  destruct H as (r & Hr & Hx). destruct (r_to r) as [t|]; [|contradiction].
  destruct Hx as [<- | []]. now exists t, r.
Qed.

Lemma default_deny_returns (ns : nullable string) :
  returns (fun _ => True) (_generate_default_deny ns).
Proof.
  unfold _generate_default_deny.
  apply returns_bind with (P := fun _ => True); [apply returns_now|].
  intros stamp _. now apply returns_ret.
Qed.

Lemma ingress_policy_returns (d : string) (rs : list ServiceRule)
      (ns : nullable string) (nm : string) :
  forallb has_endpoints rs = true ->
  forallb protocols_iterable rs = true ->
  returns (fun _ => True) (_generate_ingress_policy d rs ns nm).
Proof.
  rewrite !forallb_forall. intros He Hp. unfold _generate_ingress_policy.
  destruct (@rfor_each_total _ _ (ingress_rule_of ns) rs) as [es Hes].
  { intros r Hr. apply ingress_rule_total; auto. }
  destruct (@rfor_each_total _ _ (fun r => item "from" (r_from r)) rs)
    as [fs Hfs].
  { intros r Hr. specialize (He r Hr). unfold has_endpoints in He.
    destruct (r_from r); [simpl; eauto | discriminate]. }
  rewrite Hes, Hfs.
  apply returns_bind with (P := fun _ => True);
    [now apply returns_lift with es|].
  intros ? _. apply returns_bind with (P := fun _ => True);
    [apply returns_now|].
  intros ? _. apply returns_bind with (P := fun _ => True);
    [now apply returns_lift with fs|].
  intros ? _. now apply returns_ret.
Qed.

Lemma egress_policy_returns (s : string) (rs : list ServiceRule)
      (ns : nullable string) (nm : string) :
  forallb protocols_iterable rs = true ->
  returns (fun _ => True) (_generate_egress_policy s (egress_dests rs) ns nm).
Proof.
  rewrite forallb_forall. intros Hp. unfold _generate_egress_policy.
  destruct (@rfor_each_total _ _ (egress_rule_of ns) (egress_dests rs))
    as [es Hes].
  { intros x Hx. apply in_egress_dests in Hx.
    destruct Hx as (t & r & Hr & ->). apply egress_rule_total; auto. }
  destruct (@rfor_each_total _ _ (fun x => item "to" (d_to x))
                             (egress_dests rs)) as [ts Hts].
  { intros x Hx. apply in_egress_dests in Hx.
    destruct Hx as (t & r & Hr & ->). simpl. eauto. }
  rewrite Hes, Hts.
  apply returns_bind with (P := fun _ => True);
    [now apply returns_lift with es|].
  intros ? _. apply returns_bind with (P := fun _ => True);
    [apply returns_now|].
  intros ? _. apply returns_bind with (P := fun _ => True);
    [now apply returns_lift with ts|].
  intros ? _. now apply returns_ret.
Qed.

(** [generate] returns on every intent whose rules have their two
    endpoints and protocols that can be iterated over. *)
Lemma generate_returns (intent : Intent) :
  forallb has_endpoints (rules_of intent) = true ->
  forallb protocols_iterable (rules_of intent) = true ->
  returns (fun _ => True) (generate intent).
Proof.
  intros He Hp. unfold generate. cbv zeta.
  fold (rules_of intent) (policy_namespace intent).
  unfold _extract_egress_rules. rewrite !group_into_empty.
  destruct (@rfor_each_total _ _ dest_entry (rules_of intent)) as [dkvs Hd].
  { intros r Hr. rewrite forallb_forall in He. specialize (He r Hr).
    unfold has_endpoints in He. unfold dest_entry.
    destruct (r_to r); [simpl; eauto | now rewrite andb_false_r in He]. }
  destruct (@rfor_each_total _ _ egress_entry (rules_of intent)) as [skvs Hs].
  { intros r Hr. rewrite forallb_forall in He. specialize (He r Hr).
    unfold has_endpoints in He. unfold egress_entry.
    destruct (r_from r); [|discriminate].
    destruct (r_to r); [simpl; eauto | discriminate]. }
  rewrite Hd, Hs.
  destruct (dest_entries_spec _ Hd) as [_ Hdv].
  destruct (egress_entries_spec _ Hs) as [_ Hsv].
  apply returns_bind with (P := fun _ => True);
    [apply default_deny_returns|].
  intros deny _.
  apply returns_bind with (P := fun x => x = grouped dkvs);
    [now apply returns_lift with (grouped dkvs)|].
  intros ? ->.
  apply returns_bind with (P := fun _ => True).
  { apply returns_for_each. intros [d rs] Hin. unfold grouped in Hin.
    apply in_map_iff in Hin. destruct Hin as (k & Hk & _).
    inversion Hk. subst. rewrite Hdv.
    apply ingress_policy_returns; now apply forallb_filter. }
  intros ing _.
  apply returns_bind with (P := fun x => x = grouped skvs);
    [now apply returns_lift with (grouped skvs)|].
  intros ? ->.
  apply returns_bind with (P := fun _ => True).
  { apply returns_for_each. intros [s ds] Hin. unfold grouped in Hin.
    apply in_map_iff in Hin. destruct Hin as (k & Hk & _).
    inversion Hk. subst. rewrite Hsv.
    apply egress_policy_returns. now apply forallb_filter. }
  intros eg _.
  apply returns_bind with (P := fun _ => True).
  { intro w. unfold set_generated_policies. eauto. }
  intros ? _. now apply returns_ret.
Qed.

(** The validator accepts exactly the intents that have the key "rules"
    and whose rules all have their two endpoints. *)
Lemma validate_rules_errors (rules : list ServiceRule) :
  forall i errs warns,
    fst (validate_rules i rules errs warns) = [] <->
    errs = [] /\ forallb has_endpoints rules = true.
Proof.
  induction rules as [|r rules IH]; simpl; intros i errs warns.
  - intuition.
  - rewrite IH. unfold has_endpoints.
    destruct (contains (r_from r)), (contains (r_to r)); simpl;
      rewrite ?app_nil_r; split; intros [H1 H2]; try discriminate;
      try (split; assumption);
      try (apply app_eq_nil in H1; destruct H1; discriminate).
Qed.

Lemma validate_intent_valid (intent : Intent) :
  valid (validate_intent intent) = true <->
  exists rules, i_rules intent = Some rules /\
                forallb has_endpoints rules = true.
Proof.
  unfold validate_intent.
  destruct (validate_rules 0 (get (i_rules intent) []) _ _)
    as [errs warns] eqn:E. simpl.
  assert (Hl : Nat.eqb (List.length errs) 0 = true <-> errs = []).
  { destruct errs; simpl; split; intro H; congruence. }
  rewrite Hl. replace errs with (fst (errs, warns)) by reflexivity.
  rewrite <- E, validate_rules_errors.
  destruct (i_rules intent) as [rules|]; simpl.
  - split; [intros [_ H]; eauto | intros (rs & Hrs & H)].
    inversion Hrs. subst. auto.
  - split; [intros [H _]; discriminate | intros (rs & Hrs & _)].
    discriminate.
Qed.

(** Once the validator has accepted an intent, [generate] returns,
    provided no rule pairs a non-empty port list with [None]
    protocols. *)
Lemma generate_returns_on_valid (intent : Intent) (w : World) :
  valid (validate_intent intent) = true ->
  forallb protocols_iterable (rules_of intent) = true ->
  exists out, fst (generate intent w) = inr out.
Proof.
  intros Hv Hp. apply validate_intent_valid in Hv.
  destruct Hv as (rules & Hrules & He).
  destruct (@generate_returns intent) with (w := w) as (out & w' & Hrun & _).
  - unfold rules_of. now rewrite Hrules.
  - assumption.
  - exists out. now rewrite Hrun.
Qed.

(** C7 at [null_protocols]: the validator accepts the intent, whose rule
    has both endpoints, and [generate] raises [TypeError] when the
    ingress loop iterates over the rule's protocols. *)
Theorem generate_raises_on_null_protocols :
  valid (validate_intent null_protocols) = true /\
  errors (validate_intent null_protocols) = [] /\
  forall w, fst (generate null_protocols w) = inl not_iterable.
Proof.
  split; [reflexivity|]. split; [reflexivity|]. intro w. reflexivity.
Qed.

(* ================================================================= *)
(** ** Independence from the clock and from earlier calls *)

Lemma agree_ret {A : Type} (R : A -> A -> Prop) (a b : A) :
  R a b -> agree R (ret a) (ret b).
Proof. intros H w1 w2. exact H. Qed.

Lemma agree_lift {A : Type} (R : A -> A -> Prop) (r : result A) :
  (forall a, R a a) -> agree R (lift r) (lift r).
Proof. intros H w1 w2. simpl. destruct r; simpl; auto. Qed.

Lemma agree_bind {A B : Type} (R : A -> A -> Prop) (Q : B -> B -> Prop)
      (m1 m2 : M A) (k1 k2 : A -> M B) :
  agree R m1 m2 ->
  (forall a b, R a b -> agree Q (k1 a) (k2 b)) ->
  agree Q (bind m1 k1) (bind m2 k2).
Proof.
  intros Hm Hk w1 w2. specialize (Hm w1 w2). unfold bind.
  destruct (m1 w1) as [[e1 | a] w1'], (m2 w2) as [[e2 | b] w2'];
    simpl in *; try contradiction; try assumption.
  now apply Hk.
Qed.

Lemma agree_now : agree (fun _ _ => True) now_isoformat now_isoformat.
Proof. intros w1 w2. exact I. Qed.

Lemma agree_set (p1 p2 : list Manifest) :
  agree (fun _ _ => True) (set_generated_policies p1)
        (set_generated_policies p2).
Proof. intros w1 w2. exact I. Qed.

Lemma agree_for_each {A B : Type} (R : B -> B -> Prop) (body : A -> M B)
      (l : list A) :
  (forall x, agree R (body x) (body x)) ->
  agree (Forall2 R) (for_each body l) (for_each body l).
Proof.
  intro H. induction l as [|x l IH]; simpl.
  - apply agree_ret. constructor.
  - apply agree_bind with (R := R); [apply H|]. intros y1 y2 Hy.
    apply agree_bind with (R := Forall2 R); [apply IH|]. intros ys1 ys2 Hys.
    apply agree_ret. now constructor.
Qed.

Lemma agree_default_deny (ns : nullable string) :
  agree same_but_stamp (_generate_default_deny ns) (_generate_default_deny ns).
Proof.
  unfold _generate_default_deny.
  apply agree_bind with (R := fun _ _ => True); [apply agree_now|].
  intros t1 t2 _. apply agree_ret. reflexivity.
Qed.

Lemma agree_ingress_policy (d : string) (rs : list ServiceRule)
      (ns : nullable string) (nm : string) :
  agree same_but_stamp (_generate_ingress_policy d rs ns nm)
        (_generate_ingress_policy d rs ns nm).
Proof.
  unfold _generate_ingress_policy.
  apply agree_bind with (R := eq); [now apply agree_lift|].
  intros es ? <-.
  apply agree_bind with (R := fun _ _ => True); [apply agree_now|].
  intros t1 t2 _.
  apply agree_bind with (R := eq); [now apply agree_lift|].
  intros fs ? <-. apply agree_ret. reflexivity.
Qed.

Lemma agree_egress_policy (s : string) (ds : list EgressDest)
      (ns : nullable string) (nm : string) :
  agree same_but_stamp (_generate_egress_policy s ds ns nm)
        (_generate_egress_policy s ds ns nm).
Proof.
  unfold _generate_egress_policy.
  apply agree_bind with (R := eq); [now apply agree_lift|].
  intros es ? <-.
  apply agree_bind with (R := fun _ _ => True); [apply agree_now|].
  intros t1 t2 _.
  apply agree_bind with (R := eq); [now apply agree_lift|].
  intros ts ? <-. apply agree_ret. reflexivity.
Qed.

Lemma Forall2_same_but_stamp (l1 l2 : list Manifest) :
  Forall2 same_but_stamp l1 l2 <-> map without_stamp l1 = map without_stamp l2.
Proof.
  split.
  - induction 1 as [|m1 m2 l1 l2 H _ IH]; simpl; [reflexivity|].
    now rewrite H, IH.
  - revert l2. induction l1 as [|m1 l1 IH]; intros [|m2 l2] H;
      try discriminate H; [constructor|].
    pose proof (f_equal (hd blank) H) as Hm.
    pose proof (f_equal (@tl _) H) as Hl.
    cbn [map hd tl] in Hm, Hl. constructor; [exact Hm | now apply IH].
Qed.

Lemma agree_generate (intent : Intent) :
  agree (fun o1 o2 => map without_stamp o1 = map without_stamp o2)
        (generate intent) (generate intent).
Proof.
  unfold generate. cbv zeta.
  apply agree_bind with (R := same_but_stamp); [apply agree_default_deny|].
  intros deny1 deny2 Hdeny.
  apply agree_bind with (R := eq); [now apply agree_lift|].
  intros rules_by_dest ? <-.
  apply agree_bind with (R := Forall2 same_but_stamp).
  { apply agree_for_each. intros [d rs]. apply agree_ingress_policy. }
  intros ing1 ing2 Hing.
  apply agree_bind with (R := eq); [now apply agree_lift|].
  intros egress_rules ? <-.
  apply agree_bind with (R := Forall2 same_but_stamp).
  { apply agree_for_each. intros [s ds]. apply agree_egress_policy. }
  intros eg1 eg2 Heg.
  apply agree_bind with (R := fun _ _ => True); [apply agree_set|].
  intros _ _ _. apply agree_ret.
  apply Forall2_same_but_stamp.
  constructor; [assumption|]. now apply Forall2_app.
Qed.

(** C6.  Up to the "generated-at" annotations, the outcome of [generate]
    depends on the intent alone: two calls on the same intent, under any
    two clocks and from any two states of the generator, raise the same
    exception or return lists of manifests that are equal once these
    annotations are removed.  So does a second call that follows a
    first one. *)
Theorem generate_deterministic_modulo_stamps (intent : Intent) :
  (forall w1 w2,
     modulo_stamps (fst (generate intent w1))
     = modulo_stamps (fst (generate intent w2))) /\
  (forall w,
     modulo_stamps (fst (generate intent (snd (generate intent w))))
     = modulo_stamps (fst (generate intent w))).
Proof.
  assert (H : forall w1 w2,
             modulo_stamps (fst (generate intent w1))
             = modulo_stamps (fst (generate intent w2))).
  { intros w1 w2. pose proof (agree_generate intent w1 w2) as H.
    destruct (fst (generate intent w1)) as [e1 | o1],
             (fst (generate intent w2)) as [e2 | o2];
      simpl in *; try contradiction; congruence. }
  split; [exact H | intro w; apply H].
Qed.

(* ================================================================= *)
(** ** The scenarios of the specification and the serializer *)

(** Scenario A: three manifests, with one ingress entry and one egress
    entry before the DNS entry, each on port 8080/TCP. *)
Example scenario_A_manifests :
  map (fun m => name (metadata m)) (run scenario_A)
  = ["default-deny-all"; "allow-ingress-to-backend";
     "allow-egress-from-frontend"] /\
  map ports (ingress_entries (at_position 1 (run scenario_A)))
  = [Some [ {| port := 8080; protocol := "TCP" |} ]] /\
  map ports (egress_entries (at_position 2 (run scenario_A)))
  = [Some [ {| port := 8080; protocol := "TCP" |} ]; ports dns_rule].
Proof. repeat split. Qed.

(** Scenario B: the ingress entry selects namespace "web". *)
Example scenario_B_selector :
  map peers (ingress_entries (at_position 1 (run scenario_B)))
  = [[ {| peer_app := "frontend"; namespaceSelector := Some (Is "web") |} ]].
Proof. reflexivity. Qed.

(** The documents of [to_yaml] are the dumps of the manifests, in order,
    with the separator line between two of them. *)
Lemma to_yaml_documents (dump : Manifest -> string) (m m' : Manifest)
      (ms : list Manifest) :
  to_yaml dump [] = "" /\
  to_yaml dump [m] = dump m /\
  to_yaml dump (m :: m' :: ms)
  = (dump m ++ separator ++ to_yaml dump (m' :: ms))%string.
Proof. repeat split. Qed.

(* ================================================================= *)
(** ** The runs of [generate], manifest by manifest *)

(** Every list that [generate] returns is the default-deny manifest, one
    run of [_generate_ingress_policy] per destination and one run of
    [_generate_egress_policy] per source. *)
Lemma generate_run (intent : Intent) (w w' : World) (out : list Manifest) :
  generate intent w = (inr out, w') ->
  exists deny ing eg,
    out = deny :: ing ++ eg /\
    (exists w1, _generate_default_deny (policy_namespace intent) w
                = (inr deny, w1)) /\
    Forall2 (fun d m =>
               exists w1 w2,
                 _generate_ingress_policy d (rules_to d (rules_of intent))
                   (policy_namespace intent)
                   (get (i_name intent) "generated") w1 = (inr m, w2))
            (first_seen (dests_of (rules_of intent))) ing /\
    Forall2 (fun s m =>
               exists w1 w2,
                 _generate_egress_policy s
                   (egress_dests (rules_from s (rules_of intent)))
                   (policy_namespace intent)
                   (get (i_name intent) "generated") w1 = (inr m, w2))
            (first_seen (sources_of (rules_of intent))) eg.
Proof.
  unfold generate. cbv zeta. intro H.
  fold (rules_of intent) (policy_namespace intent) in H.
  repeat step_run.
  unfold _extract_egress_rules in *.
  repeat match goal with H : group_into _ _ [] = inr _ |- _ =>
    rewrite group_into_empty in H end.
  destruct (rfor_each dest_entry (rules_of intent)) as [e | dkvs] eqn:Hd;
    [discriminate|].
  destruct (rfor_each egress_entry (rules_of intent)) as [e | skvs] eqn:Hs;
    [discriminate|].
  apply dest_entries_spec in Hd. destruct Hd as [Hdk Hdv].
  apply egress_entries_spec in Hs. destruct Hs as [Hsk Hsv].
  repeat match goal with H : inr _ = inr _ |- _ =>
    inversion H; clear H; subst end.
  repeat match goal with H : for_each _ _ _ = _ |- _ =>
    apply for_each_inr in H; unfold grouped in H;
    apply Forall2_map_left in H end.
  rewrite Hdk, Hsk in *.
  match goal with H : Forall2 _ (first_seen (dests_of _)) ?l |- _ =>
    rename H into Hing; set (ing := l) in * end.
  match goal with H : Forall2 _ (first_seen (sources_of _)) ?l |- _ =>
    rename H into Heg; set (eg := l) in * end.
  match goal with H : _generate_default_deny _ _ = (inr ?m, ?w1) |- _ =>
    exists m, ing, eg; split; [reflexivity|]; split; [now exists w1|] end.
  split.
  - revert Hing. apply Forall2_impl. intros d m (w1 & w2 & Hm).
    exists w1, w2. now rewrite <- Hdv.
  - revert Heg. apply Forall2_impl. intros s m (w1 & w2 & Hm).
    exists w1, w2. now rewrite <- Hsv.
Qed.

(** What a run of each of the three builders puts in the metadata. *)
Lemma default_deny_meta (ns : nullable string) (w w' : World) (m : Manifest) :
  _generate_default_deny ns w = (inr m, w') ->
  apiVersion m = "networking.k8s.io/v1" /\ kind m = "NetworkPolicy" /\
  name (metadata m) = "default-deny-all" /\
  namespace (metadata m) = ns /\
  labels (metadata m) = [managed_by; ("policy-type", "default-deny")].
Proof.
  unfold _generate_default_deny. intro H. repeat step_run.
  repeat split.
Qed.

Lemma ingress_policy_meta (d : string) (rules : list ServiceRule)
      (ns : nullable string) (nm : string) (w w' : World) (m : Manifest) :
  _generate_ingress_policy d rules ns nm w = (inr m, w') ->
  apiVersion m = "networking.k8s.io/v1" /\ kind m = "NetworkPolicy" /\
  name (metadata m) = ("allow-ingress-to-" ++ d)%string /\
  namespace (metadata m) = ns /\
  labels (metadata m) = [managed_by; ("policy-type", "ingress");
                         ("target-service", d); ("intent", nm)] /\
  exists stamp,
    annotations (metadata m)
    = [("description", ("Allow ingress traffic to " ++ d)%string);
       ("generated-at", stamp);
       ("allowed-sources", join "," (sources_of rules))].
Proof.
  unfold _generate_ingress_policy. intro H. repeat step_run.
  repeat split. eexists. simpl. repeat f_equal.
  match goal with H : rfor_each (ingress_rule_of _) _ = inr _ |- _ =>
    clear H end.
  match goal with H : rfor_each _ rules = inr ?fs |- _ =>
    revert fs H end.
  unfold sources_of. induction rules as [|r rules IH]; simpl; intros fs H.
  - now inversion H.
  - destruct (r_from r) as [f|]; simpl in H; [|discriminate].
    destruct (rfor_each _ rules) as [e | fs']; simpl in H; [discriminate|].
    inversion H. simpl. f_equal. now apply IH.
Qed.

Lemma egress_policy_meta (s : string) (rs : list ServiceRule)
      (ns : nullable string) (nm : string) (w w' : World) (m : Manifest) :
  _generate_egress_policy s (egress_dests rs) ns nm w = (inr m, w') ->
  forallb has_endpoints rs = true ->
  apiVersion m = "networking.k8s.io/v1" /\ kind m = "NetworkPolicy" /\
  name (metadata m) = ("allow-egress-from-" ++ s)%string /\
  namespace (metadata m) = ns /\
  labels (metadata m) = [managed_by; ("policy-type", "egress");
                         ("source-service", s); ("intent", nm)] /\
  exists stamp,
    annotations (metadata m)
    = [("description", ("Allow egress traffic from " ++ s)%string);
       ("generated-at", stamp);
       ("allowed-destinations", join "," (dests_of rs))].
Proof.
  unfold _generate_egress_policy. intros H He. repeat step_run.
  repeat split. eexists. simpl. repeat f_equal.
  match goal with H : rfor_each (egress_rule_of _) _ = inr _ |- _ =>
    clear H end.
  match goal with H : rfor_each _ (egress_dests rs) = inr ?ts |- _ =>
    revert ts H end.
  unfold dests_of, egress_dests, has_endpoints in *.
  induction rs as [|r rs IH]; simpl; intros ts H.
  - now inversion H.
  - simpl in He. apply andb_true_iff in He. destruct He as [Hr He].
    destruct (r_to r) as [t|]; [|now rewrite andb_false_r in Hr].
    simpl in H.
    destruct (rfor_each _ (flat_map _ rs)) as [e | ts']; simpl in H;
      [discriminate|].
    inversion H. simpl. f_equal. now apply IH.
Qed.

(* ================================================================= *)
(** ** Further properties of the generated manifests *)

(** X1.  Every source named in the rules is targeted by exactly one
    egress manifest of the output; its entries are one per rule of that
    source, in the order of the rules, each selecting the rule's
    destination, and then the DNS entry. *)
Theorem egress_one_entry_per_rule (intent : Intent) (w : World)
        (out : list Manifest) (s : string) :
  fst (generate intent w) = inr out ->
  In s (sources_of (rules_of intent)) ->
  exists m user,
    egress_manifests_from s out = [m] /\
    egress_entries m = user ++ [dns_rule] /\
    List.length user = List.length (rules_from s (rules_of intent)) /\
    peer_names user = dests_of (rules_from s (rules_of intent)).
Proof.
  intros Hgen Hs. apply run_fst in Hgen. destruct Hgen as [w' Hgen].
  apply generate_shape in Hgen.
  destruct Hgen as (deny & ing & eg & -> & [Hdeny _] & Hing & Heg & Hends).
  destruct (@filter_key_unique (egress_policy_for intent)
              (fun m => is_egress m && targets s m) s _ _ Heg)
    as (m & Hm & HR).
  - intros k m H. apply egress_policy_tests in H.
    destruct H as (Hsel & He & _). unfold targets. now rewrite He, Hsel.
  - apply first_seen_NoDup.
  - now apply first_seen_In.
  - destruct HR as (es & Hes & Hs' & _).
    exists m, es. unfold egress_manifests_from. simpl.
    replace (is_egress deny) with false
      by (unfold is_egress; now rewrite Hdeny).
    simpl. rewrite filter_app, Hm.
    rewrite (@filter_none _ _ ing).
    + unfold egress_entries. rewrite Hs'. simpl.
      pose proof Hes as Hes'.
      apply egress_rules_inv in Hes'; [|now apply forallb_filter].
      destruct Hes' as (Hports & Hnames & _).
      repeat split; try assumption.
      rewrite <- (length_map ports es), Hports. apply length_map.
    + intros m' Hm'.
      destruct (@Forall2_In_right _ _ _ _ _ _ Hing Hm') as (k & _ & H).
      apply ingress_policy_tests in H. destruct H as (_ & _ & H & _).
      now rewrite H.
Qed.

Lemma egress_one_entry_per_rule_witness :
  exists m user,
    egress_manifests_from "frontend" (run dns_intent) = [m] /\
    egress_entries m = user ++ [dns_rule] /\
    List.length user
    = List.length (rules_from "frontend" (rules_of dns_intent)) /\
    peer_names user = dests_of (rules_from "frontend" (rules_of dns_intent)).
Proof.
  apply (@egress_one_entry_per_rule dns_intent (fresh "2024-01-01T00:00:00")).
  - reflexivity.
  - simpl. auto.
Defined.

Lemma manifest_count_of_run (intent : Intent) (w w' : World)
      (out : list Manifest) :
  generate intent w = (inr out, w') ->
  List.length out
  = 1 + List.length (first_seen (dests_of (rules_of intent)))
      + List.length (first_seen (sources_of (rules_of intent))).
Proof.
  intro Hgen. apply generate_shape in Hgen.
  destruct Hgen as (deny & ing & eg & -> & _ & Hing & Heg & _).
  apply Forall2_length in Hing, Heg. simpl. rewrite length_app. lia.
Qed.

(** X2.  The output holds one manifest more than there are distinct
    destinations and distinct sources in the rules. *)
Theorem generate_manifest_count (intent : Intent) (w : World)
        (out : list Manifest) :
  fst (generate intent w) = inr out ->
  List.length out
  = 1 + List.length (first_seen (dests_of (rules_of intent)))
      + List.length (first_seen (sources_of (rules_of intent))).
Proof.
  intro Hgen. apply run_fst in Hgen. destruct Hgen as [w' Hgen].
  exact (@manifest_count_of_run intent w w' out Hgen).
Qed.

Lemma generate_manifest_count_witness :
  List.length (run dns_intent)
  = 1 + List.length (first_seen (dests_of (rules_of dns_intent)))
      + List.length (first_seen (sources_of (rules_of dns_intent))).
Proof.
  apply (@generate_manifest_count dns_intent (fresh "2024-01-01T00:00:00")).
  reflexivity.
Defined.







(** Every manifest of the output comes from one run of a builder. *)
Lemma generate_member_run (intent : Intent) (w w' : World)
      (out : list Manifest) (m : Manifest) :
  generate intent w = (inr out, w') ->
  In m out ->
  (exists w1 w2, _generate_default_deny (policy_namespace intent) w1
                 = (inr m, w2)) \/
  (exists d w1 w2,
      _generate_ingress_policy d (rules_to d (rules_of intent))
        (policy_namespace intent) (get (i_name intent) "generated") w1
      = (inr m, w2)) \/
  (exists s w1 w2,
      forallb has_endpoints (rules_from s (rules_of intent)) = true /\
      _generate_egress_policy s
        (egress_dests (rules_from s (rules_of intent)))
        (policy_namespace intent) (get (i_name intent) "generated") w1
      = (inr m, w2)).
Proof.
  intros Hgen Hin.
  pose proof (@generate_shape intent w w' out Hgen)
    as (_ & _ & _ & _ & _ & _ & _ & Hends).
  apply generate_run in Hgen.
  destruct Hgen as (deny & ing & eg & -> & [w1 Hdeny] & Hing & Heg).
  destruct Hin as [<- | Hin]; [left; eauto|].
  right. apply in_app_or in Hin. destruct Hin as [Hin | Hin].
  - left. destruct (@Forall2_In_right _ _ _ _ _ _ Hing Hin)
      as (d & _ & w2 & w3 & Hm). eauto.
  - right. destruct (@Forall2_In_right _ _ _ _ _ _ Heg Hin)
      as (s & _ & w2 & w3 & Hm).
    exists s, w2, w3. split; [now apply forallb_filter | assumption].
Qed.

(** X4.  Every manifest of the output is a NetworkPolicy of API version
    networking.k8s.io/v1, carries the managed-by label and lives in the
    intent's namespace ("default" when the intent names none), also when
    its rules name other namespaces. *)
Theorem manifests_in_policy_namespace (intent : Intent) (w : World)
        (out : list Manifest) (m : Manifest) :
  fst (generate intent w) = inr out ->
  In m out ->
  namespace (metadata m) = policy_namespace intent /\
  apiVersion m = "networking.k8s.io/v1" /\
  kind m = "NetworkPolicy" /\
  label "app.kubernetes.io/managed-by" m = Some "k8s-policy-generator".
Proof.
  intros Hgen Hin. apply run_fst in Hgen. destruct Hgen as [w' Hgen].
  unfold label.
  destruct (@generate_member_run intent w w' out m Hgen Hin)
    as [(w1 & w2 & H) | [(d & w1 & w2 & H) | (s & w1 & w2 & He & H)]].
  - apply default_deny_meta in H. destruct H as (-> & -> & _ & -> & ->).
    repeat split.
  - apply ingress_policy_meta in H.
    destruct H as (-> & -> & _ & -> & -> & _). repeat split.
  - apply egress_policy_meta in H; [|assumption].
    destruct H as (-> & -> & _ & -> & -> & _). repeat split.
Qed.

Lemma manifests_in_policy_namespace_witness :
  namespace (metadata (at_position 1 (run scenario_B)))
  = policy_namespace scenario_B /\
  apiVersion (at_position 1 (run scenario_B)) = "networking.k8s.io/v1" /\
  kind (at_position 1 (run scenario_B)) = "NetworkPolicy" /\
  label "app.kubernetes.io/managed-by" (at_position 1 (run scenario_B))
  = Some "k8s-policy-generator".
Proof.
  apply (@manifests_in_policy_namespace scenario_B
           (fresh "2024-01-01T00:00:00") (run scenario_B)).
  - reflexivity.
  - vm_compute. tauto.
Defined.

Lemma peer_names_app (es es' : list RuleEntry) :
  peer_names (es ++ es') = (peer_names es ++ peer_names es')%list.
Proof. unfold peer_names. now rewrite flat_map_app, map_app. Qed.

(** X5.  The traceability metadata agrees with the entries: an ingress
    manifest is labelled with its destination and with the intent's name
    ("generated" when the intent has none), and its annotation
    "allowed-sources" is the comma-joined list of the peers of its
    entries, in order; an egress manifest is labelled with its source,
    and its annotation "allowed-destinations" lists the peers of its
    entries likewise. *)
Theorem traceability_metadata (intent : Intent) (w : World)
        (out : list Manifest) (m : Manifest) (k : string) :
  fst (generate intent w) = inr out ->
  In m out ->
  targets k m = true ->
  label "intent" m = Some (get (i_name intent) "generated") /\
  (is_ingress m = true ->
   label "target-service" m = Some k /\
   annotation "allowed-sources" m
   = Some (join "," (peer_names (ingress_entries m)))) /\
  (is_egress m = true ->
   label "source-service" m = Some k /\
   annotation "allowed-destinations" m
   = Some (join "," (peer_names (egress_entries m)))).
Proof.
  intros Hgen Hin Hk. apply run_fst in Hgen. destruct Hgen as [w' Hgen].
  unfold label, annotation.
  destruct (@generate_member_run intent w w' out m Hgen Hin)
    as [(w1 & w2 & H) | [(d & w1 & w2 & H) | (s & w1 & w2 & He & H)]].
  - apply default_deny_inv in H. destruct H as [H _].
    unfold targets in Hk. rewrite H in Hk. discriminate.
  - pose proof (@ingress_policy_inv _ _ _ _ _ _ _ H) as (es & Hes & Hs & _).
    apply ingress_policy_meta in H.
    destruct H as (_ & _ & _ & _ & -> & stamp & ->).
    unfold targets in Hk. rewrite Hs in Hk. simpl in Hk.
    apply String.eqb_eq in Hk. subst d.
    split; [reflexivity|]. split.
    + intros _. split; [reflexivity|].
      unfold ingress_entries. rewrite Hs. simpl.
      apply ingress_rules_inv in Hes. destruct Hes as [_ ->]. reflexivity.
    + unfold is_egress. rewrite Hs. discriminate.
  - pose proof (@egress_policy_inv _ _ _ _ _ _ _ H) as (es & Hes & Hs & _).
    apply egress_policy_meta in H; [|assumption].
    destruct H as (_ & _ & _ & _ & -> & stamp & ->).
    unfold targets in Hk. rewrite Hs in Hk. simpl in Hk.
    apply String.eqb_eq in Hk. subst s.
    split; [reflexivity|]. split.
    + unfold is_ingress. rewrite Hs. discriminate.
    + intros _. split; [reflexivity|].
      unfold egress_entries. rewrite Hs. simpl.
      apply egress_rules_inv in Hes; [|assumption].
      destruct Hes as (_ & Hn & _).
      rewrite peer_names_app, Hn. simpl. now rewrite app_nil_r.
Qed.

Lemma traceability_metadata_witness :
  label "intent" (at_position 1 (run two_port_rules))
  = Some (get (i_name two_port_rules) "generated") /\
  (is_ingress (at_position 1 (run two_port_rules)) = true ->
   label "target-service" (at_position 1 (run two_port_rules))
   = Some "backend" /\
   annotation "allowed-sources" (at_position 1 (run two_port_rules))
   = Some (join "," (peer_names
                       (ingress_entries
                          (at_position 1 (run two_port_rules)))))) /\
  (is_egress (at_position 1 (run two_port_rules)) = true ->
   label "source-service" (at_position 1 (run two_port_rules))
   = Some "backend" /\
   annotation "allowed-destinations" (at_position 1 (run two_port_rules))
   = Some (join "," (peer_names
                       (egress_entries
                          (at_position 1 (run two_port_rules)))))).
Proof.
  apply (@traceability_metadata two_port_rules
           (fresh "2024-01-01T00:00:00") (run two_port_rules)).
  - reflexivity.
  - vm_compute. tauto.
  - reflexivity.
Defined.

(** X6.  On an intent without rules, the key missing or the list empty,
    [generate] returns the default-deny manifest alone. *)
Theorem generate_without_rules (intent : Intent) (w : World) :
  rules_of intent = [] ->
  exists deny,
    fst (generate intent w) = inr [deny] /\
    is_default_deny deny = true /\
    namespace (metadata deny) = policy_namespace intent.
Proof.
  intro H. unfold generate. cbv zeta.
  fold (rules_of intent) (policy_namespace intent). rewrite H.
  eexists. split; [reflexivity|]. split; reflexivity.
Qed.

Lemma generate_without_rules_witness :
  exists deny,
    fst (generate {| i_name := None; i_namespace := Some (Is "prod");
                     i_rules := None |} (fresh "2024-01-01T00:00:00"))
    = inr [deny] /\
    is_default_deny deny = true /\
    namespace (metadata deny)
    = policy_namespace {| i_name := None; i_namespace := Some (Is "prod");
                          i_rules := None |}.
Proof.
  apply generate_without_rules. reflexivity.
Defined.

(* ================================================================= *)
(** ** Peers of the entries *)

Lemma ingress_rules_peers (ns : nullable string) (rs : list ServiceRule) :
  forall es,
    rfor_each (ingress_rule_of ns) rs = inr es ->
    Forall2 (fun r e =>
               peers e = [selector_of (source_of r) (get (r_namespace r) ns) ns])
            rs es.
Proof.
  intros es H. apply rfor_each_inr in H. revert H. apply Forall2_impl.
  intros r e H. apply ingress_rule_inv in H.
  destruct H as (f & Hf & Hp & _). unfold source_of. now rewrite Hf.
Qed.

Lemma egress_rules_peers (ns : nullable string) (rs : list ServiceRule) :
  forall es,
    forallb has_endpoints rs = true ->
    rfor_each (egress_rule_of ns) (egress_dests rs) = inr es ->
    Forall2 (fun r e =>
               peers e = [selector_of (dest_of r)
                            (get (r_namespace r) (Is "default")) ns])
            rs es.
Proof.
  unfold has_endpoints, dest_of.
  induction rs as [|r rs IH]; simpl; intros es Hall H.
  - inversion H. constructor.
  - apply andb_true_iff in Hall. destruct Hall as [Hr Hall].
    destruct (r_to r) as [t|] eqn:Ht; [|now rewrite andb_false_r in Hr].
    simpl in H.
    destruct (egress_rule_of ns (egress_dest t r)) as [x | e] eqn:E;
      simpl in H; [discriminate|].
    destruct (rfor_each (egress_rule_of ns) (egress_dests rs))
      as [x | es'] eqn:Es; simpl in H; [discriminate|].
    inversion H. subst. apply egress_rule_inv in E. destruct E as [Hp _].
    constructor; [now rewrite Ht | now apply IH].
Qed.

(** X7.  In the ingress manifest of a destination, the entry of every
    rule has one peer, the rule's source, and that peer has a namespace
    selector exactly when the rule's namespace, the intent's when the
    rule names none, differs from the policy's; the selector then names
    the rule's namespace. *)
Theorem ingress_peers (intent : Intent) (w : World) (out : list Manifest)
        (m : Manifest) (d : string) :
  fst (generate intent w) = inr out ->
  In m out -> is_ingress m = true -> targets d m = true ->
  Forall2 (fun r e =>
             exists sel,
               peers e = [sel] /\
               peer_app sel = source_of r /\
               (namespaceSelector sel <> None <->
                resolved_namespace intent r <> policy_namespace intent) /\
               (forall x, namespaceSelector sel = Some x ->
                          x = resolved_namespace intent r))
          (rules_to d (rules_of intent)) (ingress_entries m).
Proof.
  intros Hgen Hin Hkind Hd. apply run_fst in Hgen.
  destruct Hgen as [w' Hgen].
  destruct (@generate_member intent w w' out m Hgen Hin)
    as [[Hs _] | [(d' & _ & Hm) | (s & _ & Hm)]].
  - unfold is_ingress in Hkind. rewrite Hs in Hkind. discriminate.
  - destruct Hm as (es & Hes & Hs & _).
    unfold targets in Hd. rewrite Hs in Hd. simpl in Hd.
    apply String.eqb_eq in Hd. subst d'.
    unfold ingress_entries. rewrite Hs. simpl.
    apply ingress_rules_peers in Hes. revert Hes. apply Forall2_impl.
    intros r e Hp. eexists. split; [exact Hp|].
    split; [reflexivity|]. split; [apply selector_of_namespace|].
    unfold selector_of, resolved_namespace. simpl. intros x Hx.
    destruct (negb _); now inversion Hx.
  - apply egress_policy_tests in Hm. destruct Hm as (_ & _ & Hm & _).
    congruence.
Qed.

Lemma ingress_peers_witness :
  Forall2 (fun r e =>
             exists sel,
               peers e = [sel] /\
               peer_app sel = source_of r /\
               (namespaceSelector sel <> None <->
                resolved_namespace scenario_B r
                <> policy_namespace scenario_B) /\
               (forall x, namespaceSelector sel = Some x ->
                          x = resolved_namespace scenario_B r))
          (rules_to "backend" (rules_of scenario_B))
          (ingress_entries (at_position 1 (run scenario_B))).
Proof.
  apply (@ingress_peers scenario_B (fresh "2024-01-01T00:00:00")
                        (run scenario_B)).
  - reflexivity.
  - vm_compute. tauto.
  - reflexivity.
  - reflexivity.
Defined.

(** X8.  In the egress manifest of a source, the entry of every rule has
    one peer, the rule's destination.  When every rule names its
    namespace, or the intent lives in "default", that peer has a
    namespace selector exactly when the rule's namespace differs from
    the policy's, as in the ingress manifest of the same rule. *)
Theorem egress_peers (intent : Intent) (w : World) (out : list Manifest)
        (m : Manifest) (s : string) :
  fst (generate intent w) = inr out ->
  In m out -> is_egress m = true -> targets s m = true ->
  exists user,
    egress_entries m = user ++ [dns_rule] /\
    Forall2 (fun r e =>
               exists sel,
                 peers e = [sel] /\
                 peer_app sel = dest_of r /\
                 (contains (r_namespace r) = true \/
                  policy_namespace intent = Is "default" ->
                  (namespaceSelector sel <> None <->
                   resolved_namespace intent r <> policy_namespace intent) /\
                  (forall x, namespaceSelector sel = Some x ->
                             x = resolved_namespace intent r)))
            (rules_from s (rules_of intent)) user.
Proof.
  intros Hgen Hin Hkind Hd. apply run_fst in Hgen.
  destruct Hgen as [w' Hgen].
  pose proof (@generate_shape intent w w' out Hgen)
    as (_ & _ & _ & _ & _ & _ & _ & Hends).
  destruct (@generate_member intent w w' out m Hgen Hin)
    as [[Hs _] | [(d & _ & Hm) | (s' & _ & Hm)]].
  - unfold is_egress in Hkind. rewrite Hs in Hkind. discriminate.
  - apply ingress_policy_tests in Hm. destruct Hm as (_ & _ & Hm & _).
    congruence.
  - destruct Hm as (es & Hes & Hs & _).
    unfold targets in Hd. rewrite Hs in Hd. simpl in Hd.
    apply String.eqb_eq in Hd. subst s'.
    exists es. unfold egress_entries. rewrite Hs. simpl.
    split; [reflexivity|].
    apply egress_rules_peers in Hes; [|now apply forallb_filter].
    revert Hes. apply Forall2_impl.
    intros r e Hp. eexists. split; [exact Hp|].
    split; [reflexivity|]. intro Hns.
    assert (E : get (r_namespace r) (Is "default")
                = resolved_namespace intent r).
    { unfold resolved_namespace.
      destruct Hns as [Hns | Hns]; [|now rewrite Hns].
      destruct (r_namespace r); [reflexivity | discriminate]. }
    rewrite E. split; [apply selector_of_namespace|].
    unfold selector_of. simpl. intros x Hx.
    destruct (negb _); now inversion Hx.
Qed.

Lemma egress_peers_witness :
  exists user,
    egress_entries (at_position 2 (run scenario_B)) = user ++ [dns_rule] /\
    Forall2 (fun r e =>
               exists sel,
                 peers e = [sel] /\
                 peer_app sel = dest_of r /\
                 (contains (r_namespace r) = true \/
                  policy_namespace scenario_B = Is "default" ->
                  (namespaceSelector sel <> None <->
                   resolved_namespace scenario_B r
                   <> policy_namespace scenario_B) /\
                  (forall x, namespaceSelector sel = Some x ->
                             x = resolved_namespace scenario_B r)))
            (rules_from "frontend" (rules_of scenario_B)) user.
Proof.
  apply (@egress_peers scenario_B (fresh "2024-01-01T00:00:00")
                       (run scenario_B)).
  - reflexivity.
  - vm_compute. tauto.
  - reflexivity.
  - reflexivity.
Defined.

(* ================================================================= *)
(** ** Failures of [generate] *)

Lemma fails_bind {A B : Type} (e : exn) (m : M A) (k : A -> M B) :
  fails e m -> fails e (bind m k).
Proof.
  intros H w. specialize (H w). unfold bind.
  destruct (m w) as [[e' | a] w1]; simpl in *; [|discriminate].
  inversion H. reflexivity.
Qed.

Lemma fails_bind_returns {A B : Type} (e : exn) (P : A -> Prop)
      (m : M A) (k : A -> M B) :
  returns P m -> (forall a, P a -> fails e (k a)) -> fails e (bind m k).
Proof.
  intros Hm Hk w. destruct (Hm w) as (a & w1 & Hrun & Ha).
  unfold bind. rewrite Hrun. now apply Hk.
Qed.

Lemma fails_only_bind {A B : Type} (e : exn) (m : M A) (k : A -> M B) :
  fails_only e m -> (forall a, fails_only e (k a)) ->
  fails_only e (bind m k).
Proof.
  intros Hm Hk w. specialize (Hm w). unfold bind.
  destruct (m w) as [[e' | a] w1]; simpl in *; [assumption | apply Hk].
Qed.

Lemma fails_only_lift {A : Type} (e : exn) (r : result A) :
  (forall e', r = inl e' -> e' = e) -> fails_only e (lift r).
Proof. intros H w. simpl. destruct r; auto. Qed.

Lemma for_each_fails {A B : Type} (e : exn) (body : A -> M B) (l : list A) :
  (forall x, In x l -> fails_only e (body x)) ->
  (exists x, In x l /\ fails e (body x)) ->
  fails e (for_each body l).
Proof.
  induction l as [|x l IH]; simpl; intros Honly (x0 & Hin & Hx0) w;
    [contradiction|].
  unfold bind at 1. pose proof (Honly x (or_introl eq_refl) w) as Hx.
  destruct (body x w) as [[e' | y] w1] eqn:E; simpl in *.
  - now subst.
  - assert (Hl : fails e (for_each body l)).
    { apply IH; [auto|]. destruct Hin as [-> | Hin]; [|eauto].
      specialize (Hx0 w). rewrite E in Hx0. discriminate. }
    apply (fails_bind (fun ys => ret (y :: ys)) Hl).
Qed.

Lemma rfor_each_fails {A B : Type} (e : exn) (f : A -> result B)
      (l : list A) :
  (forall x e', In x l -> f x = inl e' -> e' = e) ->
  (exists x, In x l /\ f x = inl e) ->
  rfor_each f l = inl e.
Proof.
  induction l as [|x l IH]; simpl; intros Honly (x0 & Hin & Hx0);
    [contradiction|].
  destruct (f x) as [e' | y] eqn:E; simpl.
  - f_equal. apply (Honly x e'); [now left | assumption].
  - rewrite IH; [reflexivity | |].
    + intros x1 e1 H1. apply Honly. now right.
    + destruct Hin as [-> | Hin]; [congruence | eauto].
Qed.

Lemma rfor_each_fails_only {A B : Type} (e : exn) (f : A -> result B)
      (l : list A) :
  (forall x e', In x l -> f x = inl e' -> e' = e) ->
  forall e', rfor_each f l = inl e' -> e' = e.
Proof.
  induction l as [|x l IH]; simpl; intros Honly e' H; [discriminate|].
  destruct (f x) as [e1 | y] eqn:E; simpl in H.
  - inversion H. subst. apply (Honly x e'); [now left | assumption].
  - destruct (rfor_each f l) as [e2 | ys] eqn:El; simpl in H;
      [|discriminate].
    inversion H. subst. apply IH; [|reflexivity].
    intros x1 e1 H1. apply Honly. now right.
Qed.

(** X9.  When some rule has no "to", [generate] raises [KeyError] for
    "to", whatever the other rules are. *)
Theorem generate_missing_to (intent : Intent) (w : World) :
  existsb (fun r => negb (contains (r_to r))) (rules_of intent) = true ->
  fst (generate intent w) = inl (KeyError "to").
Proof.
  intro H. unfold generate. cbv zeta. fold (rules_of intent).
  rewrite group_into_empty.
  assert (E : rfor_each dest_entry (rules_of intent) = inl (KeyError "to")).
  { apply existsb_exists in H. destruct H as (r & Hr & Hto).
    apply rfor_each_fails.
    - intros x e' _. unfold dest_entry. destruct (r_to x); simpl; congruence.
    - exists r. split; [assumption|]. unfold dest_entry.
      destruct (r_to r); [discriminate | reflexivity]. }
  rewrite E. reflexivity.
Qed.

Lemma generate_missing_to_witness :
  fst (generate {| i_name := None; i_namespace := None;
                   i_rules := Some [ {| r_from := None; r_to := Some "b";
                                        r_ports := None; r_protocols := None;
                                        r_namespace := None |};
                                     {| r_from := Some "a"; r_to := None;
                                        r_ports := None; r_protocols := None;
                                        r_namespace := None |} ] |}
                (fresh "2024-01-01T00:00:00"))
  = inl (KeyError "to").
Proof.
  apply generate_missing_to. reflexivity.
Defined.

Lemma ingress_rule_fails_only (ns : nullable string) (r : ServiceRule)
      (e : exn) :
  protocols_iterable r = true ->
  ingress_rule_of ns r = inl e -> e = KeyError "from".
Proof.
  unfold protocols_iterable, ingress_rule_of. intros Hp H.
  destruct (r_from r) as [f|]; simpl in H; [|congruence].
  exfalso. destruct (get_none (r_ports r)) as [|[|p ps]];
    cbn [truthy iter rbind] in H; try discriminate.
  simpl in Hp. destruct (get (r_protocols r) (Is ["TCP"])) as [|protos];
    [discriminate|].
  rewrite expand_ports_spec in H. discriminate.
Qed.

Lemma ingress_policy_fails_only (d : string) (rs : list ServiceRule)
      (ns : nullable string) (nm : string) :
  forallb protocols_iterable rs = true ->
  fails_only (KeyError "from") (_generate_ingress_policy d rs ns nm).
Proof.
  rewrite forallb_forall. intro Hp. unfold _generate_ingress_policy.
  apply fails_only_bind.
  - apply fails_only_lift. apply rfor_each_fails_only.
    intros r e' Hr. apply ingress_rule_fails_only. auto.
  - intros es. apply fails_only_bind; [intro w; exact I|].
    intros stamp. apply fails_only_bind.
    + apply fails_only_lift. apply rfor_each_fails_only.
      intros r e' _. destruct (r_from r); simpl; congruence.
    + intros fs w. exact I.
Qed.

Lemma ingress_policy_fails (d : string) (rs : list ServiceRule)
      (ns : nullable string) (nm : string) :
  forallb protocols_iterable rs = true ->
  existsb (fun r => negb (contains (r_from r))) rs = true ->
  fails (KeyError "from") (_generate_ingress_policy d rs ns nm).
Proof.
  intros Hp Hex. unfold _generate_ingress_policy. apply fails_bind.
  intro w. simpl. apply rfor_each_fails.
  - rewrite forallb_forall in Hp. intros r e' Hr.
    apply ingress_rule_fails_only. auto.
  - apply existsb_exists in Hex. destruct Hex as (r & Hr & Hfrom).
    exists r. split; [assumption|]. unfold ingress_rule_of.
    destruct (r_from r); [discriminate | reflexivity].
Qed.

(** X10.  When every rule has its "to", some rule has no "from" and no
    rule pairs a non-empty port list with [None] protocols, [generate]
    raises [KeyError] for "from". *)
Theorem generate_missing_from (intent : Intent) (w : World) :
  forallb (fun r => contains (r_to r)) (rules_of intent) = true ->
  existsb (fun r => negb (contains (r_from r))) (rules_of intent) = true ->
  forallb protocols_iterable (rules_of intent) = true ->
  fst (generate intent w) = inl (KeyError "from").
Proof.
  intros Hto Hfrom Hp. revert w. change (fails (KeyError "from") (generate intent)).
  unfold generate. cbv zeta.
  fold (rules_of intent) (policy_namespace intent).
  rewrite group_into_empty.
  destruct (@rfor_each_total _ _ dest_entry (rules_of intent)) as [dkvs Hd].
  { intros r Hr. rewrite forallb_forall in Hto. specialize (Hto r Hr).
    unfold dest_entry. destruct (r_to r); [simpl; eauto | discriminate]. }
  rewrite Hd. destruct (dest_entries_spec _ Hd) as [Hdk Hdv].
  apply fails_bind_returns with (P := fun _ => True);
    [apply default_deny_returns|].
  intros deny _.
  apply fails_bind_returns with (P := fun x => x = grouped dkvs);
    [now apply returns_lift with (grouped dkvs)|].
  intros ? ->. apply fails_bind. apply for_each_fails.
  - intros [d rs] Hin. unfold grouped in Hin.
    apply in_map_iff in Hin. destruct Hin as (k & Hk & _).
    inversion Hk. subst. rewrite Hdv.
    apply ingress_policy_fails_only. now apply forallb_filter.
  - apply existsb_exists in Hfrom. destruct Hfrom as (r & Hr & Hr').
    assert (Ht : exists t, r_to r = Some t).
    { rewrite forallb_forall in Hto. specialize (Hto r Hr).
      destruct (r_to r); [eauto | discriminate]. }
    destruct Ht as [t Ht].
    exists (t, values_of t dkvs). split.
    + unfold grouped. apply in_map_iff. exists t. split; [reflexivity|].
      rewrite Hdk. apply first_seen_In. unfold dests_of.
      apply in_flat_map. exists r. split; [assumption|].
      rewrite Ht. simpl. auto.
    + rewrite Hdv. apply ingress_policy_fails; [now apply forallb_filter|].
      apply existsb_exists. exists r. split; [|assumption].
      unfold rules_to. apply filter_In. split; [assumption|].
      unfold to_is. rewrite Ht. apply String.eqb_refl.
Qed.

Lemma generate_missing_from_witness :
  fst (generate {| i_name := None; i_namespace := None;
                   i_rules := Some [ simple_rule "a" "b" None;
                                     {| r_from := None; r_to := Some "b";
                                        r_ports := Some (Is [80%Z]);
                                        r_protocols := None;
                                        r_namespace := None |} ] |}
                (fresh "2024-01-01T00:00:00"))
  = inl (KeyError "from").
Proof.
  apply generate_missing_from; reflexivity.
Defined.

(* ================================================================= *)
(** ** The attribute [generated_policies] *)

Lemma keeps_ret {A : Type} (a : A) : keeps (ret a).
Proof. intro w. reflexivity. Qed.

Lemma keeps_lift {A : Type} (r : result A) : keeps (lift r).
Proof. intro w. reflexivity. Qed.

Lemma keeps_now : keeps now_isoformat.
Proof. intro w. reflexivity. Qed.

Lemma keeps_bind {A B : Type} (m : M A) (k : A -> M B) :
  keeps m -> (forall a, keeps (k a)) -> keeps (bind m k).
Proof.
  intros Hm Hk w. specialize (Hm w). unfold bind.
  destruct (m w) as [[e | a] w1]; simpl in *; [assumption|].
  rewrite (Hk a w1). assumption.
Qed.

Lemma keeps_for_each {A B : Type} (body : A -> M B) (l : list A) :
  (forall x, keeps (body x)) -> keeps (for_each body l).
Proof.
  intro H. induction l as [|x l IH]; simpl; [apply keeps_ret|].
  apply keeps_bind; [apply H|]. intro y.
  apply keeps_bind; [apply IH|]. intro ys. apply keeps_ret.
Qed.

Lemma stores_bind_keeps {A : Type} (m : M A) (k : A -> M (list Manifest)) :
  keeps m -> (forall a, stores (k a)) -> stores (bind m k).
Proof.
  intros Hm Hk w. specialize (Hm w). unfold bind.
  destruct (m w) as [[e | a] w1]; simpl in *; [assumption|].
  specialize (Hk a w1). destruct (fst (k a w1)); congruence.
Qed.

(** X11.  A call of [generate] that returns leaves its result in
    [self.generated_policies]; a call that raises leaves the attribute
    as it was. *)
Theorem generate_stores_result (intent : Intent) (w : World) :
  match fst (generate intent w) with
  | inr out => generated_policies (snd (generate intent w)) = out
  | inl _ =>
      generated_policies (snd (generate intent w)) = generated_policies w
  end.
Proof.
  revert w. change (stores (generate intent)). unfold generate. cbv zeta.
  apply stores_bind_keeps.
  { unfold _generate_default_deny.
    apply keeps_bind; [apply keeps_now | intro; apply keeps_ret]. }
  intro deny. apply stores_bind_keeps; [apply keeps_lift|].
  intro rules_by_dest. apply stores_bind_keeps.
  { apply keeps_for_each. intros [d rs]. unfold _generate_ingress_policy.
    apply keeps_bind; [apply keeps_lift|]. intro.
    apply keeps_bind; [apply keeps_now|]. intro.
    apply keeps_bind; [apply keeps_lift|]. intro. apply keeps_ret. }
  intro ing. apply stores_bind_keeps; [apply keeps_lift|].
  intro egress_rules. apply stores_bind_keeps.
  { apply keeps_for_each. intros [s ds]. unfold _generate_egress_policy.
    apply keeps_bind; [apply keeps_lift|]. intro.
    apply keeps_bind; [apply keeps_now|]. intro.
    apply keeps_bind; [apply keeps_lift|]. intro. apply keeps_ret. }
  intros eg w. reflexivity.
Qed.

(* ================================================================= *)
(** ** Further properties of the validator *)

Lemma validate_rules_flat (rules : list ServiceRule) :
  forall i errs warns,
    validate_rules i rules errs warns
    = (errs ++ flat_map (fun ir => fst (validate_rule (fst ir) (snd ir)))
                        (indexed_from i rules),
       warns ++ flat_map (fun ir => snd (validate_rule (fst ir) (snd ir)))
                         (indexed_from i rules)).
Proof.
  unfold indexed_from.
  induction rules as [|r rules IH]; simpl; intros i errs warns.
  - now rewrite !app_nil_r.
  - rewrite IH. now rewrite <- !app_assoc.
Qed.

Lemma validate_intent_flat (intent : Intent) :
  errors (validate_intent intent)
  = (if contains (i_rules intent) then []
     else ["Missing 'rules' field in intent"])
    ++ flat_map (fun ir => fst (validate_rule (fst ir) (snd ir)))
                (indexed_from 0 (rules_of intent)) /\
  warnings (validate_intent intent)
  = (if rules_falsy intent then ["No rules defined in intent"] else [])
    ++ flat_map (fun ir => snd (validate_rule (fst ir) (snd ir)))
                (indexed_from 0 (rules_of intent)).
Proof.
  unfold validate_intent, rules_of. rewrite validate_rules_flat. auto.
Qed.

Lemma in_indexed_from (rules : list ServiceRule) :
  forall i0 i r,
    nth_error rules i = Some r -> In (i0 + i, r) (indexed_from i0 rules).
Proof.
  unfold indexed_from.
  induction rules as [|r0 rules IH]; intros i0 [|i] r H; simpl in *;
    try discriminate.
  - inversion H. rewrite Nat.add_0_r. now left.
  - right. rewrite <- Nat.add_succ_comm. now apply IH.
Qed.

(** X12.  The validator reports [valid] exactly when the intent has the
    key "rules" and every rule has both "from" and "to"; and exactly
    when the list of errors is empty, whatever the warnings. *)
Theorem validate_valid_iff (intent : Intent) :
  (valid (validate_intent intent) = true <->
   contains (i_rules intent) = true /\
   forallb has_endpoints (rules_of intent) = true) /\
  (valid (validate_intent intent) = true <->
   errors (validate_intent intent) = []).
Proof.
  split.
  - rewrite validate_intent_valid. unfold rules_of. split.
    + intros (rules & -> & H). auto.
    + intros [Hc H]. destruct (i_rules intent) as [rules|];
        [eauto | discriminate].
  - unfold validate_intent.
    destruct (validate_rules 0 _ _ _) as [errs warns]. simpl.
    destruct errs; simpl; split; intro H; congruence.
Qed.

(** X13.  The validator reports every problem, not the first one only:
    each rule without "from" and each rule without "to" is named by an
    error that carries the rule's position, and the number of errors is
    the number of missing endpoints, plus one when the key "rules" is
    missing. *)
Theorem validate_reports_every_problem (intent : Intent) :
  (forall i r,
      nth_error (rules_of intent) i = Some r ->
      (r_from r = None ->
       In (missing_from_msg i) (errors (validate_intent intent))) /\
      (r_to r = None ->
       In (missing_to_msg i) (errors (validate_intent intent)))) /\
  List.length (errors (validate_intent intent))
  = (if contains (i_rules intent) then 0 else 1)
    + count_if (fun r => negb (contains (r_from r))) (rules_of intent)
    + count_if (fun r => negb (contains (r_to r))) (rules_of intent).
Proof.
  destruct (validate_intent_flat intent) as [-> _]. split.
  - intros i r Hnth. apply (in_indexed_from _ 0) in Hnth. simpl in Hnth.
    split; intro H; apply in_or_app; right; apply in_flat_map;
      exists (i, r); (split; [assumption|]);
      unfold validate_rule; simpl; rewrite H; simpl.
    + now left.
    + apply in_or_app. right. now left.
  - rewrite length_app. unfold count_if, indexed_from.
    assert (E : forall rules i0,
               List.length
                 (flat_map (fun ir => fst (validate_rule (fst ir) (snd ir)))
                           (combine (seq i0 (List.length rules)) rules))
               = List.length (filter (fun r => negb (contains (r_from r))) rules)
                 + List.length (filter (fun r => negb (contains (r_to r))) rules)).
    { induction rules as [|r rules IH]; simpl; intro i0; [reflexivity|].
      rewrite length_app, IH. unfold validate_rule. simpl.
      destruct (contains (r_from r)), (contains (r_to r)); simpl; lia. }
    rewrite E. destruct (contains (i_rules intent)); simpl; lia.
Qed.

(** X14.  A rule whose "from" and "to" are equal, both missing
    included, is named by a warning that carries its position; and an
    intent whose list of rules is present and empty is valid, with the
    empty-rules warning and no error. *)
Theorem validate_warnings (intent : Intent) :
  (forall i r,
      nth_error (rules_of intent) i = Some r ->
      r_from r = r_to r ->
      In (same_endpoints_msg i) (warnings (validate_intent intent))) /\
  (i_rules intent = Some [] ->
   valid (validate_intent intent) = true /\
   errors (validate_intent intent) = [] /\
   warnings (validate_intent intent) = ["No rules defined in intent"]).
Proof.
  split.
  - destruct (validate_intent_flat intent) as [_ ->].
    intros i r Hnth Heq. apply (in_indexed_from _ 0) in Hnth.
    simpl in Hnth. apply in_or_app. right. apply in_flat_map.
    exists (i, r). split; [assumption|]. unfold validate_rule. simpl.
    replace (same_endpoints r) with true; [now left|].
    unfold same_endpoints. rewrite Heq.
    destruct (r_to r); [now rewrite String.eqb_refl | reflexivity].
  - intro H. unfold validate_intent, rules_falsy. rewrite H. simpl. auto.
Qed.

Lemma validate_reports_every_problem_witness :
  In (missing_from_msg 1)
     (errors (validate_intent
                {| i_name := None; i_namespace := None;
                   i_rules := Some [ simple_rule "a" "b" None;
                                     {| r_from := None; r_to := Some "b";
                                        r_ports := None; r_protocols := None;
                                        r_namespace := None |} ] |})).
Proof.
  refine (proj1 (proj1 (validate_reports_every_problem _) 1 _ _) _);
    reflexivity.
Defined.

Lemma validate_warnings_witness :
  In (same_endpoints_msg 0)
     (warnings (validate_intent
                  {| i_name := None; i_namespace := None;
                     i_rules := Some [ simple_rule "a" "a" None ] |})).
Proof.
  refine (proj1 (validate_warnings _) 0 _ _ _); reflexivity.
Defined.

(* ================================================================= *)
(** ** [None] protocols *)

Lemma ingress_rule_type_error_only (ns : nullable string) (r : ServiceRule)
      (e : exn) :
  has_endpoints r = true ->
  ingress_rule_of ns r = inl e -> e = not_iterable.
Proof.
  unfold has_endpoints, ingress_rule_of. intros He H.
  destruct (r_from r) as [f|]; [|discriminate]. simpl in H.
  destruct (get_none (r_ports r)) as [|[|p ps]];
    cbn [truthy iter rbind] in H; try discriminate.
  destruct (get (r_protocols r) (Is ["TCP"])) as [|protos].
  - simpl in H. congruence.
  - rewrite expand_ports_spec in H. discriminate.
Qed.

Lemma ingress_rule_type_error (ns : nullable string) (r : ServiceRule) :
  has_endpoints r = true -> protocols_iterable r = false ->
  ingress_rule_of ns r = inl not_iterable.
Proof.
  unfold has_endpoints, protocols_iterable, ingress_rule_of. intros He Hp.
  destruct (r_from r) as [f|]; [|discriminate]. simpl.
  destruct (get_none (r_ports r)) as [|[|p ps]]; try discriminate.
  simpl in Hp. destruct (get (r_protocols r) (Is ["TCP"])) as [|protos];
    [reflexivity | discriminate].
Qed.

Lemma null_protocols_raise (intent : Intent) :
  forallb has_endpoints (rules_of intent) = true ->
  forallb protocols_iterable (rules_of intent) = false ->
  fails not_iterable (generate intent).
Proof.
  intros He Hp. unfold generate. cbv zeta.
  fold (rules_of intent) (policy_namespace intent).
  rewrite group_into_empty.
  destruct (@rfor_each_total _ _ dest_entry (rules_of intent)) as [dkvs Hd].
  { intros r Hr. rewrite forallb_forall in He. specialize (He r Hr).
    unfold has_endpoints in He. unfold dest_entry.
    destruct (r_to r); [simpl; eauto | now rewrite andb_false_r in He]. }
  rewrite Hd. destruct (dest_entries_spec _ Hd) as [Hdk Hdv].
  apply fails_bind_returns with (P := fun _ => True);
    [apply default_deny_returns|].
  intros deny _.
  apply fails_bind_returns with (P := fun x => x = grouped dkvs);
    [now apply returns_lift with (grouped dkvs)|].
  intros ? ->. apply fails_bind. apply for_each_fails.
  - intros [d rs] Hin. unfold grouped in Hin.
    apply in_map_iff in Hin. destruct Hin as (k & Hk & _).
    inversion Hk. subst. rewrite Hdv.
    match goal with |- context [rules_to ?d0 _] =>
      assert (Hends : forallb has_endpoints (rules_to d0 (rules_of intent))
                      = true) by now apply forallb_filter end.
    rewrite forallb_forall in Hends.
    unfold _generate_ingress_policy. apply fails_only_bind.
    + apply fails_only_lift. apply rfor_each_fails_only.
      intros r e' Hr. apply ingress_rule_type_error_only. auto.
    + intros es. apply fails_only_bind; [intro w; exact I|].
      intros stamp. apply fails_only_bind; [|intros fs w; exact I].
      apply fails_only_lift. apply rfor_each_fails_only.
      intros r e' Hr. specialize (Hends r Hr). unfold has_endpoints in Hends.
      destruct (r_from r); simpl; [discriminate | discriminate].
  - assert (Hex : exists r, In r (rules_of intent)
                            /\ protocols_iterable r = false).
    { clear - Hp. induction (rules_of intent) as [|r rs IH]; simpl in Hp;
        [discriminate|].
      destruct (protocols_iterable r) eqn:E.
      - destruct (IH Hp) as (r' & Hr' & H'). exists r'. simpl. auto.
      - exists r. simpl. auto. }
    destruct Hex as (r & Hr & Hbad).
    assert (Hre : has_endpoints r = true).
    { rewrite forallb_forall in He. auto. }
    assert (Ht : exists t, r_to r = Some t).
    { unfold has_endpoints in Hre. destruct (r_to r); [eauto|].
      now rewrite andb_false_r in Hre. }
    destruct Ht as [t Ht].
    exists (t, values_of t dkvs). split.
    + unfold grouped. apply in_map_iff. exists t. split; [reflexivity|].
      rewrite Hdk. apply first_seen_In. unfold dests_of.
      apply in_flat_map. exists r. split; [assumption|].
      rewrite Ht. simpl. auto.
    + rewrite Hdv. unfold _generate_ingress_policy. apply fails_bind.
      intro w. simpl. apply rfor_each_fails.
      * intros x e' Hx. apply ingress_rule_type_error_only.
        assert (Hf : forallb has_endpoints (rules_to t (rules_of intent)) = true)
          by now apply forallb_filter.
        rewrite forallb_forall in Hf. auto.
      * exists r. split; [|now apply ingress_rule_type_error].
        unfold rules_to. apply filter_In. split; [assumption|].
        unfold to_is. rewrite Ht. apply String.eqb_refl.
Qed.

(** X15.  When every rule has its two endpoints and some rule pairs a
    non-empty port list with [None] protocols, [generate] raises the
    [TypeError] of an iteration over [None]. *)
Theorem generate_null_protocols (intent : Intent) (w : World) :
  forallb has_endpoints (rules_of intent) = true ->
  forallb protocols_iterable (rules_of intent) = false ->
  fst (generate intent w) = inl not_iterable.
Proof.
  intros He Hp. pose proof (@null_protocols_raise intent He Hp) as H.
  exact (H w).
Qed.

Lemma generate_null_protocols_witness :
  fst (generate null_protocols (fresh "2024-01-01T00:00:00"))
  = inl not_iterable.
Proof.
  apply generate_null_protocols; reflexivity.
Defined.

(* ================================================================= *)
(** ** The policy endpoints of [backend/main.py] *)

Lemma intent_dict_endpoints (intent : Main.IntentModel) :
  forallb has_endpoints (rules_of (Main.intent_dict intent)) = true /\
  dests_of (rules_of (Main.intent_dict intent))
  = map Main.to_service (Main.rules intent) /\
  sources_of (rules_of (Main.intent_dict intent))
  = map Main.from_service (Main.rules intent).
Proof.
  unfold rules_of, Main.intent_dict. simpl.
  induction (Main.rules intent) as [|r rs (IH1 & IH2 & IH3)]; simpl; auto.
  rewrite IH1. unfold dests_of, sources_of in *. now rewrite IH2, IH3.
Qed.

(** X16.  Every intent dictionary that the endpoint builds from a
    request passes the validator: it has the key "rules" and each rule
    has "from" and "to". *)
Theorem endpoint_intent_validates (intent : Main.IntentModel) :
  valid (validate_intent (Main.intent_dict intent)) = true /\
  errors (validate_intent (Main.intent_dict intent)) = [].
Proof.
  assert (H : valid (validate_intent (Main.intent_dict intent)) = true).
  { apply validate_intent_valid. eexists. split; [reflexivity|].
    apply (intent_dict_endpoints intent). }
  split; [assumption|]. revert H. unfold validate_intent.
  destruct (validate_rules 0 _ _ _) as [errs warns]. simpl.
  destruct errs; [reflexivity | discriminate].
Qed.

(** X17.  When no rule of the request pairs a non-empty port list with
    [None] protocols, the endpoint answers with the manifests that
    [generate] returns for the request's intent, their number, which is
    one more than the distinct destinations and distinct sources, and
    the next identifier. *)
Theorem endpoint_answers (dump : Manifest -> string)
        (intent : Main.IntentModel) (s : Main.Server) :
  forallb protocols_iterable (rules_of (Main.intent_dict intent)) = true ->
  exists r,
    fst (Main.generate_policies dump intent s) = inr r /\
    Main.success r = true /\
    fst (generate (Main.intent_dict intent) (Main.generator s))
    = inr (Main.policies r) /\
    Main.policies_count r = List.length (Main.policies r) /\
    Main.policies_count r
    = 1 + List.length (first_seen (map Main.to_service (Main.rules intent)))
        + List.length (first_seen (map Main.from_service (Main.rules intent))) /\
    Main.policy_id r = Main.uuids s 0 /\
    Main.yaml r = to_yaml dump (Main.policies r).
Proof.
  intro Hp. destruct (intent_dict_endpoints intent) as (He & Hd & Hs).
  destruct (generate_returns _ He Hp (Main.generator s))
    as (out & w & Hrun & _).
  assert (Hfst : fst (generate (Main.intent_dict intent) (Main.generator s))
                 = inr out) by now rewrite Hrun.
  pose proof (@manifest_count_of_run _ _ _ _ Hrun) as Hcount.
  rewrite Hd, Hs in Hcount.
  unfold Main.generate_policies. rewrite Hrun. simpl.
  eexists. split; [reflexivity|]. simpl. repeat split; assumption.
Qed.

Lemma endpoint_answers_witness :
  exists r,
    fst (Main.generate_policies sample_dump sample_request
                                (sample_server "0f3a9c1e")) = inr r /\
    Main.success r = true /\
    fst (generate (Main.intent_dict sample_request)
                  (Main.generator (sample_server "0f3a9c1e")))
    = inr (Main.policies r) /\
    Main.policies_count r = List.length (Main.policies r) /\
    Main.policies_count r
    = 1 + List.length (first_seen (map Main.to_service
                                       (Main.rules sample_request)))
        + List.length (first_seen (map Main.from_service
                                       (Main.rules sample_request))) /\
    Main.policy_id r = Main.uuids (sample_server "0f3a9c1e") 0 /\
    Main.yaml r = to_yaml sample_dump (Main.policies r).
Proof.
  apply endpoint_answers. reflexivity.
Defined.

(** X18.  When some rule of the request pairs a non-empty port list
    with [None] protocols, the endpoint answers with status 500 and the
    message of the [TypeError], and stores nothing. *)
Theorem endpoint_rejects_null_protocols (dump : Manifest -> string)
        (intent : Main.IntentModel) (s : Main.Server) :
  forallb protocols_iterable (rules_of (Main.intent_dict intent)) = false ->
  fst (Main.generate_policies dump intent s)
  = inl {| Main.status_code := 500;
           Main.detail := "'NoneType' object is not iterable" |} /\
  Main.policies_store (snd (Main.generate_policies dump intent s))
  = Main.policies_store s.
Proof.
  intro Hp. destruct (intent_dict_endpoints intent) as (He & _).
  pose proof (@null_protocols_raise _ He Hp (Main.generator s)) as H.
  unfold Main.generate_policies.
  destruct (generate (Main.intent_dict intent) (Main.generator s))
    as [[e | out] w]; simpl in H; [|discriminate].
  inversion H. subst. auto.
Qed.

Lemma endpoint_rejects_null_protocols_witness :
  fst (Main.generate_policies sample_dump null_request
                              (sample_server "0f3a9c1e"))
  = inl {| Main.status_code := 500;
           Main.detail := "'NoneType' object is not iterable" |} /\
  Main.policies_store
    (snd (Main.generate_policies sample_dump null_request
                                 (sample_server "0f3a9c1e")))
  = Main.policies_store (sample_server "0f3a9c1e").
Proof.
  apply endpoint_rejects_null_protocols. reflexivity.
Defined.

Lemma dict_get_set_same {V : Type} (k : string) (v : V)
      (d : list (string * V)) :
  dict_get k (dict_set k v d) = Some v.
Proof.
  induction d as [|[k' v'] d IH]; simpl.
  - now rewrite String.eqb_refl.
  - destruct (String.eqb k' k) eqn:E; simpl; now rewrite E.
Qed.

Lemma dict_get_set_other {V : Type} (k k0 : string) (v : V)
      (d : list (string * V)) :
  k0 <> k -> dict_get k0 (dict_set k v d) = dict_get k0 d.
Proof.
  intro Hne. induction d as [|[k' v'] d IH]; simpl.
  - destruct (String.eqb_spec k k0); [congruence | reflexivity].
  - destruct (String.eqb_spec k' k) as [-> | Hk]; simpl.
    + destruct (String.eqb_spec k k0); [congruence | reflexivity].
    + now rewrite IH.
Qed.

Lemma dict_set_length {V : Type} (k : string) (v : V)
      (d : list (string * V)) :
  List.length (dict_set k v d)
  = List.length d + (if contains (dict_get k d) then 0 else 1).
Proof.
  induction d as [|[k' v'] d IH]; simpl; [reflexivity|].
  destruct (String.eqb k' k); simpl; [lia | now rewrite IH].
Qed.

(** X19.  After an answer of the endpoint, the entry stored under the
    answer's identifier holds the answer's manifests and is not
    deployed; the entries under other identifiers are as before; and the
    store has grown by one entry, unless the identifier was in use, in
    which case its entry has been replaced. *)
Theorem endpoint_stores_answer (dump : Manifest -> string)
        (intent : Main.IntentModel) (s : Main.Server) (r : Main.Generated) :
  fst (Main.generate_policies dump intent s) = inr r ->
  let s' := snd (Main.generate_policies dump intent s) in
  (exists p,
      Main.get_policy (Main.policy_id r) s' = inr p /\
      Main.sp_policies p = Main.policies r /\
      Main.sp_deployed p = false /\
      Main.sp_intent p = Main.intent_dict intent) /\
  (forall id, id <> Main.policy_id r ->
              Main.get_policy id s' = Main.get_policy id s) /\
  snd (Main.list_policies s')
  = snd (Main.list_policies s)
    + (if contains (dict_get (Main.policy_id r) (Main.policies_store s))
       then 0 else 1).
Proof.
  unfold Main.generate_policies, Main.get_policy, Main.list_policies.
  destruct (generate (Main.intent_dict intent) (Main.generator s))
    as [[e | out] w]; simpl; [discriminate|].
  intro H. inversion H. subst r. clear H. simpl. split; [|split].
  - rewrite dict_get_set_same. eexists. split; [reflexivity|]. auto.
  - intros id Hid. now rewrite dict_get_set_other.
  - apply dict_set_length.
Qed.

Lemma endpoint_stores_answer_witness :
  let r := match fst (Main.generate_policies sample_dump sample_request
                        (sample_server "0f3a9c1e")) with
           | inr r => r
           | inl _ => {| Main.success := false; Main.policy_id := "";
                         Main.policies_count := 0; Main.policies := [];
                         Main.yaml := "" |}
           end in
  let s' := snd (Main.generate_policies sample_dump sample_request
                   (sample_server "0f3a9c1e")) in
  (exists p,
      Main.get_policy (Main.policy_id r) s' = inr p /\
      Main.sp_policies p = Main.policies r /\
      Main.sp_deployed p = false /\
      Main.sp_intent p = Main.intent_dict sample_request) /\
  (forall id, id <> Main.policy_id r ->
              Main.get_policy id s'
              = Main.get_policy id (sample_server "0f3a9c1e")) /\
  snd (Main.list_policies s')
  = snd (Main.list_policies (sample_server "0f3a9c1e"))
    + (if contains (dict_get (Main.policy_id r)
                      (Main.policies_store (sample_server "0f3a9c1e")))
       then 0 else 1).
Proof.
  apply (@endpoint_stores_answer sample_dump sample_request
           (sample_server "0f3a9c1e")).
  reflexivity.
Defined.

Example str_of_Z_examples :
  str_of_Z 8080 = "8080" /\ str_of_Z 0 = "0" /\ str_of_Z (-53) = "-53".
Proof. repeat split. Qed.

(* ================================================================= *)
(** ** Properties of [generate_cilium_policy] *)

Section CiliumFacts.

Context {L7 : Type} (l7_truthy : L7 -> bool).

Lemma cilium_policy_inv (ns : nullable string) (r : L7Rule L7)
      (p : CiliumPolicy L7) :
  cilium_policy_of l7_truthy ns r = inr p ->
  c_apiVersion p = "cilium.io/v2" /\
  c_kind p = "CiliumNetworkPolicy" /\
  c_name p = ("cilium-" ++ source_of (base r) ++ "-to-"
                ++ dest_of (base r))%string /\
  c_namespace p = ns /\
  endpointSelector p = dest_of (base r) /\
  exists ing,
    c_ingress p = [ing] /\
    fromEndpoints ing = [source_of (base r)] /\
    (has_l7 l7_truthy r = false -> toPorts ing = None) /\
    (forall v, r_l7_rules r = Some v -> l7_truthy v = true ->
               toPorts ing = Some [ {| tp_ports := cilium_ports r;
                                       tp_rules := v |} ]).
Proof.
  unfold cilium_policy_of, source_of, dest_of, has_l7, cilium_ports.
  intro H.
  destruct (r_from (base r)) as [f|]; simpl in H; [|discriminate].
  destruct (r_to (base r)) as [t|]; simpl in H; [|discriminate].
  destruct (r_l7_rules r) as [v|]; simpl in H.
  - destruct (l7_truthy v) eqn:Ht.
    + destruct (r_ports (base r)) as [[|ps]|]; simpl in H;
        try discriminate; inversion H; simpl; repeat split;
        eexists; (split; [reflexivity|]); simpl;
        (split; [reflexivity|]); (split; [discriminate|]);
        intros v' Hv' _; inversion Hv'; reflexivity.
    + inversion H. simpl. repeat split. eexists. split; [reflexivity|].
      simpl. split; [reflexivity|]. split; [reflexivity|].
      intros v' Hv' Ht'. inversion Hv'. congruence.
  - inversion H. simpl. repeat split. eexists. split; [reflexivity|].
    simpl. split; [reflexivity|]. split; [reflexivity|]. discriminate.
Qed.

Lemma cilium_policy_total (ns : nullable string) (r : L7Rule L7) :
  (exists p, cilium_policy_of l7_truthy ns r = inr p) <->
  cilium_ready l7_truthy r = true.
Proof.
  unfold cilium_policy_of, cilium_ready, has_endpoints, has_l7.
  destruct (r_from (base r)) as [f|]; simpl;
    [|split; [intros [p H]; discriminate | discriminate]].
  destruct (r_to (base r)) as [t|]; simpl;
    [|split; [intros [p H]; discriminate | discriminate]].
  destruct (r_l7_rules r) as [v|]; simpl; [|split; eauto].
  destruct (l7_truthy v); simpl; [|split; eauto].
  destruct (r_ports (base r)) as [[|ps]|]; simpl; split; eauto;
    try discriminate.
  intros [p H]. discriminate.
Qed.

End CiliumFacts.

(** X20.  [generate_cilium_policy] returns one policy per rule, in the
    order of the rules: named after the rule's source and destination,
    in the intent's namespace ("default" when it names none), selecting
    the destination and admitting the source.  The policy has the key
    "toPorts" exactly when the rule has L7 rules that are true; it then
    holds these rules and the rule's ports as strings with protocol
    TCP, whatever the rule's protocols, or port 80 when the rule has no
    key "ports". *)
Theorem cilium_one_policy_per_rule (L7 : Type) (l7_truthy : L7 -> bool)
        (intent : L7Intent L7) (out : list (CiliumPolicy L7)) :
  generate_cilium_policy l7_truthy intent = inr out ->
  Forall2 (fun r p =>
             c_kind p = "CiliumNetworkPolicy" /\
             c_name p = ("cilium-" ++ source_of (base r) ++ "-to-"
                           ++ dest_of (base r))%string /\
             c_namespace p = get (l7_namespace intent) (Is "default") /\
             endpointSelector p = dest_of (base r) /\
             exists ing,
               c_ingress p = [ing] /\
               fromEndpoints ing = [source_of (base r)] /\
               (has_l7 l7_truthy r = false -> toPorts ing = None) /\
               (forall v, r_l7_rules r = Some v -> l7_truthy v = true ->
                          toPorts ing
                          = Some [ {| tp_ports := cilium_ports r;
                                      tp_rules := v |} ]))
          (get (l7_rules intent) []) out.
Proof.
  unfold generate_cilium_policy. intro H. apply rfor_each_inr in H.
  revert H. apply Forall2_impl. intros r p H.
  apply cilium_policy_inv in H. tauto.
Qed.

Lemma cilium_one_policy_per_rule_witness :
  exists out,
    generate_cilium_policy nonempty l7_sample = inr out /\
    Forall2 (fun r p =>
               c_kind p = "CiliumNetworkPolicy" /\
               c_name p = ("cilium-" ++ source_of (base r) ++ "-to-"
                             ++ dest_of (base r))%string /\
               c_namespace p = get (l7_namespace l7_sample) (Is "default") /\
               endpointSelector p = dest_of (base r) /\
               exists ing,
                 c_ingress p = [ing] /\
                 fromEndpoints ing = [source_of (base r)] /\
                 (has_l7 nonempty r = false -> toPorts ing = None) /\
                 (forall v, r_l7_rules r = Some v -> nonempty v = true ->
                            toPorts ing
                            = Some [ {| tp_ports := cilium_ports r;
                                        tp_rules := v |} ]))
            (get (l7_rules l7_sample) []) out.
Proof.
  eexists. split; [reflexivity|].
  apply (@cilium_one_policy_per_rule (list string) nonempty l7_sample).
  reflexivity.
Defined.

(** X21.  [generate_cilium_policy] returns exactly when every rule has
    "from" and "to" and no rule with true L7 rules has [None] under
    "ports"; it raises otherwise. *)
Theorem cilium_returns_iff (L7 : Type) (l7_truthy : L7 -> bool)
        (intent : L7Intent L7) :
  (exists out, generate_cilium_policy l7_truthy intent = inr out) <->
  forallb (cilium_ready l7_truthy) (get (l7_rules intent) []) = true.
Proof.
  unfold generate_cilium_policy. rewrite forallb_forall. split.
  - intros [out H] r Hr. apply rfor_each_inr in H.
    apply (cilium_policy_total l7_truthy
             (get (l7_namespace intent) (Is "default"))).
    clear - H Hr. induction H as [|x y l l' Hxy _ IH]; [contradiction|].
    destruct Hr as [-> | Hr]; [eauto | auto].
  - intro H. apply rfor_each_total. intros r Hr.
    apply cilium_policy_total. auto.
Qed.

(* ================================================================= *)
(** ** The drift detector on the generated manifests *)

Lemma append_at_absent {A : Type} (k : string) (v : A) (d : odict A) :
  ~ In k (map fst d) -> append_at k v d = d ++ [(k, [v])].
Proof.
  induction d as [|[k' vs] d IH]; simpl; intro H; [reflexivity|].
  destruct (String.eqb_spec k k') as [E | E]; [exfalso; auto|].
  rewrite IH by tauto. reflexivity.
Qed.

Lemma append_at_last {A : Type} (k : string) (v : A) (l : list A)
      (d : odict A) :
  ~ In k (map fst d) ->
  append_at k v (d ++ [(k, l)]) = d ++ [(k, l ++ [v])].
Proof.
  induction d as [|[k' vs] d IH]; simpl; intro H.
  - now rewrite String.eqb_refl.
  - destruct (String.eqb_spec k k') as [E | E]; [exfalso; auto|].
    rewrite IH by tauto. reflexivity.
Qed.

Lemma fold_append_at_last {A : Type} (k : string) (d : odict A) :
  ~ In k (map fst d) ->
  forall xs l,
    fold_left (fun acc x => append_at k x acc) xs (d ++ [(k, l)])
    = d ++ [(k, l ++ xs)].
Proof.
  intro Hk. induction xs as [|x xs IH]; intro l; simpl.
  - now rewrite app_nil_r.
  - rewrite append_at_last by assumption. rewrite IH.
    now rewrite <- app_assoc.
Qed.

Lemma fold_append_at {A : Type} (k : string) (xs : list A) (d : odict A) :
  ~ In k (map fst d) -> xs <> [] ->
  fold_left (fun acc x => append_at k x acc) xs d = d ++ [(k, xs)].
Proof.
  intros Hk Hxs. destruct xs as [|x xs]; [congruence|].
  simpl. rewrite append_at_absent by assumption.
  now rewrite fold_append_at_last.
Qed.

Lemma fold_left_peers (k : string) (es : list RuleEntry) (d : odict string) :
  fold_left
    (fun acc ingress =>
       fold_left (fun acc from_rule => append_at k (peer_app from_rule) acc)
                 (peers ingress) acc)
    es d
  = fold_left (fun acc x => append_at k x acc) (peer_names es) d.
Proof.
  unfold peer_names. revert d. induction es as [|e es IH]; intro d; simpl;
    [reflexivity|].
  rewrite IH, map_app, fold_left_app. f_equal.
  generalize (peers e) as ps. clear. intro ps. revert d.
  induction ps as [|p ps IH]; intro d; simpl; [reflexivity | apply IH].
Qed.

Lemma sources_of_rules_to_nonempty (rules : list ServiceRule) (d : string) :
  forallb has_endpoints rules = true ->
  In d (dests_of rules) ->
  sources_of (rules_to d rules) <> [].
Proof.
  intros He Hd. unfold dests_of in Hd. apply in_flat_map in Hd.
  destruct Hd as (r & Hr & Hd).
  destruct (r_to r) as [t|] eqn:Ht; [|contradiction].
  destruct Hd as [-> | []].
  rewrite forallb_forall in He. specialize (He r Hr).
  unfold has_endpoints in He.
  destruct (r_from r) as [f|] eqn:Hf; [|discriminate].
  assert (Hin : In f (sources_of (rules_to d rules))).
  { unfold sources_of. apply in_flat_map. exists r. split.
    - unfold rules_to. apply filter_In. split; [assumption|].
      unfold to_is. rewrite Ht. apply String.eqb_refl.
    - rewrite Hf. simpl. auto. }
  intro E. rewrite E in Hin. contradiction.
Qed.


(** What registering the output of [generate] leaves in
    [allowed_connections]. *)
Lemma register_generated (intent : Intent) (w w' : World)
      (out : list Manifest) :
  generate intent w = (inr out, w') ->
  fold_left Drift.register_policy out []
  = map (fun d => (d, sources_of (rules_to d (rules_of intent))))
        (first_seen (dests_of (rules_of intent))).
Proof.
  intro Hgen.
  pose proof (@generate_shape intent w w' out Hgen)
    as (_ & _ & _ & _ & _ & _ & _ & Hends).
  apply generate_run in Hgen.
  destruct Hgen as (deny & ing & eg & -> & [w1 Hdeny] & Hing & Heg).
  set (g := fun d => (d, sources_of (rules_to d (rules_of intent)))).
  simpl.
  assert (Hd : Drift.register_policy [] deny = []).
  { pose proof (@default_deny_inv _ _ _ _ Hdeny) as [Hs _].
    apply default_deny_meta in Hdeny. destruct Hdeny as (_ & Hk & _).
    unfold Drift.register_policy. now rewrite Hk, Hs. }
  rewrite Hd, fold_left_app.
  assert (Hi : forall ks ms,
             Forall2 (fun d m =>
                        exists w1 w2,
                          _generate_ingress_policy d
                            (rules_to d (rules_of intent))
                            (policy_namespace intent)
                            (get (i_name intent) "generated") w1
                          = (inr m, w2)) ks ms ->
             NoDup ks ->
             (forall k, In k ks -> In k (dests_of (rules_of intent))) ->
             forall ks0,
               (forall k, In k ks -> ~ In k ks0) ->
               fold_left Drift.register_policy ms (map g ks0)
               = map g (ks0 ++ ks)).
  { induction 1 as [|k m ks ms (w2 & w3 & Hm) _ IH]; intros Hnd Hin ks0 Hdis;
      simpl.
    - now rewrite app_nil_r.
    - inversion Hnd as [|? ? Hk Hnd']. subst.
      pose proof (@ingress_policy_inv _ _ _ _ _ _ _ Hm) as (es & Hes & Hs & _).
      apply ingress_policy_meta in Hm. destruct Hm as (_ & Hkind & _).
      apply ingress_rules_inv in Hes. destruct Hes as [_ Hnames].
      assert (E : Drift.register_policy (map g ks0) m = map g (ks0 ++ [k])).
      { unfold Drift.register_policy. rewrite Hkind, Hs. simpl.
        rewrite fold_left_peers, Hnames, fold_append_at.
        - now rewrite map_app.
        - rewrite map_map. simpl. rewrite map_id. apply Hdis. now left.
        - apply sources_of_rules_to_nonempty; [assumption|].
          apply Hin. now left. }
      rewrite E, IH; try assumption.
      + now rewrite <- app_assoc.
      + intros k' Hk'. apply Hin. now right.
      + intros k' Hk' Hin'. apply in_app_or in Hin'.
        destruct Hin' as [Hin' | [-> | []]]; [|contradiction].
        apply (Hdis k'); [now right | assumption]. }
  assert (Hi' := Hi _ _ Hing (first_seen_NoDup _)
                   (fun k Hk => proj1 (first_seen_In k _) Hk) []
                   (fun k _ F => F)).
  simpl in Hi'. rewrite Hi'. clear Hi Hi'.
  assert (He : forall acc,
             fold_left Drift.register_policy eg acc = acc).
  { clear - Heg Hends. induction Heg as [|s m ss ms (w2 & w3 & Hm) _ IH];
      intro acc; simpl; [reflexivity|].
    pose proof (@egress_policy_inv _ _ _ _ _ _ _ Hm) as (es & _ & Hs & _).
    apply egress_policy_meta in Hm; [|now apply forallb_filter].
    destruct Hm as (_ & Hkind & _).
    unfold Drift.register_policy at 2. rewrite Hkind, Hs. simpl. apply IH. }
  apply He.
Qed.

(** X22.  Registered with the drift detector, the manifests that
    [generate] returns leave in [allowed_connections] one entry per
    destination of the intent, in first-seen order, that lists the
    sources of the rules naming it, in the order of the rules; what the
    dictionary held before is dropped, and the events are kept. *)
Theorem register_generated_connections (intent : Intent) (w : World)
        (out : list Manifest) (self : Drift.DriftDetector) :
  fst (generate intent w) = inr out ->
  Drift.allowed_connections (Drift.register_allowed_connections out self)
  = map (fun d => (d, sources_of (rules_to d (rules_of intent))))
        (first_seen (dests_of (rules_of intent))) /\
  Drift.events (Drift.register_allowed_connections out self)
  = Drift.events self.
Proof.
  intro Hgen. apply run_fst in Hgen. destruct Hgen as [w' Hgen].
  split; [|reflexivity]. simpl. exact (@register_generated _ _ _ _ Hgen).
Qed.

Lemma register_generated_connections_witness :
  Drift.allowed_connections
    (Drift.register_allowed_connections (run dns_intent) Drift.new_detector)
  = map (fun d => (d, sources_of (rules_to d (rules_of dns_intent))))
        (first_seen (dests_of (rules_of dns_intent))) /\
  Drift.events
    (Drift.register_allowed_connections (run dns_intent) Drift.new_detector)
  = Drift.events Drift.new_detector.
Proof.
  apply (@register_generated_connections dns_intent
           (fresh "2024-01-01T00:00:00")).
  reflexivity.
Defined.





(* ================================================================= *)
(** ** The events of the drift detector *)

Lemma insert_newest_perm (e : Drift.DriftEvent) (l : list Drift.DriftEvent) :
  Permutation (Drift.insert_newest e l) (e :: l).
Proof.
  induction l as [|y l IH]; simpl; [reflexivity|].
  destruct (Z.ltb _ _); [|reflexivity].
  rewrite IH. apply perm_swap.
Qed.

Lemma sort_newest_first_perm (l : list Drift.DriftEvent) :
  Permutation (Drift.sort_newest_first l) l.
Proof.
  induction l as [|e l IH]; simpl; [reflexivity|].
  rewrite insert_newest_perm. now constructor.
Qed.

Lemma insert_newest_sorted (e : Drift.DriftEvent)
      (l : list Drift.DriftEvent) :
  StronglySorted newer_or_equal l ->
  StronglySorted newer_or_equal (Drift.insert_newest e l).
Proof.
  induction 1 as [|y l Hl IH Hy]; simpl.
  - repeat constructor.
  - destruct (Z.ltb_spec (Drift.timestamp e) (Drift.timestamp y)) as [Hlt | Hge].
    + constructor; [assumption|].
      apply Forall_forall. intros x Hx.
      apply (Permutation_in _ (insert_newest_perm e l)) in Hx.
      destruct Hx as [<- | Hx].
      * unfold newer_or_equal. lia.
      * rewrite Forall_forall in Hy. auto.
    + constructor; [now constructor|].
      constructor; [exact Hge|].
      rewrite Forall_forall in *. intros x Hx. specialize (Hy x Hx).
      unfold newer_or_equal in *. lia.
Qed.

Lemma sort_newest_first_sorted (l : list Drift.DriftEvent) :
  StronglySorted newer_or_equal (Drift.sort_newest_first l).
Proof.
  induction l as [|e l IH]; simpl; [constructor|].
  now apply insert_newest_sorted.
Qed.



(** The filters of [get_events], one after the other, keep the events
    that are asked for. *)
Lemma filter_by_asked (field : Drift.DriftEvent -> string)
      (wanted : option string) (l : list Drift.DriftEvent) :
  Drift.filter_by field wanted l = filter (fun e => asked wanted (field e)) l.
Proof.
  unfold Drift.filter_by, Drift.given, asked.
  destruct wanted as [[|c s]|]; cbn [get];
    try (symmetry; apply filter_true).
  reflexivity.
Qed.

Lemma filter_and {A : Type} (p q : A -> bool) (l : list A) :
  filter q (filter p l) = filter (fun x => p x && q x) l.
Proof.
  induction l as [|x l IH]; simpl; [reflexivity|].
  destruct (p x); simpl; [|exact IH].
  destruct (q x); now rewrite IH.
Qed.

Lemma filters_asked_for (severity event_type : option string)
      (cutoff : option Z) (l : list Drift.DriftEvent) :
  Drift.filter_by Drift.event_type event_type
    (Drift.filter_by Drift.severity severity (filter (later_than cutoff) l))
  = events_asked_for severity event_type cutoff l.
Proof.
  rewrite !filter_by_asked, !filter_and. unfold events_asked_for.
  apply filter_ext. intro e.
  destruct (later_than cutoff e), (asked severity (Drift.severity e)),
    (asked event_type (Drift.event_type e)); reflexivity.
Qed.

(** [l[:limit]] is a prefix of [l]; what it leaves out is counted by a
    negative [limit]. *)
Lemma slice_to_prefix {A : Type} (limit : Z) (l : list A) :
  exists cut,
    Drift.slice_to limit l ++ cut = l /\
    ((0 <= limit)%Z ->
     List.length (Drift.slice_to limit l)
     = Nat.min (Z.to_nat limit) (List.length l)) /\
    ((limit < 0)%Z ->
     List.length cut = Nat.min (Z.to_nat (- limit)) (List.length l)).
Proof.
  unfold Drift.slice_to. destruct (Z.leb_spec 0 limit) as [Hle | Hlt].
  - exists (skipn (Z.to_nat limit) l). split; [apply firstn_skipn|].
    split; intro H; [apply length_firstn | lia].
  - exists (skipn (List.length l - Z.to_nat (- limit)) l).
    split; [apply firstn_skipn|].
    split; intro H; [lia|]. rewrite length_skipn. lia.
Qed.

(** What the last steps of [get_events] make of the events they are
    given. *)
Lemma finish_spec (limit : Z) (severity event_type : option string)
      (cutoff : option Z) (l : list Drift.DriftEvent) :
  exists cut,
    let kept :=
      Drift.slice_to limit
        (Drift.sort_newest_first
           (Drift.filter_by Drift.event_type event_type
              (Drift.filter_by Drift.severity severity
                 (filter (later_than cutoff) l)))) in
    Permutation (kept ++ cut) (events_asked_for severity event_type cutoff l) /\
    StronglySorted newer_or_equal (kept ++ cut) /\
    ((0 <= limit)%Z ->
     List.length kept
     = Nat.min (Z.to_nat limit) (List.length (kept ++ cut))) /\
    ((limit < 0)%Z ->
     List.length cut
     = Nat.min (Z.to_nat (- limit)) (List.length (kept ++ cut))).
Proof.
  rewrite filters_asked_for.
  destruct (slice_to_prefix limit
              (Drift.sort_newest_first
                 (events_asked_for severity event_type cutoff l)))
    as (cut & Happ & Hpos & Hneg).
  exists cut. cbv zeta. rewrite Happ.
  split; [apply sort_newest_first_perm|].
  split; [apply sort_newest_first_sorted|]. auto.
Qed.

(** X24.  When [get_events] returns, it has read the clock once if a
    time frame is given and not at all otherwise, and its dictionaries
    are those of a list [kept] of events such that, for some list [cut]
    of further events: [kept] followed by [cut] holds the events of the
    detector that have the severity and the event type asked for, when
    one is asked for, and are later than the cutoff of the time frame,
    when one is given, each as often as the detector holds it, newest
    first.  A [limit] that is not negative keeps the first [limit] of
    them, all when they are fewer; a negative [limit] cuts that many
    off the older end, all when they are fewer. *)
Theorem get_events_sound (isoformat : Z -> string)
        (hours_of : string -> option Z) (hours_before : Z -> Z -> option Z)
        (limit : Z) (severity timeframe event_type : option string)
        (self : Drift.DriftDetector) (env env' : Drift.Env)
        (ds : list Drift.EventDict) :
  Drift.get_events isoformat hours_of hours_before limit severity timeframe
                   event_type self env = (Some ds, env') ->
  (Drift.given timeframe = true ->
   cutoff_of hours_of hours_before timeframe (Drift.readings env 0) <> None /\
   env' = Drift.skip_readings 1 env) /\
  (Drift.given timeframe = false -> env' = env) /\
  exists kept cut,
    ds = map (Drift.to_dict isoformat) kept /\
    Permutation (kept ++ cut)
      (events_asked_for severity event_type
         (cutoff_of hours_of hours_before timeframe (Drift.readings env 0))
         (Drift.events self)) /\
    StronglySorted newer_or_equal (kept ++ cut) /\
    ((0 <= limit)%Z ->
     List.length kept
     = Nat.min (Z.to_nat limit) (List.length (kept ++ cut))) /\
    ((limit < 0)%Z ->
     List.length cut
     = Nat.min (Z.to_nat (- limit)) (List.length (kept ++ cut))).
Proof.
  unfold Drift.get_events, Drift.selected_events, cutoff_of, Drift.given.
  intro H. destruct timeframe as [[|c s]|]; cbn [get] in H.
  - inversion H. subst. clear H.
    split; [discriminate|]. split; [reflexivity|].
    destruct (finish_spec limit severity event_type None (Drift.events self))
      as (cut & Hcut).
    cbv zeta in Hcut. rewrite filter_true in Hcut.
    eexists. exists cut. split; [reflexivity | exact Hcut].
  - destruct (hours_of (String c s)) as [hours|]; [|discriminate].
    destruct (hours_before (Drift.readings env 0) hours) as [t|];
      [|discriminate].
    inversion H. subst. clear H.
    split; [intros _; split; [discriminate | reflexivity]|].
    split; [discriminate|].
    destruct (finish_spec limit severity event_type (Some t)
                (Drift.events self)) as (cut & Hcut).
    cbv zeta in Hcut.
    rewrite (filter_ext (later_than (Some t))
               (fun e => Z.ltb t (Drift.timestamp e))) in Hcut
      by (intro e; apply Z.gtb_ltb).
    eexists. exists cut. split; [reflexivity | exact Hcut].
  - inversion H. subst. clear H.
    split; [discriminate|]. split; [reflexivity|].
    destruct (finish_spec limit severity event_type None (Drift.events self))
      as (cut & Hcut).
    cbv zeta in Hcut. rewrite filter_true in Hcut.
    eexists. exists cut. split; [reflexivity | exact Hcut].
Qed.

Lemma get_events_sound_witness :
  (Drift.given (Some "1") = true ->
   cutoff_of sample_hours_of sample_hours_before (Some "1")
             (Drift.readings sample_env 0) <> None /\
   Drift.skip_readings 1 sample_env = Drift.skip_readings 1 sample_env) /\
  (Drift.given (Some "1") = false ->
   Drift.skip_readings 1 sample_env = sample_env) /\
  exists kept cut,
    [ Drift.to_dict (fun _ => "t") (sample_event "drift-2" "high" 30) ]
    = map (Drift.to_dict (fun _ => "t")) kept /\
    Permutation (kept ++ cut)
      (events_asked_for (Some "high") None
         (cutoff_of sample_hours_of sample_hours_before (Some "1")
                    (Drift.readings sample_env 0))
         (Drift.events sample_detector)) /\
    StronglySorted newer_or_equal (kept ++ cut) /\
    ((0 <= -1)%Z ->
     List.length kept
     = Nat.min (Z.to_nat (-1)) (List.length (kept ++ cut))) /\
    ((-1 < 0)%Z ->
     List.length cut
     = Nat.min (Z.to_nat (- -1)) (List.length (kept ++ cut))).
Proof.
  apply (@get_events_sound (fun _ => "t") sample_hours_of sample_hours_before
           (-1) (Some "high") (Some "1") None sample_detector sample_env
           (Drift.skip_readings 1 sample_env)).
  reflexivity.
Defined.

(** X25.  Without time frame, severity and event type, and with a limit
    that is not below the number of events, [get_events] returns the
    dictionaries of all the events of the detector, each once, newest
    first, and reads no clock. *)
Theorem get_events_all (isoformat : Z -> string)
        (hours_of : string -> option Z) (hours_before : Z -> Z -> option Z)
        (limit : Z) (severity timeframe event_type : option string)
        (self : Drift.DriftDetector) (env : Drift.Env) :
  Drift.given severity = false ->
  Drift.given timeframe = false ->
  Drift.given event_type = false ->
  (Z.of_nat (List.length (Drift.events self)) <= limit)%Z ->
  exists l,
    Drift.get_events isoformat hours_of hours_before limit severity timeframe
                     event_type self env
    = (Some (map (Drift.to_dict isoformat) l), env) /\
    Permutation l (Drift.events self) /\
    StronglySorted newer_or_equal l.
Proof.
  intros Hs Ht He Hl.
  unfold Drift.get_events, Drift.selected_events, Drift.filter_by.
  rewrite Hs, Ht, He. eexists. split; [reflexivity|].
  unfold Drift.slice_to. destruct (Z.leb_spec 0 limit); [|lia].
  rewrite firstn_all2.
  - split; [apply sort_newest_first_perm | apply sort_newest_first_sorted].
  - rewrite (Permutation_length (sort_newest_first_perm _)). lia.
Qed.

Lemma get_events_all_witness :
  exists l,
    Drift.get_events (fun _ => "t") sample_hours_of sample_hours_before
                     100 None (Some "") None sample_detector sample_env
    = (Some (map (Drift.to_dict (fun _ => "t")) l), sample_env) /\
    Permutation l (Drift.events sample_detector) /\
    StronglySorted newer_or_equal l.
Proof.
  apply get_events_all; try reflexivity. simpl. lia.
Defined.

Lemma mark_first_spec (mark : Drift.DriftEvent -> Drift.DriftEvent)
      (event_id : string) (l : list Drift.DriftEvent) :
  (fst (Drift.mark_first mark event_id l) = false /\
   ~ In event_id (map Drift.id l) /\
   snd (Drift.mark_first mark event_id l) = l) \/
  (fst (Drift.mark_first mark event_id l) = true /\
   exists pre e post,
     l = pre ++ e :: post /\
     Drift.id e = event_id /\
     ~ In event_id (map Drift.id pre) /\
     snd (Drift.mark_first mark event_id l) = pre ++ mark e :: post).
Proof.
  induction l as [|e l IH]; simpl.
  - left. auto.
  - destruct (String.eqb_spec (Drift.id e) event_id) as [E | E]; simpl.
    + right. split; [reflexivity|]. exists [], e, l. simpl. auto.
    + destruct (Drift.mark_first mark event_id l) as [found l'].
      simpl in *. destruct IH as [(Hf & Hn & Hl) | (Hf & pre & e' & post & Hl & Hid & Hn & Hl')].
      * left. subst. split; [reflexivity|]. split; [tauto | reflexivity].
      * right. split; [assumption|]. exists (e :: pre), e', post.
        subst. simpl. split; [reflexivity|]. split; [reflexivity|].
        split; [tauto | reflexivity].
Qed.

(** What the two setters change of an event. *)
Lemma set_acknowledged_spec (e : Drift.DriftEvent) :
  Drift.acknowledged (Drift.set_acknowledged e) = true /\
  Drift.resolved (Drift.set_acknowledged e) = Drift.resolved e /\
  same_but_flags e (Drift.set_acknowledged e).
Proof. unfold same_but_flags. simpl. repeat split. Qed.

Lemma set_resolved_spec (e : Drift.DriftEvent) :
  Drift.resolved (Drift.set_resolved e) = true /\
  Drift.acknowledged (Drift.set_resolved e) = Drift.acknowledged e /\
  same_but_flags e (Drift.set_resolved e).
Proof. unfold same_but_flags. simpl. repeat split. Qed.

(** X26.  [acknowledge_event] answers [True] exactly when some event
    has the identifier.  The first such event then has its flag
    [acknowledged] set to [True], whatever it was, and nothing else
    changes: its other fields, the events before and after it, those of
    the same identifier included, and the allowed connections are as
    before.  When it answers [False] the detector is unchanged. *)
Theorem acknowledge_event_first_match (event_id : string)
        (self : Drift.DriftDetector) :
  let r := Drift.acknowledge_event event_id self in
  (fst r = true <-> In event_id (map Drift.id (Drift.events self))) /\
  (fst r = false -> snd r = self) /\
  (fst r = true ->
   exists pre e post e',
     Drift.events self = pre ++ e :: post /\
     Drift.id e = event_id /\
     ~ In event_id (map Drift.id pre) /\
     Drift.events (snd r) = pre ++ e' :: post /\
     Drift.acknowledged e' = true /\
     Drift.resolved e' = Drift.resolved e /\
     same_but_flags e e') /\
  map Drift.resolved (Drift.events (snd r))
  = map Drift.resolved (Drift.events self) /\
  Drift.allowed_connections (snd r) = Drift.allowed_connections self.
Proof.
  unfold Drift.acknowledge_event.
  pose proof (mark_first_spec Drift.set_acknowledged event_id
                (Drift.events self)) as H.
  destruct (Drift.mark_first _ _ _) as [found l]. simpl in *.
  destruct H as [(-> & Hn & ->) | (-> & pre & e & post & Hl & Hid & Hn & ->)].
  - split; [split; [discriminate | contradiction]|].
    split; [intros _; now destruct self|].
    split; [discriminate|]. auto.
  - split.
    + split; [|reflexivity]. intros _. rewrite Hl, map_app. simpl.
      apply in_or_app. right. left. assumption.
    + split; [discriminate|]. split.
      * intros _. exists pre, e, post, (Drift.set_acknowledged e).
        destruct (set_acknowledged_spec e) as (Ha & Hr & Hs). auto 10.
      * split; [|reflexivity]. rewrite Hl, !map_app. reflexivity.
Qed.

(** X27.  [resolve_event] likewise sets the flag [resolved] of the first
    event that has the identifier to [True], and changes nothing else
    of that event or of the others; it keeps no trace of its argument
    [resolution], and leaves the acknowledgements as they are. *)
Theorem resolve_event_first_match (event_id resolution : string)
        (self : Drift.DriftDetector) :
  let r := Drift.resolve_event event_id resolution self in
  (fst r = true <-> In event_id (map Drift.id (Drift.events self))) /\
  (fst r = false -> snd r = self) /\
  (fst r = true ->
   exists pre e post e',
     Drift.events self = pre ++ e :: post /\
     Drift.id e = event_id /\
     ~ In event_id (map Drift.id pre) /\
     Drift.events (snd r) = pre ++ e' :: post /\
     Drift.resolved e' = true /\
     Drift.acknowledged e' = Drift.acknowledged e /\
     same_but_flags e e') /\
  map Drift.acknowledged (Drift.events (snd r))
  = map Drift.acknowledged (Drift.events self) /\
  (forall other, Drift.resolve_event event_id other self = r).
Proof.
  unfold Drift.resolve_event.
  pose proof (mark_first_spec Drift.set_resolved event_id
                (Drift.events self)) as H.
  destruct (Drift.mark_first _ _ _) as [found l]. simpl in *.
  destruct H as [(-> & Hn & ->) | (-> & pre & e & post & Hl & Hid & Hn & ->)].
  - split; [split; [discriminate | contradiction]|].
    split; [intros _; now destruct self|].
    split; [discriminate|]. auto.
  - split.
    + split; [|reflexivity]. intros _. rewrite Hl, map_app. simpl.
      apply in_or_app. right. left. assumption.
    + split; [discriminate|]. split.
      * intros _. exists pre, e, post, (Drift.set_resolved e).
        destruct (set_resolved_spec e) as (Ha & Hr & Hs). auto 10.
      * split; [|reflexivity]. rewrite Hl, !map_app. reflexivity.
Qed.

(** X28.  Whatever the priority, [_map_falco_priority] answers with one
    of the five severities of the detector; a priority that its table
    does not hold, one in lower case for instance, becomes "medium". *)
Theorem falco_priority_is_severity (priority : string) :
  In (Drift._map_falco_priority priority) (map fst Drift.severity_levels) /\
  (~ In priority (map fst Drift.falco_table) ->
   Drift._map_falco_priority priority = "medium").
Proof.
  unfold Drift._map_falco_priority, Drift.falco_table,
    Drift.severity_levels. cbn [dict_get map fst In].
  repeat match goal with
         | |- context [String.eqb ?a ?b] =>
             destruct (String.eqb_spec a b)
         end; cbn [get]; (split; [auto 10|]); intro H;
    try reflexivity; exfalso; apply H; subst; auto 10.
Qed.

(* ================================================================= *)
(** ** The analysis of the drift detector *)

Lemma count_of_bump (k k' : string) (d : list (string * nat)) :
  DriftAnalysis.count_of k (DriftAnalysis.bump k' d)
  = DriftAnalysis.count_of k d + (if String.eqb k' k then 1 else 0).
Proof.
  unfold DriftAnalysis.count_of.
  induction d as [|[k0 n] d IH]; simpl.
  - destruct (String.eqb k' k); reflexivity.
  - destruct (String.eqb_spec k0 k') as [-> | Hne]; simpl.
    + destruct (String.eqb k' k); simpl; lia.
    + destruct (String.eqb_spec k0 k) as [-> | Hne']; simpl; [|exact IH].
      destruct (String.eqb_spec k' k); [congruence | lia].
Qed.

Lemma sum_bump (k : string) (d : list (string * nat)) :
  list_sum (map snd (DriftAnalysis.bump k d)) = S (list_sum (map snd d)).
Proof.
  induction d as [|[k0 n] d IH]; simpl; [reflexivity|].
  destruct (String.eqb k0 k); simpl; lia.
Qed.

Lemma keys_bump (k : string) (d : list (string * nat)) :
  NoDup (map fst d) ->
  NoDup (map fst (DriftAnalysis.bump k d)) /\
  (forall x, In x (map fst (DriftAnalysis.bump k d)) ->
             x = k \/ In x (map fst d)).
Proof.
  induction d as [|[k0 n] d IH]; simpl; intro H.
  - split; [constructor; [intros [] | constructor]|].
    intros x [<- | []]. now left.
  - inversion H as [|? ? Hk0 Hd]. subst.
    destruct (String.eqb_spec k0 k) as [-> | Hne]; simpl.
    + split; [assumption | tauto].
    + destruct (IH Hd) as [IH1 IH2]. split.
      * constructor; [|assumption]. intro Hin.
        destruct (IH2 _ Hin); [congruence | contradiction].
      * intros x [-> | Hx]; [tauto|]. destruct (IH2 _ Hx); tauto.
Qed.

Lemma tally_facts (field : Drift.DriftEvent -> string)
      (l : list Drift.DriftEvent) :
  (forall k, DriftAnalysis.count_of k (DriftAnalysis.tally field l)
             = events_with field k l) /\
  list_sum (map snd (DriftAnalysis.tally field l)) = List.length l /\
  NoDup (map fst (DriftAnalysis.tally field l)).
Proof.
  unfold DriftAnalysis.tally, events_with, count_if.
  assert (G : forall d,
             NoDup (map fst d) ->
             (forall k,
                 DriftAnalysis.count_of k
                   (fold_left (fun d e => DriftAnalysis.bump (field e) d) l d)
                 = DriftAnalysis.count_of k d
                   + List.length (filter (fun e => String.eqb (field e) k) l)) /\
             list_sum (map snd (fold_left
                                  (fun d e => DriftAnalysis.bump (field e) d)
                                  l d))
             = list_sum (map snd d) + List.length l /\
             NoDup (map fst (fold_left
                               (fun d e => DriftAnalysis.bump (field e) d)
                               l d))).
  { induction l as [|e l IH]; simpl; intros d Hd.
    - split; [intro; lia|]. split; [lia | assumption].
    - destruct (IH (DriftAnalysis.bump (field e) d)
                   (proj1 (@keys_bump (field e) d Hd))) as (H1 & H2 & H3).
      split; [|split; [|assumption]].
      + intro k. rewrite H1, count_of_bump.
        destruct (String.eqb (field e) k); simpl; lia.
      + rewrite H2, sum_bump. lia. }
  destruct (G [] (NoDup_nil _)) as (H1 & H2 & H3).
  split; [|split; assumption]. intro k. rewrite H1. reflexivity.
Qed.








Lemma recommendation_iff (b1 b2 : bool)
      (r1 r2 : DriftAnalysis.Recommendation) (a : string) :
  DriftAnalysis.action r1 = a -> DriftAnalysis.action r2 <> a ->
  (exists r, In r ((if b1 then [r1] else []) ++ (if b2 then [r2] else []))
             /\ DriftAnalysis.action r = a) <-> b1 = true.
Proof.
  intros H1 H2. split.
  - intros (r & Hin & Ha). apply in_app_or in Hin.
    destruct b1; [reflexivity|]. destruct Hin as [[] | Hin].
    destruct b2; [|destruct Hin]. destruct Hin as [<- | []]. contradiction.
  - intros ->. exists r1. split; [now left | assumption].
Qed.

Lemma recommendation_swap (l1 l2 : list DriftAnalysis.Recommendation)
      (a : string) :
  (exists r, In r (l1 ++ l2) /\ DriftAnalysis.action r = a) <->
  (exists r, In r (l2 ++ l1) /\ DriftAnalysis.action r = a).
Proof.
  split; intros (r & Hin & Ha); exists r; (split; [|assumption]);
    apply in_or_app; apply in_app_or in Hin; tauto.
Qed.

(** The events that [analyze] calls recent are those of the last 24
    hours. *)
Lemma recent_events_spec (now : Z) (l : list Drift.DriftEvent) :
  DriftAnalysis.recent_events now l = last_24_hours now l.
Proof.
  unfold DriftAnalysis.recent_events, last_24_hours, microseconds_per_hour.
  apply filter_ext. intro e.
  destruct (Z.ltb_spec (now - 86400000000) (Drift.timestamp e)),
    (Z.ltb_spec (now - Drift.timestamp e) (24 * (60 * 60 * 1000000)));
    try reflexivity; lia.
Qed.




(** X29.  In the analysis, [total_events] counts all the events of the
    detector, while the tallies by severity and by type count the
    events of the last 24 hours, those whose age at the second reading
    of the clock is below 24 hours: each entry is the number of these
    events with that severity or type, and each tally sums to their
    number.  The recommendation to investigate is there exactly when
    one of these events is critical, the recommendation to review the
    policies exactly when more than ten are unauthorized connections,
    and the risk indicator exactly when they are more than a hundred. *)
Theorem analyze_counts (isoformat : Z -> string)
        (self : Drift.DriftDetector) (env : Drift.Env) :
  let a := fst (DriftAnalysis.analyze isoformat self env) in
  let recent := last_24_hours (Drift.readings env 1) (Drift.events self) in
  DriftAnalysis.total_events a = List.length (Drift.events self) /\
  (forall k, DriftAnalysis.count_of k (DriftAnalysis.events_by_severity a)
             = events_with Drift.severity k recent) /\
  (forall k, DriftAnalysis.count_of k (DriftAnalysis.events_by_type a)
             = events_with Drift.event_type k recent) /\
  list_sum (map snd (DriftAnalysis.events_by_severity a))
  = List.length recent /\
  list_sum (map snd (DriftAnalysis.events_by_type a)) = List.length recent /\
  ((exists r, In r (DriftAnalysis.recommendations a) /\
              DriftAnalysis.action r
              = "Investigate critical drift events immediately") <->
   0 < events_with Drift.severity "critical" recent) /\
  ((exists r, In r (DriftAnalysis.recommendations a) /\
              DriftAnalysis.action r = "Review and update NetworkPolicies") <->
   10 < events_with Drift.event_type "unauthorized_connection" recent) /\
  (DriftAnalysis.risk_indicators a <> [] <-> 100 < List.length recent).
Proof.
  intros a recent. subst a recent. unfold DriftAnalysis.analyze.
  rewrite recent_events_spec.
  set (recent := last_24_hours _ _).
  cbn [fst DriftAnalysis.total_events
           DriftAnalysis.events_by_severity
           DriftAnalysis.events_by_type
           DriftAnalysis.recommendations
           DriftAnalysis.risk_indicators].
  destruct (tally_facts Drift.severity recent) as (Hs & Hss & _).
  destruct (tally_facts Drift.event_type recent) as (Ht & Hts & _).
  rewrite !Hs, !Ht.
  split; [reflexivity|]. split; [exact Hs|]. split; [exact Ht|].
  split; [exact Hss|]. split; [exact Hts|].
  rewrite <- !Nat.ltb_lt.
  split; [apply recommendation_iff; [reflexivity | discriminate]|].
  split.
  - rewrite recommendation_swap.
    apply recommendation_iff; [reflexivity | discriminate].
  - destruct (Nat.ltb 100 (List.length recent)); split; intro H;
      congruence.
Qed.

